(** * Media downloader: a shallow embedding of [index.js]

    The development follows the script top to bottom:

    - [Text]   JavaScript strings as sequences of UTF-16 code units, with
               the string methods the script calls ([trim], [split]);
    - [Json]   the ID-quoting pre-pass of [readFile] and [JSON.parse];
    - [Path]   the functions of Node's [path] module the script calls;
    - [Fetch]  the file system and [downloadFile];
    - [Runner] the loop of [downloadAllAttachments] and the program entry;
    - [Spec]   notions of the specification, in its own words;
    - [Doc]    export files as structured text, to state what [readFile]
               does to them;
    - [Sample] a URL parser, networks and exports to run the model on;
    - [Trace]  what a trace of events shows: requests, waits, lines;
    - [Place]  the file names a directory takes as they are.

    Platform functions whose behaviour is not decided by the script (the
    WHATWG URL parser, the network, the operator who may send [SIGINT],
    what the operating system refuses, the way a number is printed) are
    parameters of the model. The properties come after the definitions,
    one section per component. *)

From Stdlib Require Import NArith ZArith List String Ascii Lia Bool.
From Stdlib Require Import DecimalNat DecimalString DecimalFacts.
From Stdlib Require Import SpecFloat.
From stdpp Require Import base option gmap.

Open Scope N_scope.
Open Scope list_scope.

(** ** JavaScript strings *)

Module Text.

(** A JavaScript string is a finite sequence of UTF-16 code units. *)
Definition jsstring := list N.

(** Code units of an ASCII literal of this file. *)
Definition str (s : string) : jsstring :=
  List.map N_of_ascii (list_ascii_of_string s).

Definition DQUOTE : N := 34.
Definition BACKSLASH : N := 92.
Definition SPACE : N := 32.
Definition COMMA : N := 44.
Definition COLON : N := 58.
Definition SLASH : N := 47.
Definition DOT : N := 46.
Definition UNDERSCORE : N := 95.

(** ECMAScript [WhiteSpace] and [LineTerminator] code units: the class
    [\s] of regular expressions, which is also what [String.prototype.trim]
    strips. *)
Definition is_space (c : N) : bool :=
  ((9 <=? c) && (c <=? 13)) || (c =? 32) || (c =? 160) || (c =? 5760)
  || ((8192 <=? c) && (c <=? 8202)) || (c =? 8232) || (c =? 8233)
  || (c =? 8239) || (c =? 8287) || (c =? 12288) || (c =? 65279).

(** The class [\d]. *)
Definition is_digit (c : N) : bool := (48 <=? c) && (c <=? 57).

Fixpoint drop_while (p : N -> bool) (s : jsstring) : jsstring :=
  match s with
  | [] => []
  | c :: s' => if p c then drop_while p s' else s
  end.

Fixpoint take_while (p : N -> bool) (s : jsstring) : jsstring :=
  match s with
  | [] => []
  | c :: s' => if p c then c :: take_while p s' else []
  end.

(** [s.trim()] *)
Definition trim (s : jsstring) : jsstring :=
  rev (drop_while is_space (rev (drop_while is_space s))).

(** [s.split(sep)] for a one-unit separator: never the empty array. *)
Fixpoint split (sep : N) (s : jsstring) : list jsstring :=
  match s with
  | [] => [[]]
  | c :: s' =>
      if c =? sep then [] :: split sep s'
      else match split sep s' with
           | t :: ts => (c :: t) :: ts
           | [] => [[c]]
           end
  end.

(** [s.startsWith(p)], returning what follows the prefix. *)
Fixpoint strip_prefix (p s : jsstring) : option jsstring :=
  match p, s with
  | [], _ => Some s
  | a :: p', c :: s' => if a =? c then strip_prefix p' s' else None
  | _ :: _, [] => None
  end.

(** Decimal rendering of a natural number, as in a template literal. *)
Definition dec (n : nat) : jsstring :=
  str (NilZero.string_of_uint (Nat.to_uint n)).

Definition jsstring_eqb (a b : jsstring) : bool :=
  bool_decide (a = b).

End Text.
Import Text.

(** ** [readFile]: the ID pre-pass and [JSON.parse] *)

Module Json.

(** The literal text [("ID":)] that the pattern starts with. *)
Definition ID_KEY : jsstring := DQUOTE :: str "ID" ++ [DQUOTE; COLON].

(** One attempt of [/"ID":\s*(\d+)/] anchored at the head of [s]: the
    captured digits and the text after the match. The classes [\s] and
    [\d] are disjoint, so the greedy choice for [\s*] and for [\d+] is
    the only way the pattern can match and no backtracking is lost. *)
Definition match_ID (s : jsstring) : option (jsstring * jsstring) :=
  match strip_prefix ID_KEY s with
  | None => None
  | Some r =>
      let r1 := drop_while is_space r in
      match take_while is_digit r1 with
      | [] => None
      | ds => Some (ds, drop_while is_digit r1)
      end
  end.

(** The replacement text ["ID": "$1"] for captured digits [ds]. *)
Definition quoted_ID (ds : jsstring) : jsstring :=
  ID_KEY ++ SPACE :: DQUOTE :: ds ++ [DQUOTE].

(** [rawData.replace(/"ID":\s*(\d+)/g, '"ID": "$1"')]: scan from the left;
    at a match emit the replacement and go on after the match, otherwise
    copy one code unit. [fuel] bounds the number of steps. *)
Fixpoint replace_IDs (fuel : nat) (s : jsstring) : jsstring :=
  match fuel with
  | O => s
  | S fuel' =>
      match s with
      | [] => []
      | c :: s' =>
          match match_ID s with
          | Some (ds, rest) => quoted_ID ds ++ replace_IDs fuel' rest
          | None => c :: replace_IDs fuel' s'
          end
      end
  end.

Definition fixIds (rawData : jsstring) : jsstring :=
  replace_IDs (length rawData) rawData.

(** *** JSON values *)

#[local] Set Warnings "-register-all".

(** A value as [JSON.parse] builds it. A number is an IEEE 754 binary64
    value. An object keeps its members in source order, duplicates
    included; a later member with the same key shadows an earlier one
    ([obj_get]). *)
Inductive value : Type :=
| JNull
| JBool (b : bool)
| JNum (x : spec_float)
| JStr (s : jsstring)
| JArr (elems : list value)
| JObj (members : list (jsstring * value)).

Fixpoint obj_get (k : jsstring) (members : list (jsstring * value))
  : option value :=
  match members with
  | [] => None
  | (k', v) :: rest =>
      match obj_get k rest with
      | Some v' => Some v'
      | None => if jsstring_eqb k k' then Some v else None
      end
  end.

(** *** Numbers *)

Fixpoint digits_value (acc : Z) (ds : jsstring) : Z :=
  match ds with
  | [] => acc
  | d :: ds' => digits_value (10 * acc + (Z.of_N d - 48)) ds'
  end.

(** The binary64 value nearest to [(-1)^neg * m * 10^e10] (ties to even),
    for [m >= 0]. *)
Definition decimal_to_double (neg : bool) (m e10 : Z) : spec_float :=
  match m with
  | Zpos p =>
      if (0 <=? e10)%Z
      then binary_normalize 53 1024 (cond_Zopp neg (m * 10 ^ e10)) 0 neg
      else SFdiv 53 1024 (S754_finite neg p 0)
                         (S754_finite false (Z.to_pos (10 ^ (- e10))) 0)
  | _ => S754_zero neg
  end.

(** The integer part of a number: [0] alone, or a digit run that does not
    start with [0]. *)
Definition split_int (s : jsstring) : option (jsstring * jsstring) :=
  match s with
  | [] => None
  | d :: s' =>
      if d =? 48 then Some ([d], s')
      else if is_digit d then Some (take_while is_digit s, drop_while is_digit s)
      else None
  end.

(** An optional fraction: the digits after the point. *)
Definition split_frac (s : jsstring) : option (jsstring * jsstring) :=
  match s with
  | c :: s' =>
      if c =? DOT then
        match take_while is_digit s' with
        | [] => None
        | ds => Some (ds, drop_while is_digit s')
        end
      else Some ([], s)
  | [] => Some ([], s)
  end.

(** An optional exponent, as a signed integer. *)
Definition split_exp (s : jsstring) : option (Z * jsstring) :=
  match s with
  | c :: s' =>
      if (c =? 101) || (c =? 69) then
        let '(sgn, s'') :=
          match s' with
          | x :: r => if x =? 45 then (true, r)
                      else if x =? 43 then (false, r) else (false, s')
          | [] => (false, s')
          end in
        match take_while is_digit s'' with
        | [] => None
        | ds => Some (cond_Zopp sgn (digits_value 0 ds), drop_while is_digit s'')
        end
      else Some (0%Z, s)
  | [] => Some (0%Z, s)
  end.

Definition parse_number (s : jsstring) : option (spec_float * jsstring) :=
  let '(neg, s0) :=
    match s with
    | c :: r => if c =? 45 then (true, r) else (false, s)
    | [] => (false, s)
    end in
  match split_int s0 with
  | None => None
  | Some (int, s1) =>
      match split_frac s1 with
      | None => None
      | Some (frac, s2) =>
          match split_exp s2 with
          | None => None
          | Some (e, s3) =>
              Some (decimal_to_double neg (digits_value 0 (int ++ frac))
                      (e - Z.of_nat (length frac)), s3)
          end
      end
  end.

(** *** Strings *)

Definition hex_value (c : N) : option N :=
  if is_digit c then Some (c - 48)
  else if (97 <=? c) && (c <=? 102) then Some (c - 87)
  else if (65 <=? c) && (c <=? 70) then Some (c - 55)
  else None.

Definition hex4 (a b c d : N) : option N :=
  match hex_value a, hex_value b, hex_value c, hex_value d with
  | Some x, Some y, Some z, Some w => Some (((x * 16 + y) * 16 + z) * 16 + w)
  | _, _, _, _ => None
  end.

(** The code unit a one-letter escape stands for. *)
Definition unescape (e : N) : option N :=
  if e =? DQUOTE then Some DQUOTE
  else if e =? BACKSLASH then Some BACKSLASH
  else if e =? SLASH then Some SLASH
  else if e =? 98 then Some 8
  else if e =? 102 then Some 12
  else if e =? 110 then Some 10
  else if e =? 114 then Some 13
  else if e =? 116 then Some 9
  else None.

Definition push (c : N) (r : option (jsstring * jsstring))
  : option (jsstring * jsstring) :=
  match r with
  | Some (t, rest) => Some (c :: t, rest)
  | None => None
  end.

(** The characters of a string literal, read after its opening quote:
    the decoded content and the text after the closing quote. *)
Fixpoint parse_chars (s : jsstring) : option (jsstring * jsstring) :=
  match s with
  | [] => None
  | c :: s' =>
      if c =? DQUOTE then Some ([], s')
      else if c =? BACKSLASH then
        match s' with
        | [] => None
        | e :: s'' =>
            if e =? 117 then
              match s'' with
              | h1 :: h2 :: h3 :: h4 :: s3 =>
                  match hex4 h1 h2 h3 h4 with
                  | Some u => push u (parse_chars s3)
                  | None => None
                  end
              | _ => None
              end
            else
              match unescape e with
              | Some u => push u (parse_chars s'')
              | None => None
              end
        end
      else if c <? 32 then None
      else push c (parse_chars s')
  end.

(** *** Values *)

Definition is_json_ws (c : N) : bool :=
  (c =? 32) || (c =? 9) || (c =? 10) || (c =? 13).

Definition skip_ws (s : jsstring) : jsstring := drop_while is_json_ws s.

Definition LBRACKET : N := 91.
Definition RBRACKET : N := 93.
Definition LBRACE : N := 123.
Definition RBRACE : N := 125.

Definition literal (word : jsstring) (v : value) (s : jsstring)
  : option (value * jsstring) :=
  match strip_prefix word s with
  | Some r => Some (v, r)
  | None => None
  end.

(** Recursive descent over the grammar of ECMA-404. Every call spends one
    unit of [fuel]. *)
Fixpoint parse_value (fuel : nat) (s : jsstring) : option (value * jsstring) :=
  match fuel with
  | O => None
  | S fuel' =>
      match skip_ws s with
      | [] => None
      | c :: r =>
          if c =? DQUOTE then
            match parse_chars r with
            | Some (t, r') => Some (JStr t, r')
            | None => None
            end
          else if c =? LBRACKET then
            match skip_ws r with
            | c' :: r' =>
                if c' =? RBRACKET then Some (JArr [], r')
                else match parse_elements fuel' r with
                     | Some (vs, r'') => Some (JArr vs, r'')
                     | None => None
                     end
            | [] => None
            end
          else if c =? LBRACE then
            match skip_ws r with
            | c' :: r' =>
                if c' =? RBRACE then Some (JObj [], r')
                else match parse_members fuel' r with
                     | Some (ms, r'') => Some (JObj ms, r'')
                     | None => None
                     end
            | [] => None
            end
          else if c =? 116 then literal (str "true") (JBool true) (c :: r)
          else if c =? 102 then literal (str "false") (JBool false) (c :: r)
          else if c =? 110 then literal (str "null") JNull (c :: r)
          else
            match parse_number (c :: r) with
            | Some (x, r') => Some (JNum x, r')
            | None => None
            end
      end
  end

with parse_elements (fuel : nat) (s : jsstring)
  : option (list value * jsstring) :=
  match fuel with
  | O => None
  | S fuel' =>
      match parse_value fuel' s with
      | None => None
      | Some (v, r) =>
          match skip_ws r with
          | c :: r' =>
              if c =? COMMA then
                match parse_elements fuel' r' with
                | Some (vs, r'') => Some (v :: vs, r'')
                | None => None
                end
              else if c =? RBRACKET then Some ([v], r')
              else None
          | [] => None
          end
      end
  end

with parse_members (fuel : nat) (s : jsstring)
  : option (list (jsstring * value) * jsstring) :=
  match fuel with
  | O => None
  | S fuel' =>
      match skip_ws s with
      | q :: r0 =>
          if q =? DQUOTE then
            match parse_chars r0 with
            | None => None
            | Some (k, r1) =>
                match skip_ws r1 with
                | c :: r2 =>
                    if c =? COLON then
                      match parse_value fuel' r2 with
                      | None => None
                      | Some (v, r3) =>
                          match skip_ws r3 with
                          | c' :: r4 =>
                              if c' =? COMMA then
                                match parse_members fuel' r4 with
                                | Some (ms, r5) => Some ((k, v) :: ms, r5)
                                | None => None
                                end
                              else if c' =? RBRACE then Some ([(k, v)], r4)
                              else None
                          | [] => None
                          end
                      end
                    else None
                | [] => None
                end
            end
          else None
      | [] => None
      end
  end.

(** [JSON.parse(text)]; [None] stands for the [SyntaxError] it throws.
    The fuel covers every text: a call either consumes a code unit before
    it recurses or is the step of a list that consumed one. *)
Definition JSON_parse (text : jsstring) : option value :=
  match parse_value (2 * length text + 2) text with
  | Some (v, r) =>
      match skip_ws r with
      | [] => Some v
      | _ :: _ => None
      end
  | None => None
  end.

End Json.
Import Json.

(** ** Node's [path] module (POSIX flavour) *)

Module Path.

Definition is_slash (c : N) : bool := c =? SLASH.
Definition not_dot (c : N) : bool := negb (c =? DOT).

Definition is_nil (s : jsstring) : bool :=
  match s with [] => true | _ :: _ => false end.

(** [path.basename(p)]: trailing slashes are dropped, then what follows
    the last remaining slash is returned. *)
Definition basename (p : jsstring) : jsstring :=
  List.last (split SLASH (rev (drop_while is_slash (rev p)))) [].

(** [path.extname(p)]: from the last dot of the last component to its end;
    empty when the component has no dot, when its only dot opens it, and
    when the component is [..]. *)
Definition extname (p : jsstring) : jsstring :=
  let r := rev (basename p) in
  match drop_while not_dot r with
  | [] => []
  | _ :: before =>
      let after := rev (take_while not_dot r) in
      match before with
      | [] => []
      | _ :: _ =>
          if is_nil after && jsstring_eqb before [DOT] then []
          else DOT :: after
      end
  end.

Definition DOTDOT : jsstring := [DOT; DOT].

(** [normalizeString]: the components of a path with empty and [.]
    components dropped and [..] resolved against the component before it;
    [stack] holds the components kept so far, last first. *)
Fixpoint normalize_segments (allowAboveRoot : bool) (segs stack : list jsstring)
  : list jsstring :=
  match segs with
  | [] => rev stack
  | seg :: segs' =>
      if is_nil seg || jsstring_eqb seg [DOT] then
        normalize_segments allowAboveRoot segs' stack
      else if jsstring_eqb seg DOTDOT then
        match stack with
        | top :: stack' =>
            if jsstring_eqb top DOTDOT then
              normalize_segments allowAboveRoot segs'
                (if allowAboveRoot then DOTDOT :: stack else stack)
            else normalize_segments allowAboveRoot segs' stack'
        | [] =>
            normalize_segments allowAboveRoot segs'
              (if allowAboveRoot then [DOTDOT] else [])
        end
      else normalize_segments allowAboveRoot segs' (seg :: stack)
  end.

Fixpoint join_segments (segs : list jsstring) : jsstring :=
  match segs with
  | [] => []
  | [seg] => seg
  | seg :: segs' => seg ++ SLASH :: join_segments segs'
  end.

(** [path.normalize(p)] *)
Definition normalize (p : jsstring) : jsstring :=
  match p with
  | [] => [DOT]
  | c :: _ =>
      let isAbsolute := is_slash c in
      let trailingSeparator := is_slash (List.last p 0) in
      let body :=
        join_segments (normalize_segments (negb isAbsolute) (split SLASH p) []) in
      match body with
      | [] =>
          if isAbsolute then [SLASH]
          else if trailingSeparator then [DOT; SLASH] else [DOT]
      | _ :: _ =>
          (if isAbsolute then [SLASH] else [])
            ++ body ++ (if trailingSeparator then [SLASH] else [])
      end
  end.

(** [path.join(a, b)] *)
Definition join (a b : jsstring) : jsstring :=
  match a, b with
  | [], [] => [DOT]
  | [], _ => normalize b
  | _, [] => normalize a
  | _, _ => normalize (a ++ SLASH :: b)
  end.

(** The file a path names: the path that leads to it from the working
    directory of the process, in normal form and without a slash at its
    end. This is what [path.resolve(p)] computes, less the working
    directory in front, and what the operating system does with the
    argument of an [fs] call. The script names files by relative paths
    only; an absolute path is kept as it is. *)
Definition resolve (p : jsstring) : jsstring :=
  let n := normalize p in
  match rev n with
  | c :: ((_ :: _) as r) => if is_slash c then rev r else n
  | _ => n
  end.

(** The paths that lead to a file, the file last: [a], [a/b] and [a/b/c]
    for [a/b/c]; the root comes first for an absolute path. *)
Fixpoint prefixes_from (dir : option jsstring) (segs : list jsstring)
  : list jsstring :=
  match segs with
  | [] => []
  | seg :: segs' =>
      let p :=
        match dir with
        | None => if is_nil seg then [SLASH] else seg
        | Some d =>
            if jsstring_eqb d [SLASH] then SLASH :: seg else d ++ SLASH :: seg
        end in
      p :: prefixes_from (Some p) segs'
  end.

Definition prefixes (k : jsstring) : list jsstring :=
  prefixes_from None (split SLASH k).

(** The directories that lead to a file. *)
Definition ancestors (k : jsstring) : list jsstring := removelast (prefixes k).

(** The working directory, the directories above it and the root. *)
Definition standing (k : jsstring) : bool :=
  jsstring_eqb k [DOT] || jsstring_eqb k [SLASH]
  || forallb (fun seg => jsstring_eqb seg DOTDOT) (split SLASH k).

End Path.
Import Path.

(** ** The file system and [downloadFile] *)

Module Fetch.

(** What a path names: a regular file with its content, or a directory. *)
Inductive node : Type :=
| File (data : jsstring)
| Directory.

(** The files and directories of the machine other than the working
    directory, the directories above it and the root, by resolved path.
    Every entry is meant to lie in a directory: the paths that lead to it
    name directories. An operation on a file is taken to be complete
    when the script goes on: the model has no thread pool that works
    while the script runs. *)
Abbreviation filesystem := (gmap (list N) node).

Definition is_directory (fs : filesystem) (k : jsstring) : bool :=
  standing k
  || match fs !! k with
     | Some Directory => true
     | _ => false
     end.

(** [fs.existsSync(p)] *)
Definition existsSync (p : jsstring) (fs : filesystem) : bool :=
  standing (resolve p) || bool_decide (is_Some (fs !! resolve p)).

(** One file system keeps what the other holds. *)
Definition kept (fs fs' : filesystem) : Prop :=
  forall (k : jsstring) (n : node), fs !! k = Some n -> fs' !! k = Some n.

(** What happens on the terminal, on the network and on the clock, in the
    order it happens. *)
Inductive event : Type :=
| Log (line : jsstring)          (* console.log *)
| LogError (line : jsstring)     (* console.error with a text *)
| LogErrorObject (message : jsstring)
                                 (* console.error with an Error object:
                                    its name, message and stack *)
| Fatal (message : jsstring)     (* Node's report of an uncaught error *)
| Request (url : jsstring)       (* https.get sends a request *)
| Sleep (ms : nat).              (* an awaited setTimeout *)

(** What becomes of a call [https.get(url, callback)]: it throws before
    anything is sent (a protocol other than [https:], say); or the
    request emits [error]; or the callback runs with a response whose
    body arrives whole; or the callback runs with a response of status
    200 and the connection is closed before the body is complete, with
    [received] written so far. *)
Inductive reply : Type :=
| Throws (message : jsstring)
| NetworkError (message : jsstring)
| Response (statusCode : nat) (body : jsstring)
| Truncated (received : jsstring).

(** How a promise settles; a rejection carries [error.message]. *)
Inductive settled : Type :=
| Fulfilled
| Rejected (message : jsstring).

(** What becomes of the promise of [downloadFile]: it settles; or it
    never does, as nothing listens to the end of a response that is cut
    short; or it is still pending when the write stream emits [error],
    to which nothing listens either, so that the error is uncaught. *)
Inductive result : Type :=
| Settles (s : settled)
| Stalls
| Uncaught (message : jsstring).

Definition bad_status (statusCode : nat) : jsstring :=
  str "Failed to download: " ++ dec statusCode.

(** The messages of the errors of the file system, up to the system
    call and the path that Node puts behind them. *)
Definition ENOENT : jsstring := str "ENOENT: no such file or directory".
Definition ENOTDIR : jsstring := str "ENOTDIR: not a directory".
Definition EISDIR : jsstring := str "EISDIR: illegal operation on a directory".
Definition EEXIST : jsstring := str "EEXIST: file already exists".
Definition EACCES : jsstring := str "EACCES: permission denied".

(** The first of the directories [ds], taken from the top, that is not
    there, with the error it gives. *)
Fixpoint missing (fs : filesystem) (ds : list jsstring) : option jsstring :=
  match ds with
  | [] => None
  | d :: ds' =>
      if is_directory fs d then missing fs ds'
      else Some (match fs !! d with
                 | Some _ => ENOTDIR
                 | None => ENOENT
                 end)
  end.

Section Platform.

(** The paths at which the operating system lets the process create
    nothing, for a reason the file system of the model does not show:
    permissions, quota, the length of a name. *)
Variable denied : jsstring -> bool.

(** [fs.mkdirSync(dir, { recursive: true })] along the paths [ps] that
    lead to [dir], [dir] last: the directories that are not there are
    made, from the top; the call throws at a regular file and where the
    operating system refuses. *)
Fixpoint mkdirs (ps : list jsstring) (fs : filesystem)
  : filesystem * option jsstring :=
  match ps with
  | [] => (fs, None)
  | p :: ps' =>
      if is_directory fs p then mkdirs ps' fs
      else match fs !! p with
           | Some _ =>
               (fs, Some (match ps' with [] => EEXIST | _ :: _ => ENOTDIR end))
           | None =>
               if denied p then (fs, Some EACCES)
               else mkdirs ps' (<[p := Directory]> fs)
           end
  end.

(** [createDirIfNotExists(dir)]: the file system after the call, and the
    message of the error if the call throws. *)
Definition createDirIfNotExists (dir : jsstring) (fs : filesystem)
  : filesystem * option jsstring :=
  if negb (existsSync dir fs)
  then mkdirs (ancestors (resolve dir) ++ [resolve dir]) fs
  else (fs, None).

(** The error of opening the file [k] for writing, if there is one. *)
Definition open_error (fs : filesystem) (k : jsstring) : option jsstring :=
  match missing fs (ancestors k) with
  | Some e => Some e
  | None =>
      if is_directory fs k then Some EISDIR
      else if denied k then Some EACCES
      else None
  end.

(** [fs.createWriteStream(filepath)]: the file system once the stream
    has opened the file, which creates or truncates it, and the error
    the stream emits if it cannot. *)
Definition createWriteStream (filepath : jsstring) (fs : filesystem)
  : filesystem * option jsstring :=
  match open_error fs (resolve filepath) with
  | Some e => (fs, Some e)
  | None => (<[resolve filepath := File []]> fs, None)
  end.

(** [downloadFile(url, filepath)], given what becomes of [https.get].
    The write stream is made first. When [https.get] throws, the promise
    is rejected with what it throws. When the stream cannot open the
    file, nothing listens to its [error] event: the error is uncaught,
    and it is delivered before anything of the request. Only the [error]
    handler of the request unlinks the file, and only the [finish] of
    the write stream fulfils the promise. *)
Definition downloadFile (r : reply) (url filepath : jsstring) (fs : filesystem)
  : filesystem * list event * result :=
  let '(fs1, e) := createWriteStream filepath fs in
  match r, e with
  | Throws message, _ => (fs1, [], Settles (Rejected message))
  | _, Some e => (fs1, [], Uncaught e)
  | Response statusCode body, None =>
      if Nat.eqb statusCode 200 then
        (<[resolve filepath := File body]> fs1,
         [Request url; Log (str "Downloaded: " ++ filepath)],
         Settles Fulfilled)
      else (fs1, [Request url], Settles (Rejected (bad_status statusCode)))
  | NetworkError message, None =>
      (delete (resolve filepath) fs1, [Request url],
       Settles (Rejected message))
  | Truncated received, None =>
      (<[resolve filepath := File received]> fs1, [Request url], Stalls)
  end.

End Platform.

End Fetch.
Import Fetch.

(** ** [downloadAllAttachments] *)

Module Runner.

(** A record of the export as the loop sees it: the text that
    [`${message.ID}`] gives, and the attachments field, which is missing
    (or falsy) or holds a string. *)
Record message : Type := {
  ID : jsstring;
  Attachments : option jsstring
}.

(** What a throwing call throws, by the message of the error; for an
    error of the file system or of [JSON.parse], by the part of the
    message, or the name, that does not depend on the text and the
    path. *)
Inductive outcome (A : Type) : Type :=
| Return (a : A)
| Throw (message : jsstring).
Arguments Return {A} a.
Arguments Throw {A} message.

(** [readFile(filename)] *)
Definition readFile (filename : jsstring) (fs : filesystem) : outcome value :=
  match fs !! resolve filename with
  | Some (File rawData) =>
      let fixedData := fixIds rawData in
      match JSON_parse fixedData with
      | Some data => Return data
      | None => Throw (str "SyntaxError")
      end
  | Some Directory => Throw (str "EISDIR: illegal operation on a directory, read")
  | None => Throw (str "ENOENT: no such file or directory")
  end.

(** *** The elements of the parsed export *)

(** An element of the export as the loop meets it: a record; or a record
    with attachments whose identifier cannot be turned into a text, so
    that the template literal throws; the loop ends at an element that
    makes the guard throw. *)
Inductive element : Type :=
| Plain (m : message)
| Unnamed (attachments : jsstring).

Definition not_a_function : jsstring :=
  str "message.Attachments.trim is not a function".
Definition null_element : jsstring :=
  str "Cannot read properties of null (reading 'Attachments')".
Definition not_iterable : jsstring := str "data is not iterable".
Definition not_primitive : jsstring :=
  str "Cannot convert object to primitive value".

Definition is_high_surrogate (c : N) : bool := (55296 <=? c) && (c <=? 56319).
Definition is_low_surrogate (c : N) : bool := (56320 <=? c) && (c <=? 57343).

(** The code points of a string, which the iteration of a string gives
    one by one. *)
Fixpoint code_points (s : jsstring) : list jsstring :=
  match s with
  | [] => []
  | c :: s' =>
      match s' with
      | d :: s'' =>
          if is_high_surrogate c && is_low_surrogate d
          then [c; d] :: code_points s''
          else [c] :: code_points s'
      | [] => [[c]]
      end
  end.

Section Shape.

(** [Number.prototype.toString] on a double. *)
Variable Number_toString : spec_float -> jsstring.

(** [String(v)] for a parsed value, as a template literal applies it;
    [None] when it throws: an object with a member [toString] of its
    own, which is not a function, has no primitive value. *)
Fixpoint to_string (v : value) : option jsstring :=
  match v with
  | JNull => Some (str "null")
  | JBool true => Some (str "true")
  | JBool false => Some (str "false")
  | JNum x => Some (Number_toString x)
  | JStr s => Some s
  | JArr elems =>
      (fix joined (vs : list value) : option jsstring :=
         match vs with
         | [] => Some []
         | v :: vs' =>
             let item :=
               match v with
               | JNull => Some []
               | _ => to_string v
               end in
             match vs' with
             | [] => item
             | _ :: _ =>
                 match item, joined vs' with
                 | Some a, Some b => Some (a ++ COMMA :: b)
                 | _, _ => None
                 end
             end
         end) elems
  | JObj members =>
      match obj_get (str "toString") members with
      | Some _ => None
      | None => Some (str "[object Object]")
      end
  end.

(** [`${message.ID}`] for a record with the members [members]. *)
Definition ID_text (members : list (jsstring * value)) : option jsstring :=
  match obj_get (str "ID") members with
  | None => Some (str "undefined")
  | Some v => to_string v
  end.

Definition no_ID : jsstring := str "undefined".

(** What the guard at the head of the loop body makes of an element:
    [message.Attachments] is [undefined] on a string, a number, a
    boolean and an array; a falsy field and a string are for the loop
    body; on [null] and at a field that is truthy and not a string the
    guard throws. *)
Definition element_of_value (v : value) : outcome element :=
  match v with
  | JNull => Throw null_element
  | JObj members =>
      let id := default no_ID (ID_text members) in
      match obj_get (str "Attachments") members with
      | None | Some JNull | Some (JBool false) | Some (JNum (S754_zero _)) =>
          Return (Plain {| ID := id; Attachments := None |})
      | Some (JStr a) =>
          match ID_text members with
          | Some id' => Return (Plain {| ID := id'; Attachments := Some a |})
          | None =>
              Return (if is_nil a || is_nil (trim a)
                      then Plain {| ID := id; Attachments := Some a |}
                      else Unnamed a)
          end
      | Some _ => Throw not_a_function
      end
  | _ => Return (Plain {| ID := no_ID; Attachments := None |})
  end.

(** The elements before the first one at which the guard throws, and
    the message of what it throws there. *)
Fixpoint elements_of_values (vs : list value) : list element * option jsstring :=
  match vs with
  | [] => ([], None)
  | v :: vs' =>
      match element_of_value v with
      | Throw message => ([], Some message)
      | Return e =>
          let '(es, fault) := elements_of_values vs' in (e :: es, fault)
      end
  end.

(** [for (const message of data)]: an array gives its elements and a
    string its code points, none of which has attachments; another value
    is not iterable. *)
Definition elements_of (data : value) : list element * option jsstring :=
  match data with
  | JArr vs => elements_of_values vs
  | JStr s =>
      (List.map (fun _ => Plain {| ID := no_ID; Attachments := None |})
         (code_points s), None)
  | _ => ([], Some not_iterable)
  end.

End Shape.

Definition dataDir : jsstring := str "./data".
Definition downloadDir : jsstring := str "./downloads".
Definition messagesPath : jsstring := join dataDir (str "messages.json").

(** The guard at the head of the loop body: [message.Attachments] is
    falsy or its [trim()] is the empty string. *)
Definition no_attachments (m : message) : bool :=
  match Attachments m with
  | None => true
  | Some a => is_nil a || is_nil (trim a)
  end.

(** [message.Attachments.split(" ")], filtered to the pieces whose
    [trim()] is not the empty string. *)
Definition urls_of (a : jsstring) : list jsstring :=
  List.filter (fun url => negb (is_nil (trim url))) (split SPACE a).

(** The name the script gives to attachment [i] (counted from 0) of a
    record: [`${message.ID}_${i + 1}${ext}`]. *)
Definition unique_name (id : jsstring) (i : nat) (ext : jsstring) : jsstring :=
  id ++ UNDERSCORE :: dec (i + 1) ++ ext.

Definition error_line (url message : jsstring) : jsstring :=
  str "Error downloading " ++ url ++ str ": " ++ message.

(** The URLs the inner loop visits for a record, in order: the
    attachment tasks of the record. The task at position [i] (from 0) has
    ordinal [i + 1]. *)
Definition tasks_of (m : message) : list jsstring :=
  if no_attachments m then [] else urls_of (default [] (Attachments m)).

Definition total_tasks (data : list message) : nat :=
  list_sum (List.map (fun m => length (tasks_of m)) data).

(** The variables of a run: the files, the two counters and the flag
    [isShuttingDown]; [requests] counts the calls of [https.get] so
    far; [pending] is the error of a write stream that could not open
    its file, from when the stream is made until the error is
    delivered, which takes a turn of the event loop. *)
Record state : Type := {
  files : filesystem;
  downloadCount : nat;
  skippedCount : nat;
  requests : nat;
  isShuttingDown : bool;
  pending : option jsstring
}.

(** What the operator does while a call of [https.get], or the wait that
    follows the download, is pending: nothing; or a [SIGINT] while the
    request is in flight, [written] units of the body being in the file
    by then; or a [SIGINT] during the wait. *)
Inductive signal : Type :=
| Quiet
| DuringRequest (written : nat)
| DuringWait.

(** How the process ends: the promise of [downloadAllAttachments]
    settles; or it settles while the error of a write stream is on its
    way, which is uncaught once the script has returned; or
    [process.exit] is called; or an error is uncaught while the script
    waits, which Node reports before it exits with status 1; or a
    promise never settles and the process ends when nothing is left to
    wait for. *)
Inductive ending : Type :=
| Settled (s : settled)
| Doomed (s : settled) (message : jsstring)
| Exited (status : nat)
| Crashed (message : jsstring)
| Stalled.

Definition stopped_by_user : jsstring :=
  10 :: 10 :: str "Download stopped by user.".

(** The handler of [SIGINT]: it prints its line, sets the flag and ends
    the process at once with status 0. *)
Definition on_SIGINT (st : state) : state * list event * option ending :=
  ({| files := files st;
      downloadCount := downloadCount st;
      skippedCount := skippedCount st;
      requests := requests st;
      isShuttingDown := true;
      pending := pending st |},
   [Log stopped_by_user], Some (Exited 0)).

(** The first of two errors on their way. *)
Definition first_error (a b : option jsstring) : option jsstring :=
  match a with
  | Some e => Some e
  | None => b
  end.

(** How the promise of [downloadAllAttachments] ends the process when
    it settles. *)
Definition finish (st : state) (s : settled) : ending :=
  match pending st with
  | Some e => Doomed s e
  | None => Settled s
  end.

(** What a [SIGINT] finds in the file of a request in flight: the part
    of the body of a response of status 200 that is written by then. *)
Definition interrupted (r : reply) (written : nat) : jsstring :=
  match r with
  | Response statusCode body =>
      if Nat.eqb statusCode 200 then take written body else []
  | Truncated received => take written received
  | _ => []
  end.

Section Run.

(** [new URL(url).pathname]; [None] when the constructor throws. *)
Variable URL_pathname : jsstring -> option jsstring.

(** What becomes of the n-th call of [https.get] of the run, given its
    URL. *)
Variable https_get : nat -> jsstring -> reply.

(** What the operator does while the n-th call of [https.get] of the
    run, or the wait after it, is pending. The handler of a signal runs
    between two tasks of the event loop, so only where the script
    awaits something that takes one: a request in flight or a timer. *)
Variable SIGINT : nat -> signal.

(** Where the operating system refuses to create a file. *)
Variable denied : jsstring -> bool.

Variable Number_toString : spec_float -> jsstring.

(** The file name of attachment [i] of record [id]; [None] when
    [new URL(url)] throws. *)
Definition filename_of (id : jsstring) (i : nat) (url : jsstring)
  : option jsstring :=
  match URL_pathname url with
  | None => None
  | Some pathname =>
      let filename := basename pathname in
      let ext := extname filename in
      Some (unique_name id i ext)
  end.

(** [filepath]: the name joined to the download directory. *)
Definition destination (id : jsstring) (i : nat) (url : jsstring)
  : option jsstring :=
  match filename_of id i url with
  | None => None
  | Some name => Some (join downloadDir name)
  end.

(** The destinations of the URLs [urls] of record [id], which sit at
    positions [i], [i + 1], ... of the record, all exist. *)
Definition present (fs : filesystem) (id : jsstring) (i : nat)
  (urls : list jsstring) : Prop :=
  forall j url, urls !! j = Some url ->
    exists filepath,
      destination id (i + j) url = Some filepath
      /\ existsSync filepath fs = true.


(** The state after the [await] of [downloadFile] has returned or
    thrown. *)
Definition after_download (fs : filesystem) (downloaded : nat) (st : state)
  : state :=
  {| files := fs;
     downloadCount := downloaded + downloadCount st;
     skippedCount := skippedCount st;
     requests := S (requests st);
     isShuttingDown := isShuttingDown st;
     pending := pending st |}.

(** The body of the inner loop, with its [try] and [catch], and how the
    process ends if it ends there. The check [fs.existsSync(fullPath)]
    and the write stream on [filepath] look at the same file, the one
    [filepath] resolves to. When [https.get] throws, the script goes on
    at once, and the error of a write stream that did not open stays on
    its way. Otherwise the script waits for the request: an error on
    its way is delivered first and ends the process; if there is none,
    the operator may interrupt the request or, after a download, the
    wait. *)
Definition attachment (id : jsstring) (i : nat) (url : jsstring) (st : state)
  : state * list event * option ending :=
  match destination id i url with
  | None => (st, [LogError (error_line url (str "Invalid URL"))], None)
  | Some filepath =>
      if existsSync filepath (files st) then
        ({| files := files st;
            downloadCount := downloadCount st;
            skippedCount := S (skippedCount st);
            requests := requests st;
            isShuttingDown := isShuttingDown st;
            pending := pending st |},
         [Log (str "Skipped existing image: " ++ filepath)], None)
      else
        let r := https_get (requests st) url in
        let '(fs1, e) := createWriteStream denied filepath (files st) in
        let '(fs, evs, res) := downloadFile denied r url filepath (files st) in
        match r, first_error (pending st) e with
        | Throws message, uncaught =>
            ({| files := fs;
                downloadCount := downloadCount st;
                skippedCount := skippedCount st;
                requests := S (requests st);
                isShuttingDown := isShuttingDown st;
                pending := uncaught |},
             [LogError (error_line url message)], None)
        | _, Some uncaught =>
            (after_download fs1 0 st, [], Some (Crashed uncaught))
        | _, None =>
            match SIGINT (requests st), res with
            | DuringRequest written, _ =>
                let '(st', evs', h) :=
                  on_SIGINT
                    (after_download
                       (<[resolve filepath := File (interrupted r written)]>
                          (files st))
                       0 st) in
                (st', Request url :: evs', h)
            | DuringWait, Settles Fulfilled =>
                let '(st', evs', h) := on_SIGINT (after_download fs 1 st) in
                (st', evs ++ Sleep 700 :: evs', h)
            | _, Settles Fulfilled =>
                (after_download fs 1 st, evs ++ [Sleep 700], None)
            | _, Settles (Rejected message) =>
                (after_download fs 0 st,
                 evs ++ [LogError (error_line url message)], None)
            | _, Stalls => (after_download fs 0 st, evs, Some Stalled)
            | _, Uncaught message =>
                (after_download fs 0 st, evs, Some (Crashed message))
            end
        end
  end.

(** [for (let i = ...; i < urls.length; i++)], from index [i] on. *)
Fixpoint for_urls (id : jsstring) (i : nat) (urls : list jsstring) (st : state)
  : state * list event * option ending :=
  match urls with
  | [] => (st, [], None)
  | url :: urls' =>
      match attachment id i url st with
      | (st1, evs1, Some e) => (st1, evs1, Some e)
      | (st1, evs1, None) =>
          let '(st2, evs2, e) := for_urls id (S i) urls' st1 in
          (st2, evs1 ++ evs2, e)
      end
  end.

(** One record that passed the shutdown check. *)
Definition for_message (m : message) (st : state)
  : state * list event * option ending :=
  if no_attachments m then (st, [], None)
  else for_urls (ID m) 0 (urls_of (default [] (Attachments m))) st.

(** The inner loop for a record whose identifier has no text: the
    template literal throws in the [try], after [new URL(url)]. *)
Definition for_unnamed (a : jsstring) : list event :=
  List.map
    (fun url =>
       LogError
         (error_line url
            (match URL_pathname url with
             | None => str "Invalid URL"
             | Some _ => not_primitive
             end)))
    (urls_of a).

Definition for_element (e : element) (st : state)
  : state * list event * option ending :=
  match e with
  | Plain m => for_message m st
  | Unnamed a => (st, for_unnamed a, None)
  end.

(** The line of the shutdown check and the last line of a whole run,
    each after a line feed. *)
Definition stopped_line (st : state) : jsstring :=
  10 :: str "Stopped. Downloaded " ++ dec (downloadCount st)
    ++ str " files, skipped " ++ dec (skippedCount st)
    ++ str " existing files.".

Definition complete_line (st : state) : jsstring :=
  10 :: str "Download complete! Total files downloaded: "
    ++ dec (downloadCount st) ++ str ", skipped: " ++ dec (skippedCount st).

(** [for (const message of data)]; the ending at the shutdown check is
    its [return]. *)
Fixpoint for_messages (data : list element) (st : state)
  : state * list event * option ending :=
  match data with
  | [] => (st, [], None)
  | e :: data' =>
      if isShuttingDown st then
        (st, [Log (stopped_line st)], Some (finish st Fulfilled))
      else
        match for_element e st with
        | (st1, evs1, Some h) => (st1, evs1, Some h)
        | (st1, evs1, None) =>
            let '(st2, evs2, h) := for_messages data' st1 in
            (st2, evs1 ++ evs2, h)
        end
  end.

Definition initial (fs : filesystem) : state :=
  {| files := fs; downloadCount := 0; skippedCount := 0; requests := 0;
     isShuttingDown := false; pending := None |}.

(** The body of [downloadAllAttachments] after the export is loaded:
    the loop over the elements [data], at the end of which the guard
    throws [fault], if there is one. *)
Definition run_elements (data : list element) (fault : option jsstring)
  (fs : filesystem) : filesystem * list event * ending :=
  match createDirIfNotExists denied downloadDir fs with
  | (fs', Some message) => (fs', [], Settled (Rejected message))
  | (fs', None) =>
      let '(st, evs, h) := for_messages data (initial fs') in
      match h, fault with
      | Some e, _ => (files st, evs, e)
      | None, Some message => (files st, evs, finish st (Rejected message))
      | None, None =>
          (files st, evs ++ [Log (complete_line st)], finish st Fulfilled)
      end
  end.

(** The same for an export of records. *)
Definition run (data : list message) (fs : filesystem)
  : filesystem * list event * ending :=
  run_elements (List.map Plain data) None fs.

Definition not_found : jsstring :=
  str "Input file not found: " ++ messagesPath
    ++ str ". Please place your messages.json file in the data directory.".

(** [downloadAllAttachments()] *)
Definition downloadAllAttachments (fs : filesystem)
  : filesystem * list event * ending :=
  match createDirIfNotExists denied dataDir fs with
  | (fs1, Some message) => (fs1, [], Settled (Rejected message))
  | (fs1, None) =>
      if negb (existsSync messagesPath fs1) then
        (fs1, [], Settled (Rejected not_found))
      else
        match readFile messagesPath fs1 with
        | Throw message => (fs1, [], Settled (Rejected message))
        | Return data =>
            let '(es, fault) := elements_of Number_toString data in
            run_elements es fault fs1
        end
  end.

(** [p.catch(console.error)]: the error of a rejection is printed and
    the promise that results is fulfilled. *)
Definition catch_console_error (p : list event * ending)
  : list event * ending :=
  match p with
  | (evs, Settled (Rejected message)) =>
      (evs ++ [LogErrorObject message], Settled Fulfilled)
  | (evs, Doomed (Rejected message) e) =>
      (evs ++ [LogErrorObject message], Doomed Fulfilled e)
  | _ => p
  end.

(** The status the process exits with: the argument of [process.exit];
    1 after an uncaught error or a rejection left unhandled; 0 when the
    event loop is empty. *)
Definition exit_status (e : ending) : nat :=
  match e with
  | Settled Fulfilled => 0
  | Settled (Rejected _) => 1
  | Doomed _ _ => 1
  | Exited status => status
  | Crashed _ => 1
  | Stalled => 0
  end.

(** The last line of the script: the whole program, as the files left,
    the events and the exit status. *)
Definition main (fs : filesystem) : filesystem * list event * nat :=
  let '(fs', evs, e) := downloadAllAttachments fs in
  let '(evs', e') := catch_console_error (evs, e) in
  (fs',
   match e' with
   | Crashed message | Doomed _ message => evs' ++ [Fatal message]
   | _ => evs'
   end,
   exit_status e').

End Run.

(** A line that reports a skipped attachment. *)
Definition is_skip (e : event) : Prop :=
  exists filepath, e = Log (str "Skipped existing image: " ++ filepath).

(** Console lines that report an error. *)
Definition is_error (e : event) : bool :=
  match e with LogError _ => true | _ => false end.

Definition errors (evs : list event) : nat := length (List.filter is_error evs).

Definition is_request (e : event) : bool :=
  match e with Request _ => true | _ => false end.


End Runner.
Import Runner.

(** ** The specification, in its own words *)

Module Spec.

(** What separates the URLs of an attachments field: whitespace or a
    comma. *)
Definition is_separator (c : N) : bool := is_space c || (c =? COMMA).

(** The pieces of a field between separators, empty ones included. *)
Fixpoint fields (s : jsstring) : list jsstring :=
  match s with
  | [] => [[]]
  | c :: s' =>
      if is_separator c then [] :: fields s'
      else match fields s' with
           | t :: ts => (c :: t) :: ts
           | [] => [[c]]
           end
  end.

(** The URL tokens of a field: its non-empty pieces, in order. *)
Definition tokens (s : jsstring) : list jsstring :=
  List.filter (fun t => negb (is_nil t)) (fields s).


End Spec.

(** ** Export files *)

Module Doc.

(** Code units a string literal holds as they are. *)
Definition plain (c : N) : bool :=
  (32 <=? c) && negb (c =? DQUOTE) && negb (c =? BACKSLASH).

(** What may follow a value in an object or an array. *)
Definition delimited (rest : jsstring) : Prop :=
  match rest with
  | [] => True
  | c :: _ => is_json_ws c || (c =? COMMA) || (c =? RBRACE) || (c =? RBRACKET) = true
  end.

(** How the value of a member is written: a string literal; a run of
    digits without quotes; or any other text, given with the value it
    stands for. *)
Inductive written : Type :=
| Quoted (s : jsstring)
| Bare (digits : jsstring)
| Other (text : jsstring) (v : value).

(** A member with the whitespace around its parts:
    [before "key" colon : gap value after]. *)
Record member : Type := {
  before : jsstring;
  key : jsstring;
  colon : jsstring;
  gap : jsstring;
  val : written;
  after : jsstring
}.

(** A record: [{ members }] with whitespace around it; [inner] is what
    the braces hold when there is no member. *)
Record entry : Type := {
  lead : jsstring;
  members : list member;
  inner : jsstring;
  trail : jsstring
}.

(** An export: an array of records. *)
Record document : Type := {
  head : jsstring;
  entries : list entry;
  blank : jsstring;
  tail : jsstring
}.

Definition render_written (w : written) : jsstring :=
  match w with
  | Quoted s => DQUOTE :: s ++ [DQUOTE]
  | Bare digits => digits
  | Other text _ => text
  end.

Definition render_member (m : member) : jsstring :=
  before m ++ DQUOTE :: key m ++ DQUOTE :: colon m ++ COLON :: gap m
    ++ render_written (val m) ++ after m.

Fixpoint render_members (ms : list member) : jsstring :=
  match ms with
  | [] => []
  | [m] => render_member m
  | m :: ms' => render_member m ++ COMMA :: render_members ms'
  end.

Definition render_entry (e : entry) : jsstring :=
  lead e ++ LBRACE
    :: match members e with
       | [] => inner e
       | ms => render_members ms
       end
    ++ RBRACE :: trail e.

Fixpoint render_entries (es : list entry) : jsstring :=
  match es with
  | [] => []
  | [e] => render_entry e
  | e :: es' => render_entry e ++ COMMA :: render_entries es'
  end.

Definition render (d : document) : jsstring :=
  head d ++ LBRACKET
    :: match entries d with
       | [] => blank d
       | es => render_entries es
       end
    ++ RBRACKET :: tail d.

(** The value a member stands for once identifiers are strings. *)
Definition value_of (w : written) : value :=
  match w with
  | Quoted s => JStr s
  | Bare digits => JStr digits
  | Other _ v => v
  end.

Definition object_of (e : entry) : value :=
  JObj (List.map (fun m => (key m, value_of (val m))) (members e)).

Definition array_of (d : document) : value :=
  JArr (List.map object_of (entries d)).

Definition all_ws (g : jsstring) : Prop := Forall (fun c => is_json_ws c = true) g.

(** A text that parses to [v] whatever delimiter follows it, and holds
    no quote. *)
Definition stands_for (text : jsstring) (v : value) : Prop :=
  Forall (fun c => c <> DQUOTE) text
  /\ forall fuel rest,
       (length text < fuel)%nat -> delimited rest ->
       parse_value fuel (text ++ rest) = Some (v, rest).

(** Members the model covers. A bare run of digits is the value of a key
    ["ID"] whose colon follows the key at once; whitespace of any kind
    may stand between that colon and the digits. Another text than a
    string literal is not the value of a key ["ID"]. *)
Definition wf_member (m : member) : Prop :=
  all_ws (before m) /\ Forall (fun c => plain c = true) (key m)
  /\ all_ws (colon m) /\ all_ws (after m)
  /\ match val m with
     | Quoted s => all_ws (gap m) /\ Forall (fun c => plain c = true) s
     | Bare digits =>
         key m = str "ID" /\ colon m = []
         /\ Forall (fun c => is_space c = true) (gap m)
         /\ digits <> [] /\ Forall (fun c => is_digit c = true) digits
     | Other text v =>
         all_ws (gap m) /\ key m <> str "ID" /\ stands_for text v
     end.

Definition wf_entry (e : entry) : Prop :=
  all_ws (lead e) /\ all_ws (inner e) /\ all_ws (trail e)
  /\ Forall wf_member (members e).

Definition wf (d : document) : Prop :=
  all_ws (head d) /\ all_ws (blank d) /\ all_ws (tail d)
  /\ Forall wf_entry (entries d).

(** The same member with its bare digits in quotes, after whitespace
    [g]. *)
Definition quote_member (g : option jsstring) (m : member) : member :=
  match val m with
  | Bare digits =>
      {| before := before m; key := key m; colon := colon m;
         gap := default (gap m) g; val := Quoted digits; after := after m |}
  | _ => m
  end.

Definition quote_entry (g : option jsstring) (e : entry) : entry :=
  {| lead := lead e; members := List.map (quote_member g) (members e);
     inner := inner e; trail := trail e |}.

(** The export with every bare identifier written as a string literal:
    after the whitespace it had ([g = None]), or after [g]. *)
Definition quote (g : option jsstring) (d : document) : document :=
  {| head := head d; entries := List.map (quote_entry g) (entries d);
     blank := blank d; tail := tail d |}.

(** The whitespace between a colon and bare digits is whitespace of
    JSON. *)
Definition json_gaps (d : document) : Prop :=
  Forall (fun e =>
    Forall (fun m => match val m with
                     | Bare _ => all_ws (gap m)
                     | _ => True
                     end) (members e)) (entries d).

(** No member has bare digits. *)
Definition no_bare (d : document) : Prop :=
  Forall (fun e =>
    Forall (fun m => match val m with Bare _ => False | _ => True end)
      (members e)) (entries d).

(** No match of the pattern of [readFile] starts inside [t] when [rest]
    follows it. *)
Fixpoint inert (t rest : jsstring) : Prop :=
  match t with
  | [] => True
  | c :: t' => match_ID (c :: t' ++ rest) = None /\ inert t' rest
  end.

End Doc.

(** ** A small platform to run the model on *)

Module Sample.

Definition is_alpha (c : N) : bool :=
  ((97 <=? c) && (c <=? 122)) || ((65 <=? c) && (c <=? 90)).

Definition ends_authority (c : N) : bool :=
  (c =? SLASH) || (c =? 63) || (c =? 35).

Definition ends_path (c : N) : bool := (c =? 63) || (c =? 35).

(** The path of a URL of the form [scheme://authority/path?query#fragment]
    with a non-empty alphabetic scheme and a non-empty authority, as the
    URL parser gives it when the path needs no normalisation or
    escaping; every other text is refused. *)
Definition URL_pathname (url : jsstring) : option jsstring :=
  match take_while is_alpha url with
  | [] => None
  | _ :: _ =>
      match strip_prefix (str "://") (drop_while is_alpha url) with
      | None => None
      | Some r =>
          match take_while (fun c => negb (ends_authority c)) r with
          | [] => None
          | _ :: _ =>
              match take_while (fun c => negb (ends_path c))
                      (drop_while (fun c => negb (ends_authority c)) r) with
              | [] => Some [SLASH]
              | p => Some p
              end
          end
      end
  end.

(** Networks: every request is answered [200] with a one-byte body;
    every request is answered [404]; every request emits [error]; every
    response is cut short after one byte. *)
Definition always_ok (n : nat) (url : jsstring) : reply := Response 200 [120].
Definition always_404 (n : nat) (url : jsstring) : reply := Response 404 [].
Definition always_reset (n : nat) (url : jsstring) : reply :=
  NetworkError (str "ECONNRESET").
Definition always_truncated (n : nat) (url : jsstring) : reply :=
  Truncated [120].

(** [https.get] refuses the protocol of a URL that does not open with
    [https:], and answers the others [200]. *)
Definition not_supported : jsstring :=
  str "Protocol " ++ DQUOTE :: str "http:" ++ DQUOTE
    :: str " not supported. Expected " ++ DQUOTE :: str "https:" ++ [DQUOTE].

Definition https_only (n : nat) (url : jsstring) : reply :=
  match strip_prefix (str "https:") url with
  | Some _ => Response 200 [120]
  | None => Throws not_supported
  end.

(** Operators: one who sends no signal, and one who sends [SIGINT]
    during the first request. *)
Definition quiet (n : nat) : signal := Quiet.
Definition interrupts_first (n : nat) : signal :=
  match n with
  | O => DuringRequest 0
  | S _ => Quiet
  end.

(** An operating system that refuses nothing. *)
Definition nothing_denied (k : jsstring) : bool := false.

(** [Number.prototype.toString] for the doubles that are integers below
    [10^21], which are written in full; the samples hold no other
    number. *)
Definition Number_toString (x : spec_float) : jsstring :=
  let digits (n : N) := str (NilZero.string_of_uint (N.to_uint n)) in
  match x with
  | S754_finite s m e =>
      let sign := if s then str "-" else [] in
      match e with
      | Zneg p =>
          if (N.pos m mod 2 ^ N.pos p =? 0)
          then sign ++ digits (N.pos m / 2 ^ N.pos p)
          else str "NaN"
      | _ => sign ++ digits (N.pos m * 2 ^ Z.to_N e)
      end
  | S754_zero _ => str "0"
  | _ => str "NaN"
  end.

(** The export of the documented example, with a numeric identifier. *)
Definition example_export : jsstring :=
  str "[{" ++ DQUOTE :: str "ID" ++ DQUOTE :: str ": 100000000000000001, "
    ++ DQUOTE :: str "Attachments" ++ DQUOTE :: str ": " ++ DQUOTE
    :: str "http://x/a.jpg http://x/b.png" ++ DQUOTE :: str "}]".

(** A working directory that holds the export and nothing else. *)
Definition with_export (text : jsstring) : filesystem :=
  {[ str "data" := Directory; resolve messagesPath := File text ]}.

(** The text of a record with a string identifier and a string of
    attachments, and the text of an export with the records [rs]. *)
Definition record_text (id attachments : jsstring) : jsstring :=
  str "{" ++ DQUOTE :: str "ID" ++ DQUOTE :: str ": " ++ DQUOTE :: id
    ++ DQUOTE :: str ", " ++ DQUOTE :: str "Attachments" ++ DQUOTE :: str ": "
    ++ DQUOTE :: attachments ++ DQUOTE :: str "}".

Fixpoint records_text (rs : list jsstring) : jsstring :=
  match rs with
  | [] => []
  | [r] => r
  | r :: rs' => r ++ COMMA :: records_text rs'
  end.

Definition export_text (rs : list jsstring) : jsstring :=
  str "[" ++ records_text rs ++ str "]".

(** Two records with one attachment each. *)
Definition two_records : jsstring :=
  export_text [ record_text (str "1") (str "https://x/a.jpg");
                record_text (str "2") (str "https://x/b.png") ].

(** The same with a slash in the first identifier. *)
Definition slash_records : jsstring :=
  export_text [ record_text (str "a/b") (str "https://x/a.jpg");
                record_text (str "2") (str "https://x/b.png") ].

(** One record whose identifier holds a slash and whose attachment has
    a URL that [https.get] refuses. *)
Definition slash_http_record : jsstring :=
  export_text [ record_text (str "a/b") (str "http://x/a.jpg") ].

(** The same export as a document. *)
Definition example_document : Doc.document :=
  {| Doc.head := []; Doc.blank := []; Doc.tail := [];
     Doc.entries :=
       [ {| Doc.lead := []; Doc.inner := []; Doc.trail := [];
            Doc.members :=
              [ {| Doc.before := []; Doc.key := str "ID";
                   Doc.colon := []; Doc.gap := [SPACE];
                   Doc.val := Doc.Bare (str "100000000000000001");
                   Doc.after := [] |};
                {| Doc.before := [SPACE]; Doc.key := str "Attachments";
                   Doc.colon := []; Doc.gap := [SPACE];
                   Doc.val :=
                     Doc.Quoted (str "http://x/a.jpg http://x/b.png");
                   Doc.after := [] |} ] |} ] |}.

(** The double that the literal [12] denotes. *)
Definition twelve : value := JNum (S754_finite false 6755399441055744 (-49)).

(** A pretty-printed export with a member that is not a string. *)
Definition indented_document : Doc.document :=
  {| Doc.head := []; Doc.blank := []; Doc.tail := [10];
     Doc.entries :=
       [ {| Doc.lead := [10; SPACE]; Doc.inner := []; Doc.trail := [10];
            Doc.members :=
              [ {| Doc.before := [10; SPACE; SPACE]; Doc.key := str "ID";
                   Doc.colon := []; Doc.gap := [9; 11];
                   Doc.val := Doc.Bare (str "007"); Doc.after := [] |};
                {| Doc.before := [10; SPACE; SPACE]; Doc.key := str "AuthorID";
                   Doc.colon := []; Doc.gap := [SPACE];
                   Doc.val := Doc.Other (str "12") twelve;
                   Doc.after := [] |};
                {| Doc.before := [10; SPACE; SPACE]; Doc.key := str "Pinned";
                   Doc.colon := [SPACE]; Doc.gap := [SPACE];
                   Doc.val := Doc.Other (str "false") (JBool false);
                   Doc.after := [10; SPACE] |} ] |} ] |}.

(** An export whose key ["ID"] is followed by a space before the colon:
    with a bare 18-digit identifier, and with the same digits quoted. *)
Definition spaced_colon (id : jsstring) : jsstring :=
  str "[{" ++ DQUOTE :: str "ID" ++ DQUOTE :: str " : " ++ id ++ str "}]".

Definition spaced_bare : jsstring := spaced_colon (str "100000000000000001").

Definition spaced_quoted : jsstring :=
  spaced_colon (DQUOTE :: str "100000000000000001" ++ [DQUOTE]).

End Sample.

(** ** What a trace shows *)

Module Trace.

(** The URLs of the requests of a trace, in the order they were sent. *)
Definition requested (evs : list event) : list jsstring :=
  omap (fun e => match e with Request url => Some url | _ => None end) evs.

(** The delays of the timers a trace awaits, added up, in
    milliseconds. *)
Definition waited (evs : list event) : nat :=
  list_sum
    (List.map (fun e => match e with Sleep ms => ms | _ => 0%nat end) evs).

(** Lines of [console.log] that open with a given text. *)
Definition opens_with (p : jsstring) (e : event) : bool :=
  match e with
  | Log line => bool_decide (is_Some (strip_prefix p line))
  | _ => false
  end.

Definition downloaded_lines (evs : list event) : nat :=
  length (List.filter (opens_with (str "Downloaded: ")) evs).

Definition skipped_lines (evs : list event) : nat :=
  length (List.filter (opens_with (str "Skipped existing image: ")) evs).

(** The last lines of whole runs and the lines of the shutdown check. *)
Definition summary_lines (evs : list event) : nat :=
  length (List.filter (opens_with (10 :: str "Download complete!")) evs).

Definition stopped_lines (evs : list event) : nat :=
  length (List.filter (opens_with (10 :: str "Stopped.")) evs).

(** An attachment task: the identifier of its record, its position in
    the record (from 0) and its URL. *)
Definition task : Type := jsstring * nat * jsstring.

Definition task_url (t : task) : jsstring := snd t.

(** The tasks of the URLs [urls] of record [id], which sit at positions
    [i], [i + 1], ... of the record. *)
Fixpoint tasks_from (id : jsstring) (i : nat) (urls : list jsstring)
  : list task :=
  match urls with
  | [] => []
  | url :: urls' => (id, i, url) :: tasks_from id (S i) urls'
  end.

(** The tasks of the elements of an export, in the order of the loop;
    an element without an identifier has none, as no file name is made
    for it. *)
Definition tasks_of_element (e : element) : list task :=
  match e with
  | Plain m => tasks_from (ID m) 0 (tasks_of m)
  | Unnamed _ => []
  end.

Definition tasks (data : list element) : list task :=
  concat (List.map tasks_of_element data).

End Trace.

(** ** Names of files *)

Module Place.

(** A name that [path.join] appends to a directory as it is: a single
    component other than [.] and [..]. *)
Definition plain_name (name : jsstring) : Prop :=
  Forall (fun c => c <> SLASH) name
  /\ name <> [] /\ name <> [DOT] /\ name <> DOTDOT.

(** What a stretch of the loop with the tasks [ts] may do to the file
    system: it keeps what is there, and what is new is a regular file
    at the destination of one of the tasks. *)
Definition changes_only (URL_pathname : jsstring -> option jsstring)
  (ts : list Trace.task) (fs fs' : filesystem) : Prop :=
  kept fs fs'
  /\ forall (k : jsstring) (n : node),
       fs' !! k = Some n -> fs !! k = None ->
       exists id i url filepath body,
         In (id, i, url) ts
         /\ destination URL_pathname id i url = Some filepath
         /\ k = resolve filepath /\ n = File body.

End Place.

(** * Properties *)

Lemma triple_eta {A B C : Type} (x : A * B * C) :
  x = (fst (fst x), snd (fst x), snd x).
Proof. by destruct x as [[a b] c]. Qed.

(** ** The file system *)

Lemma existsSync_false (p : jsstring) (fs : filesystem) :
  existsSync p fs = false -> fs !! resolve p = None.
Proof.
  unfold existsSync. intros E. apply orb_false_iff in E as [_ E].
  apply bool_decide_eq_false in E.
  destruct (fs !! resolve p) eqn:L; [| done]. exfalso. apply E. eauto.
Qed.

Lemma existsSync_lookup (p : jsstring) (fs : filesystem) (n : node) :
  fs !! resolve p = Some n -> existsSync p fs = true.
Proof.
  unfold existsSync. intros E. apply orb_true_iff. right.
  apply bool_decide_eq_true. eauto.
Qed.

Lemma kept_refl (fs : filesystem) : kept fs fs.
Proof. by intros k n. Qed.

Lemma kept_trans (fs1 fs2 fs3 : filesystem) :
  kept fs1 fs2 -> kept fs2 fs3 -> kept fs1 fs3.
Proof. intros H1 H2 k n Hk. auto. Qed.

Lemma kept_insert (fs : filesystem) (k : jsstring) (v : node) :
  fs !! k = None -> kept fs (<[k := v]> fs).
Proof.
  intros Hk j n Hj. rewrite lookup_insert_ne; [done |]. congruence.
Qed.

Lemma existsSync_kept (p : jsstring) (fs fs' : filesystem) :
  kept fs fs' -> existsSync p fs = true -> existsSync p fs' = true.
Proof.
  unfold existsSync. intros K E. apply orb_true_iff in E as [E | E];
    apply orb_true_iff; [by left | right].
  apply bool_decide_eq_true in E as [n E]. apply bool_decide_eq_true.
  exists n. by apply K.
Qed.

Lemma is_directory_kept (k : jsstring) (fs fs' : filesystem) :
  kept fs fs' -> is_directory fs k = true -> is_directory fs' k = true.
Proof.
  unfold is_directory. intros K E. apply orb_true_iff in E as [E | E];
    apply orb_true_iff; [by left | right].
  destruct (fs !! k) as [[d |] |] eqn:L; try discriminate E.
  by rewrite (K _ _ L).
Qed.

Lemma existsSync_insert (p k : jsstring) (v : node) (fs : filesystem) :
  existsSync p fs = true -> existsSync p (<[k := v]> fs) = true.
Proof.
  unfold existsSync. intros E. apply orb_true_iff in E as [E | E];
    apply orb_true_iff; [by left | right].
  apply bool_decide_eq_true in E. apply bool_decide_eq_true.
  apply lookup_insert_is_Some. destruct (decide (k = resolve p)); auto.
Qed.

Lemma existsSync_insert_same (p : jsstring) (v : node) (fs : filesystem) :
  existsSync p (<[resolve p := v]> fs) = true.
Proof. apply (existsSync_lookup _ _ v). by rewrite lookup_insert_eq. Qed.

Lemma is_directory_exists (p : jsstring) (fs : filesystem) :
  is_directory fs (resolve p) = true -> existsSync p fs = true.
Proof.
  unfold is_directory, existsSync. intros E.
  apply orb_true_iff in E as [E | E]; apply orb_true_iff; [by left | right].
  apply bool_decide_eq_true. destruct (fs !! resolve p); [eauto | done].
Qed.

Section DirFacts.

Variable denied : jsstring -> bool.

Local Abbreviation mkdirs := (Fetch.mkdirs denied).
Local Abbreviation createDirIfNotExists := (Fetch.createDirIfNotExists denied).

(** [mkdirSync] removes and replaces nothing. *)
Lemma mkdirs_kept ps : forall fs : filesystem, kept fs (fst (mkdirs ps fs)).
Proof.
  induction ps as [| p ps IH]; cbn [Fetch.mkdirs]; intros fs; [apply kept_refl |].
  destruct (is_directory fs p); [apply IH |].
  destruct (fs !! p) eqn:L; [apply kept_refl |].
  destruct (denied p); [apply kept_refl |].
  eapply kept_trans; [by apply kept_insert | apply IH].
Qed.

(** What it makes is a directory on the way that was not there. *)
Lemma mkdirs_new ps : forall (fs : filesystem) (k : jsstring) (n : node),
  fst (mkdirs ps fs) !! k = Some n ->
  fs !! k = Some n \/ (fs !! k = None /\ n = Directory /\ In k ps).
Proof.
  induction ps as [| p ps IH]; cbn [Fetch.mkdirs]; intros fs k n; [by left |].
  destruct (is_directory fs p).
  { intros H. destruct (IH _ _ _ H) as [? | (? & ? & ?)]; [by left |].
    right. repeat split; auto. by right. }
  destruct (fs !! p) eqn:L; [by left |].
  destruct (denied p); [by left |].
  intros H. destruct (IH _ _ _ H) as [H' | (H1 & H2 & H3)].
  - destruct (decide (p = k)) as [<- | Hne].
    + rewrite lookup_insert_eq in H'. injection H' as <-.
      right. repeat split; auto. by left.
    + rewrite lookup_insert_ne in H' by done. by left.
  - destruct (decide (p = k)) as [<- | Hne].
    + by rewrite lookup_insert_eq in H1.
    + rewrite lookup_insert_ne in H1 by done.
      right. repeat split; auto. by right.
Qed.

(** When it returns, every path on the way names a directory. *)
Lemma mkdirs_done ps : forall fs fs' : filesystem,
  mkdirs ps fs = (fs', None) ->
  Forall (fun p => is_directory fs' p = true) ps.
Proof.
  induction ps as [| p ps IH]; cbn [Fetch.mkdirs]; intros fs fs'; [constructor |].
  destruct (is_directory fs p) eqn:D.
  { intros H. constructor; [| by eapply IH].
    eapply is_directory_kept; [| exact D].
    pose proof (mkdirs_kept ps fs) as K. by rewrite H in K. }
  destruct (fs !! p) eqn:L; [discriminate |].
  destruct (denied p); [discriminate |].
  intros H. constructor; [| by eapply IH].
  pose proof (mkdirs_kept ps (<[p := Directory]> fs)) as K. rewrite H in K.
  cbn [fst] in K. unfold is_directory. rewrite (K p Directory) by (by rewrite lookup_insert_eq).
  apply orb_true_r.
Qed.

Lemma createDir_kept (dir : jsstring) (fs : filesystem) :
  kept fs (fst (createDirIfNotExists dir fs)).
Proof.
  unfold Fetch.createDirIfNotExists.
  destruct (negb (existsSync dir fs)); [apply mkdirs_kept | apply kept_refl].
Qed.

Lemma createDir_existing (dir : jsstring) (fs : filesystem) :
  existsSync dir fs = true -> createDirIfNotExists dir fs = (fs, None).
Proof. unfold Fetch.createDirIfNotExists. by intros ->. Qed.

Lemma createDir_done (dir : jsstring) (fs fs' : filesystem) :
  createDirIfNotExists dir fs = (fs', None) -> existsSync dir fs' = true.
Proof.
  unfold Fetch.createDirIfNotExists.
  destruct (existsSync dir fs) eqn:E; cbn [negb]; [by intros [= <-] |].
  intros H. apply mkdirs_done in H. apply Forall_app in H as [_ H].
  apply is_directory_exists. by inversion H.
Qed.

Lemma createDir_new (dir : jsstring) (fs : filesystem) (k : jsstring) (n : node) :
  fst (createDirIfNotExists dir fs) !! k = Some n ->
  fs !! k = Some n
  \/ (fs !! k = None /\ n = Directory
      /\ In k (ancestors (resolve dir) ++ [resolve dir])).
Proof.
  unfold Fetch.createDirIfNotExists.
  destruct (negb (existsSync dir fs)); [apply mkdirs_new | by left].
Qed.


End DirFacts.


(** ** The fetcher *)

Section FetchFacts.

Variable denied : jsstring -> bool.
Variables (url filepath : jsstring) (fs : filesystem).

Local Abbreviation downloadFile := (Fetch.downloadFile denied).
Local Abbreviation createWriteStream := (Fetch.createWriteStream denied).

(** The write stream cannot open the file: the error is uncaught and
    nothing is sent, unless [https.get] throws first. *)
Lemma downloadFile_unopened r e :
  open_error denied fs (resolve filepath) = Some e ->
  downloadFile r url filepath fs
  = (fs, [],
     match r with
     | Throws message => Settles (Rejected message)
     | _ => Uncaught e
     end).
Proof.
  unfold Fetch.downloadFile, Fetch.createWriteStream. intros ->.
  by destruct r.
Qed.

Hypothesis opens : open_error denied fs (resolve filepath) = None.

Lemma createWriteStream_opens :
  createWriteStream filepath fs = (<[resolve filepath := File []]> fs, None).
Proof. unfold Fetch.createWriteStream. by rewrite opens. Qed.

(** A transport fault unlinks the destination before the rejection. *)
Lemma downloadFile_network_error message :
  downloadFile (NetworkError message) url filepath fs
  = (delete (resolve filepath) fs, [Request url], Settles (Rejected message)).
Proof.
  unfold Fetch.downloadFile. rewrite createWriteStream_opens.
  by rewrite delete_insert_eq.
Qed.

Lemma downloadFile_network_error_no_file message :
  standing (resolve filepath) = false ->
  existsSync filepath
    (fst (fst (downloadFile (NetworkError message) url filepath fs)))
  = false.
Proof.
  intros Hs. rewrite downloadFile_network_error. cbn [fst].
  unfold existsSync. rewrite Hs, lookup_delete_eq.
  apply bool_decide_eq_false. by intros [? ?].
Qed.

(** A response with another status than 200 rejects and leaves the file
    the write stream created. *)
Lemma downloadFile_bad_status statusCode body :
  statusCode <> 200%nat ->
  downloadFile (Response statusCode body) url filepath fs
  = (<[resolve filepath := File []]> fs, [Request url],
     Settles (Rejected (bad_status statusCode))).
Proof.
  intros Hne. unfold Fetch.downloadFile. rewrite createWriteStream_opens.
  destruct (Nat.eqb_spec statusCode 200) as [E | _]; [contradiction | done].
Qed.

Lemma downloadFile_ok body :
  downloadFile (Response 200 body) url filepath fs
  = (<[resolve filepath := File body]> fs,
     [Request url; Log (str "Downloaded: " ++ filepath)], Settles Fulfilled).
Proof.
  unfold Fetch.downloadFile. rewrite createWriteStream_opens. simpl.
  by rewrite insert_insert_eq.
Qed.

(** A response that is cut short leaves what was written, and the promise
    never settles. *)
Lemma downloadFile_truncated received :
  downloadFile (Truncated received) url filepath fs
  = (<[resolve filepath := File received]> fs, [Request url], Stalls).
Proof.
  unfold Fetch.downloadFile. rewrite createWriteStream_opens.
  by rewrite insert_insert_eq.
Qed.

(** When [https.get] throws, the file the write stream created stays. *)
Lemma downloadFile_throws message :
  downloadFile (Throws message) url filepath fs
  = (<[resolve filepath := File []]> fs, [], Settles (Rejected message)).
Proof. unfold Fetch.downloadFile. by rewrite createWriteStream_opens. Qed.

End FetchFacts.

Section FetchFrame.

Variable denied : jsstring -> bool.
Variables (r : reply) (url filepath : jsstring) (fs : filesystem).

Local Abbreviation downloadFile := (Fetch.downloadFile denied).
Local Abbreviation createWriteStream := (Fetch.createWriteStream denied).

(** The cases of a call: the stream cannot open the file, or one of the
    five ways the request can go. *)
Lemma downloadFile_cases :
  (exists e, open_error denied fs (resolve filepath) = Some e
     /\ createWriteStream filepath fs = (fs, Some e)
     /\ downloadFile r url filepath fs
        = (fs, [], match r with
                   | Throws message => Settles (Rejected message)
                   | _ => Uncaught e
                   end))
  \/ (open_error denied fs (resolve filepath) = None
      /\ createWriteStream filepath fs
         = (<[resolve filepath := File []]> fs, None)
      /\ ((exists message, r = Throws message
             /\ downloadFile r url filepath fs
                = (<[resolve filepath := File []]> fs, [],
                   Settles (Rejected message)))
          \/ (exists message, r = NetworkError message
                /\ downloadFile r url filepath fs
                   = (delete (resolve filepath) fs, [Request url],
                      Settles (Rejected message)))
          \/ (exists body, r = Response 200 body
                /\ downloadFile r url filepath fs
                   = (<[resolve filepath := File body]> fs,
                      [Request url; Log (str "Downloaded: " ++ filepath)],
                      Settles Fulfilled))
          \/ (exists statusCode body,
                r = Response statusCode body /\ statusCode <> 200%nat
                /\ downloadFile r url filepath fs
                   = (<[resolve filepath := File []]> fs, [Request url],
                      Settles (Rejected (bad_status statusCode))))
          \/ (exists received, r = Truncated received
                /\ downloadFile r url filepath fs
                   = (<[resolve filepath := File received]> fs,
                      [Request url], Stalls)))).
Proof.
  destruct (open_error denied fs (resolve filepath)) as [e |] eqn:E.
  - left. exists e. split; [done |]. split.
    + unfold Fetch.createWriteStream. by rewrite E.
    + by apply downloadFile_unopened.
  - right. split; [done |]. split; [by apply createWriteStream_opens |].
    destruct r as [m | m | code body | received].
    + left. exists m. split; [done |]. by apply downloadFile_throws.
    + right; left. exists m. split; [done |].
      by apply downloadFile_network_error.
    + destruct (Nat.eq_dec code 200%nat) as [-> | Hne].
      * right; right; left. exists body. split; [done |].
        by apply downloadFile_ok.
      * right; right; right; left. exists code, body.
        split; [done |]. split; [done |]. by apply downloadFile_bad_status.
    + right; right; right; right. exists received. split; [done |].
      by apply downloadFile_truncated.
Qed.

(** Whatever the network does, a call that fulfils leaves the file. *)
Lemma downloadFile_fulfilled (fs' : filesystem) (evs : list event) :
  downloadFile r url filepath fs = (fs', evs, Settles Fulfilled) ->
  exists body,
    fs' !! resolve filepath = Some (File body)
    /\ evs = [Request url; Log (str "Downloaded: " ++ filepath)].
Proof.
  destruct downloadFile_cases
    as [(e & _ & _ & ->)
       | (_ & _ & [(m & _ & ->) | [(m & _ & ->) | [(body & _ & ->)
           | [(code & body & _ & _ & ->) | (received & _ & ->)]]]])];
    intros H; try (by destruct r); try discriminate H.
  apply pair_equal_spec in H as [H _]. apply pair_equal_spec in H as [<- <-].
  exists body. by rewrite lookup_insert_eq.
Qed.

Lemma downloadFile_frame
  (fs' : filesystem) (evs : list event) (s : result) (k : jsstring) :
  downloadFile r url filepath fs = (fs', evs, s) ->
  k <> resolve filepath -> fs' !! k = fs !! k.
Proof.
  intros H Hk. assert (Hk' : resolve filepath <> k) by congruence.
  destruct downloadFile_cases
    as [(e & _ & _ & E)
       | (_ & _ & [(m & _ & E) | [(m & _ & E) | [(body & _ & E)
           | [(code & body & _ & _ & E) | (received & _ & E)]]]])];
    rewrite E in H; apply pair_equal_spec in H as [H _];
    apply pair_equal_spec in H as [<- _];
    repeat first [ rewrite lookup_insert_ne by exact Hk'
                 | rewrite lookup_delete_ne by exact Hk' ];
    reflexivity.
Qed.

(** What a call leaves at a destination that named nothing: nothing, or
    a regular file. *)
Lemma downloadFile_new
  (fs' : filesystem) (evs : list event) (s : result) (n : node) :
  downloadFile r url filepath fs = (fs', evs, s) ->
  fs !! resolve filepath = None ->
  fs' !! resolve filepath = Some n -> exists body, n = File body.
Proof.
  intros H Hnone.
  destruct downloadFile_cases
    as [(e & _ & _ & E)
       | (_ & _ & [(m & _ & E) | [(m & _ & E) | [(body & _ & E)
           | [(code & body & _ & _ & E) | (received & _ & E)]]]])];
    rewrite E in H; apply pair_equal_spec in H as [H _];
    apply pair_equal_spec in H as [<- _];
    rewrite ?lookup_insert_eq, ?lookup_delete_eq; intros H;
    first [ congruence | apply (inj Some) in H; subst n; eauto ].
Qed.

Lemma downloadFile_kept
  (fs' : filesystem) (evs : list event) (s : result) :
  downloadFile r url filepath fs = (fs', evs, s) ->
  fs !! resolve filepath = None -> kept fs fs'.
Proof.
  intros H Hnone k n Hk.
  rewrite (downloadFile_frame _ _ _ _ H); [done |]. congruence.
Qed.

(** X2 ([downloadFile]): whatever the network does, the call changes no
    entry of the file system other than the one its destination names:
    every other path names what it named before, and exists after the
    call exactly if it existed before. *)
Theorem downloadFile_changes_only_destination
  (fs' : filesystem) (evs : list event) (s : result) :
  downloadFile r url filepath fs = (fs', evs, s) ->
  (forall k : jsstring, k <> resolve filepath -> fs' !! k = fs !! k)
  /\ (forall p : jsstring,
        resolve p <> resolve filepath -> existsSync p fs' = existsSync p fs).
Proof.
  intros H. split.
  - intros k Hk. by apply (downloadFile_frame _ _ _ _ H).
  - intros p Hp. unfold existsSync.
    by rewrite (downloadFile_frame _ _ _ _ H Hp).
Qed.

End FetchFrame.

Lemma downloadFile_changes_only_destination_witness :
  let fs : filesystem :=
    {[ str "downloads" := Directory; str "data" := Directory;
       resolve messagesPath := File (str "[]") ]} in
  exists fs' evs s,
    downloadFile Sample.nothing_denied (NetworkError (str "reset"))
      (str "https://x/a.jpg") (str "downloads/1_1.jpg") fs = (fs', evs, s)
    /\ fs' !! resolve messagesPath = Some (File (str "[]")).
Proof.
  cbv zeta.
  set (r := downloadFile _ _ _ _ _).
  exists (fst (fst r)), (snd (fst r)), (snd r). split; [apply triple_eta |].
  rewrite (proj1 (downloadFile_changes_only_destination Sample.nothing_denied
                    (NetworkError (str "reset")) (str "https://x/a.jpg")
                    (str "downloads/1_1.jpg") _ _ _ _ (triple_eta r))
             (resolve messagesPath)).
  - vm_compute; reflexivity.
  - vm_compute; discriminate.
Defined.

(** C1, at the failing input: the server answers 404 to the request for
    [https://x/a.jpg]; [downloadFile] rejects with the status message and
    the destination [downloads/1_1.jpg], which did not exist before the
    call, exists (empty) after it; in a run the file is left behind in
    the same way, and the next run takes it for a finished download and
    skips the attachment. *)
Theorem downloadFile_404_leaves_partial_file :
  let url := str "https://x/a.jpg" in
  let dest := str "downloads/1_1.jpg" in
  let m := {| ID := str "1"; Attachments := Some url |} in
  let fs0 : filesystem := {[ str "downloads" := Directory ]} in
  existsSync dest fs0 = false
  /\ (exists fs,
        downloadFile Sample.nothing_denied (Response 404 []) url dest fs0
        = (fs, [Request url], Settles (Rejected (str "Failed to download: 404")))
        /\ fs !! resolve dest = Some (File [])
        /\ existsSync dest fs = true)
  /\ (exists fs1 evs1 fs2,
        run Sample.URL_pathname Sample.always_404 Sample.quiet
          Sample.nothing_denied [m] ∅
        = (fs1, evs1, Settled Fulfilled)
        /\ fs1 !! resolve dest = Some (File [])
        /\ run Sample.URL_pathname Sample.always_ok Sample.quiet
             Sample.nothing_denied [m] fs1
           = (fs2,
              [ Log (str "Skipped existing image: downloads/1_1.jpg");
                Log (10 :: str "Download complete! Total files downloaded: 0, skipped: 1") ],
              Settled Fulfilled)).
Proof.
  cbv zeta. split; [vm_compute; reflexivity |]. split.
  - eexists. rewrite downloadFile_bad_status;
      [| vm_compute; reflexivity | discriminate].
    split; [reflexivity |]. split.
    + by rewrite lookup_insert_eq.
    + apply existsSync_insert_same.
  - do 3 eexists. split; [vm_compute; reflexivity |].
    split; vm_compute; reflexivity.
Qed.

(** ** Attachment tasks *)

Section TextFacts.

Variable p : N -> bool.

Lemma drop_while_head s :
  match s with [] => True | c :: _ => p c = false end -> drop_while p s = s.
Proof. destruct s as [| c s]; simpl; [done |]. by intros ->. Qed.

Lemma drop_while_nil_Forall s : drop_while p s = [] -> Forall (fun c => p c = true) s.
Proof.
  induction s as [| c s IH]; simpl; [constructor |].
  destruct (p c) eqn:E; [| discriminate]. intros H. constructor; auto.
Qed.

Lemma drop_while_all s : Forall (fun c => p c = true) s -> drop_while p s = [].
Proof. induction 1 as [| c s E _ IH]; simpl; [done |]. by rewrite E. Qed.

Lemma drop_while_app_all s t :
  Forall (fun c => p c = true) s -> drop_while p (s ++ t) = drop_while p t.
Proof. induction 1 as [| c s E _ IH]; simpl; [done |]. by rewrite E. Qed.

Lemma take_while_app_all s t :
  Forall (fun c => p c = true) s -> take_while p (s ++ t) = s ++ take_while p t.
Proof. induction 1 as [| c s E _ IH]; simpl; [done |]. by rewrite E, IH. Qed.

Lemma take_drop_while s : take_while p s ++ drop_while p s = s.
Proof.
  induction s as [| c s IH]; simpl; [done |].
  destruct (p c); simpl; [by rewrite IH | done].
Qed.

Lemma take_while_Forall s : Forall (fun c => p c = true) (take_while p s).
Proof.
  induction s as [| c s IH]; simpl; [constructor |].
  destruct (p c) eqn:E; constructor; auto.
Qed.

Lemma drop_while_length s : (length (drop_while p s) <= length s)%nat.
Proof.
  induction s as [| c s IH]; simpl; [lia |]. destruct (p c); simpl; lia.
Qed.

End TextFacts.

Lemma trim_without_space t :
  Forall (fun c => is_space c = false) t -> trim t = t.
Proof.
  intros H. unfold trim.
  rewrite (drop_while_head is_space t) by (destruct H; auto).
  rewrite drop_while_head; [apply rev_involutive |].
  apply List.Forall_rev in H. destruct H; auto.
Qed.

Lemma trim_nil_all_space a : trim a = [] -> Forall (fun c => is_space c = true) a.
Proof.
  unfold trim. intros H.
  apply (f_equal (@rev N)) in H. rewrite rev_involutive in H. simpl in H.
  apply drop_while_nil_Forall, List.Forall_rev in H. rewrite rev_involutive in H.
  destruct (drop_while is_space a) as [| c r] eqn:E.
  - by apply drop_while_nil_Forall.
  - assert (Hc : is_space c = true) by (by inversion H).
    clear H. exfalso. revert E Hc. clear.
    induction a as [| x a IH]; simpl; [discriminate |].
    destruct (is_space x) eqn:Ex; [exact IH |].
    intros [= -> _]. congruence.
Qed.

Lemma all_space_trim_nil a : Forall (fun c => is_space c = true) a -> trim a = [].
Proof. intros H. unfold trim. by rewrite (drop_while_all _ _ H). Qed.

(** The pieces [split] returns hold code units of the text other than the
    separator. *)
Lemma split_pieces sep s t :
  In t (split sep s) -> Forall (fun c => In c s /\ c <> sep) t.
Proof.
  revert t. induction s as [| c s IH]; simpl; intros t.
  - intros [<- | []]. constructor.
  - destruct (N.eqb_spec c sep) as [-> | Hne].
    + intros [<- | Hin]; [constructor |].
      eapply List.Forall_impl; [| exact (IH _ Hin)]. simpl. tauto.
    + destruct (split sep s) as [| t0 ts] eqn:E.
      * intros [<- | []]. repeat constructor; auto.
      * intros [<- | Hin].
        -- constructor; [auto |].
           eapply List.Forall_impl; [| apply IH; by left]. simpl. tauto.
        -- eapply List.Forall_impl; [| apply IH; by right]. simpl. tauto.
Qed.

Lemma fields_split a :
  Forall (fun c => Spec.is_separator c = (c =? SPACE)) a ->
  Spec.fields a = split SPACE a.
Proof.
  induction 1 as [| c a E _ IH]; simpl; [done |]. by rewrite E, IH.
Qed.

Lemma fields_all_separators a :
  Forall (fun c => Spec.is_separator c = true) a -> Spec.tokens a = [].
Proof.
  unfold Spec.tokens.
  enough (G : Forall (fun c => Spec.is_separator c = true) a ->
              Forall (fun t => t = []) (Spec.fields a)).
  { intros H. specialize (G H). induction G as [| t ts -> _ IH]; simpl; auto. }
  induction 1 as [| c a E _ IH]; simpl; [by repeat constructor |].
  rewrite E. by constructor.
Qed.

(** The non-blank pieces between spaces are the tokens of the
    specification when a space is the only separator in the field. *)
Lemma urls_of_tokens a :
  (forall c, In c a -> Spec.is_separator c = true -> c = SPACE) ->
  urls_of a = Spec.tokens a.
Proof.
  intros H. unfold urls_of, Spec.tokens.
  rewrite fields_split.
  2:{ apply List.Forall_forall. intros c Hc.
      destruct (N.eqb_spec c SPACE) as [-> | Hne]; [reflexivity |].
      destruct (Spec.is_separator c) eqn:E; [| reflexivity].
      by specialize (H c Hc E). }
  apply List.filter_ext_in. intros t Ht.
  rewrite trim_without_space; [reflexivity |].
  eapply List.Forall_impl; [| exact (split_pieces _ _ _ Ht)].
  simpl. intros c [Hc Hne].
  destruct (is_space c) eqn:E; [| reflexivity].
  exfalso. apply Hne, (H c Hc). unfold Spec.is_separator. by rewrite E.
Qed.

(** The guard and the inner loop together run the tasks of the record. *)
Lemma for_message_tasks URL_pathname https_get SIGINT denied m st :
  for_message URL_pathname https_get SIGINT denied m st
  = for_urls URL_pathname https_get SIGINT denied (ID m) 0 (tasks_of m) st.
Proof. unfold for_message, tasks_of. by destruct (no_attachments m). Qed.

(** C3, amended: a record without an attachments field, or whose field
    holds only whitespace, has no task, and the loop passes it without a
    line, a request or a change of the counters; a record whose field has
    no comma and no whitespace but the space has exactly the non-empty
    whitespace-or-comma-separated tokens of the field as its tasks, in
    the order of the field. *)
Theorem tasks_are_the_space_separated_tokens (m : message) :
  (Attachments m = None -> tasks_of m = []) /\
  (forall a, Attachments m = Some a ->
     Forall (fun c => is_space c = true) a -> tasks_of m = []) /\
  (forall URL_pathname https_get SIGINT denied st,
     tasks_of m = [] ->
     for_message URL_pathname https_get SIGINT denied m st = (st, [], None)) /\
  (forall a, Attachments m = Some a ->
     (forall c, In c a -> Spec.is_separator c = true -> c = SPACE) ->
     tasks_of m = Spec.tokens a
     /\ length (tasks_of m) = length (Spec.tokens a)).
Proof.
  split; [| split; [| split]].
  - unfold tasks_of, no_attachments. by intros ->.
  - unfold tasks_of, no_attachments.
    intros a -> H. rewrite (all_space_trim_nil _ H). simpl.
    by rewrite orb_true_r.
  - intros URL_pathname https_get SIGINT denied st E.
    by rewrite for_message_tasks, E.
  - unfold tasks_of, no_attachments. intros a -> H. simpl.
    enough (G : (if is_nil a || is_nil (trim a) then [] else urls_of a)
                = Spec.tokens a) by (by rewrite G).
    destruct (is_nil a || is_nil (trim a)) eqn:E; [| by apply urls_of_tokens].
    symmetry. apply fields_all_separators.
    apply orb_true_iff in E as [E | E].
    + destruct a; [constructor | discriminate].
    + destruct (trim a) eqn:T; [| discriminate].
      eapply List.Forall_impl; [| exact (trim_nil_all_space _ T)].
      simpl. intros c Hc. unfold Spec.is_separator. by rewrite Hc.
Qed.

(** C3, as stated, fails: two URLs with a tab between them are two
    whitespace-separated tokens and one task. *)
Lemma tab_separated_urls_are_one_task :
  let a := str "http://x/a.jpg" ++ 9 :: str "http://x/b.png" in
  let m := {| ID := str "1"; Attachments := Some a |} in
  Spec.tokens a = [str "http://x/a.jpg"; str "http://x/b.png"]
  /\ tasks_of m = [a]
  /\ length (tasks_of m) <> length (Spec.tokens a).
Proof. cbv zeta. repeat split; vm_compute; [reflexivity .. | discriminate]. Qed.

Lemma tasks_are_the_space_separated_tokens_witness :
  let a := str " http://x/a.jpg  http://x/b.png " in
  tasks_of {| ID := str "1"; Attachments := None |} = []
  /\ tasks_of {| ID := str "1"; Attachments := Some [SPACE; 9; 10] |} = []
  /\ for_message Sample.URL_pathname Sample.always_ok Sample.quiet
       Sample.nothing_denied
       {| ID := str "1"; Attachments := Some [SPACE; 9; 10] |} (initial ∅)
     = (initial ∅, [], None)
  /\ tasks_of {| ID := str "1"; Attachments := Some a |}
     = [str "http://x/a.jpg"; str "http://x/b.png"].
Proof.
  cbv zeta.
  pose proof (tasks_are_the_space_separated_tokens
                {| ID := str "1"; Attachments := None |}) as [H1 _].
  pose proof (tasks_are_the_space_separated_tokens
                {| ID := str "1"; Attachments := Some [SPACE; 9; 10] |})
    as (_ & H2 & H2' & _).
  pose proof (tasks_are_the_space_separated_tokens
                {| ID := str "1";
                   Attachments := Some (str " http://x/a.jpg  http://x/b.png ") |})
    as (_ & _ & _ & H3).
  split; [apply H1; reflexivity |].
  split; [apply (H2 _ eq_refl); repeat constructor |].
  split; [apply H2'; reflexivity |].
  destruct (H3 _ eq_refl) as [E _].
  - intros c Hc Hs. vm_compute in Hc.
    repeat (destruct Hc as [<- | Hc]; [first [reflexivity | discriminate Hs] |]).
    destruct Hc.
  - exact E.
Defined.

(** ** File names *)

Lemma to_uint_nonnil n : Nat.to_uint n <> Decimal.Nil.
Proof.
  intros H. assert (E : n = 0%nat).
  { rewrite <- (Unsigned.of_to n), H. reflexivity. }
  subst n. discriminate H.
Qed.

Lemma str_inj s t : str s = str t -> s = t.
Proof.
  unfold str. intros H.
  rewrite <- (string_of_list_ascii_of_string s),
          <- (string_of_list_ascii_of_string t).
  f_equal. revert H.
  generalize (list_ascii_of_string s) (list_ascii_of_string t). clear.
  induction l as [| a l IH]; intros [| b l']; simpl; try discriminate; auto.
  intros [= E H]. f_equal; auto.
  rewrite <- (ascii_N_embedding a), <- (ascii_N_embedding b). by rewrite E.
Qed.

Lemma dec_inj n m : dec n = dec m -> n = m.
Proof.
  unfold dec. intros H. apply str_inj in H.
  apply Unsigned.to_uint_inj.
  apply (f_equal NilZero.uint_of_string) in H.
  rewrite !NilZero.usu in H by apply to_uint_nonnil. by injection H.
Qed.

Lemma dec_digits n : Forall (fun c => is_digit c = true) (dec n).
Proof.
  unfold dec, NilZero.string_of_uint.
  assert (G : forall d,
             Forall (fun c => is_digit c = true) (str (NilEmpty.string_of_uint d))).
  { induction d; simpl; constructor; auto. }
  destruct (Nat.to_uint n) eqn:E; try (rewrite <- E; apply G).
  repeat constructor.
Qed.

(** A run of digits is determined by a text it opens, when what follows
    the run does not start with a digit. *)
Lemma digit_run_unique (l1 l2 r1 r2 : jsstring) :
  Forall (fun c => is_digit c = true) l1 ->
  Forall (fun c => is_digit c = true) l2 ->
  match r1 with [] => True | c :: _ => is_digit c = false end ->
  match r2 with [] => True | c :: _ => is_digit c = false end ->
  l1 ++ r1 = l2 ++ r2 -> l1 = l2.
Proof.
  intros H1. revert l2. induction H1 as [| a l1 Ha _ IH]; intros l2 H2 N1 N2 E.
  - destruct H2 as [| b l2 Hb _]; [done |]. simpl in E. subst r1. congruence.
  - destruct H2 as [| b l2 Hb H2].
    + simpl in E. subst r2. congruence.
    + simpl in E. injection E as -> E. f_equal. eauto.
Qed.

Lemma drop_while_stops p s c t : drop_while p s = c :: t -> p c = false.
Proof.
  induction s as [| x s IH]; simpl; [discriminate |].
  destruct (p x) eqn:E; [exact IH |]. by intros [= <- _].
Qed.

(** The extension is empty, or a dot and a dot-free rest that end the
    last component of the path. *)
Lemma extname_shape p :
  extname p = [] \/
  exists e, extname p = DOT :: e
            /\ Forall (fun c => c <> DOT) e
            /\ exists pre, basename p = pre ++ DOT :: e.
Proof.
  unfold extname.
  assert (B : basename p = rev (rev (basename p)))
    by (symmetry; apply rev_involutive).
  revert B. generalize (rev (basename p)) as r. intros r B.
  pose proof (take_drop_while not_dot r) as TD.
  pose proof (take_while_Forall not_dot r) as TF.
  destruct (drop_while not_dot r) as [| d before] eqn:E; [by left |].
  destruct before as [| b before]; [by left |].
  destruct (is_nil _ && jsstring_eqb _ _); [by left |]. right.
  eexists. split; [reflexivity |]. split.
  - apply List.Forall_rev. eapply List.Forall_impl; [| exact TF].
    simpl. unfold not_dot. intros c Hc ->. discriminate Hc.
  - exists (rev (b :: before)).
    apply drop_while_stops in E. unfold not_dot in E.
    apply negb_false_iff, N.eqb_eq in E. subst d.
    rewrite B. rewrite <- TD at 1. rewrite rev_app_distr.
    change (rev (DOT :: b :: before)) with (rev (b :: before) ++ [DOT]).
    by rewrite <- app_assoc.
Qed.

Lemma split_without_separator sep s :
  Forall (fun c => c <> sep) s -> split sep s = [s].
Proof.
  induction 1 as [| c s Hc _ IH]; simpl; [done |].
  destruct (N.eqb_spec c sep); [contradiction |]. by rewrite IH.
Qed.

Lemma split_nonempty sep s : split sep s <> [].
Proof.
  destruct s as [| c s]; simpl; [discriminate |].
  destruct (c =? sep); [discriminate |]. by destruct (split sep s).
Qed.

Lemma basename_no_slash p : Forall (fun c => c <> SLASH) (basename p).
Proof.
  unfold basename.
  set (l := split SLASH _).
  assert (Hin : In (List.last l []) l).
  { pose proof (split_nonempty SLASH (rev (drop_while is_slash (rev p)))) as Hne.
    fold l in Hne. destruct (exists_last Hne) as (l' & t & ->).
    rewrite last_last. apply in_or_app. right. by left. }
  eapply List.Forall_impl; [| exact (split_pieces _ _ _ Hin)].
  simpl. tauto.
Qed.

Lemma basename_without_slash s :
  Forall (fun c => c <> SLASH) s -> basename s = s.
Proof.
  intros H. unfold basename.
  rewrite drop_while_head.
  - rewrite rev_involutive, split_without_separator by done. reflexivity.
  - apply List.Forall_rev in H. destruct H as [| c t Hc _]; [done |].
    unfold is_slash. by apply N.eqb_neq.
Qed.

Lemma basename_idem p : basename (basename p) = basename p.
Proof. apply basename_without_slash, basename_no_slash. Qed.


Lemma extname_not_digit p :
  match extname p with [] => True | c :: _ => is_digit c = false end.
Proof. by destruct (extname_shape p) as [-> | (e & -> & _)]. Qed.

Lemma unique_name_inj id i j e1 e2 :
  match e1 with [] => True | c :: _ => is_digit c = false end ->
  match e2 with [] => True | c :: _ => is_digit c = false end ->
  unique_name id i e1 = unique_name id j e2 -> i = j.
Proof.
  unfold unique_name. intros N1 N2 E.
  apply app_inv_head in E. injection E as E.
  apply digit_run_unique in E; auto using dec_digits.
  apply dec_inj in E. lia.
Qed.

Section NameFacts.

Variable URL_pathname : jsstring -> option jsstring.

Let filename_of := filename_of URL_pathname.
Let destination := destination URL_pathname.



End NameFacts.


(** ** Tasks and files *)

Lemma split_app_sep sep a b :
  split sep (a ++ sep :: b) = split sep a ++ split sep b.
Proof.
  induction a as [| c a IH]; cbn [app split].
  - by rewrite N.eqb_refl.
  - rewrite IH. destruct (c =? sep); [done |].
    pose proof (split_nonempty sep a) as Hne.
    by destruct (split sep a) as [| t ts].
Qed.

Lemma urls_of_blank a :
  Forall (fun c => is_space c = true) a -> urls_of a = [].
Proof.
  intros H. unfold urls_of.
  assert (G : Forall (fun t => trim t = []) (split SPACE a)).
  { apply List.Forall_forall. intros t Ht. apply all_space_trim_nil.
    eapply List.Forall_impl; [| exact (split_pieces _ _ _ Ht)].
    simpl. intros c [Hc _]. by apply (proj1 (List.Forall_forall _ _) H). }
  induction G as [| t ts E _ IH]; cbn [List.filter]; [done |].
  by rewrite E.
Qed.

(** The guard of the loop hides no task: a record that it passes over
    has no non-blank piece. *)
Lemma tasks_of_urls_of m : tasks_of m = urls_of (default [] (Attachments m)).
Proof.
  unfold tasks_of, no_attachments.
  destruct (Attachments m) as [a |]; cbn [default from_option Datatypes.id]; [| reflexivity].
  destruct (is_nil a || is_nil (trim a)) eqn:E; [| reflexivity].
  symmetry. apply urls_of_blank.
  apply orb_true_iff in E as [E | E].
  - destruct a; [constructor | discriminate].
  - apply (trim_nil_all_space a).
    destruct (trim a); [reflexivity | discriminate E].
Qed.

(** X4 (the attachment tasks): tasks are read field by field. The
    tasks of a field made of two texts with a space between them are the
    tasks of the first text followed by the tasks of the second; so
    spaces at either end of a field and repeated spaces add no task. *)
Theorem tasks_of_two_fields (id id1 id2 a b : jsstring) :
  tasks_of {| ID := id; Attachments := Some (a ++ SPACE :: b) |}
  = tasks_of {| ID := id1; Attachments := Some a |}
    ++ tasks_of {| ID := id2; Attachments := Some b |}.
Proof.
  rewrite !tasks_of_urls_of.
  cbn [Attachments default from_option Datatypes.id]. unfold urls_of.
  by rewrite split_app_sep, List.filter_app.
Qed.

(** X5 (the attachment tasks): a task is never empty or blank and
    holds no space; it is a piece of the field, so that every code unit
    of it comes from the field; and it is a field of its own, with
    itself as the only task. *)
Theorem tasks_are_clean (m : message) (url : jsstring) :
  In url (tasks_of m) ->
  url <> [] /\ trim url <> [] /\ ~ In SPACE url
  /\ (forall a c, Attachments m = Some a -> In c url -> In c a)
  /\ tasks_of {| ID := ID m; Attachments := Some url |} = [url].
Proof.
  rewrite tasks_of_urls_of. unfold urls_of at 1. intros Hin.
  apply List.filter_In in Hin as [Hpiece Hblank].
  apply negb_true_iff in Hblank.
  pose proof (split_pieces _ _ _ Hpiece) as Hunits.
  assert (Htrim : trim url <> []) by (by destruct (trim url)).
  assert (Hne : url <> []) by (by intros ->).
  assert (Hsp : Forall (fun c => c <> SPACE) url).
  { eapply List.Forall_impl; [| exact Hunits]. simpl. tauto. }
  split; [done |]. split; [done |]. split.
  { intros Hc. by apply (proj1 (List.Forall_forall _ _) Hsp SPACE Hc). }
  split.
  { intros a c Ha Hc. rewrite Ha in Hunits. cbn [default from_option Datatypes.id] in Hunits.
    by apply (proj1 (List.Forall_forall _ _) Hunits c Hc). }
  rewrite tasks_of_urls_of. cbn [Attachments default from_option Datatypes.id]. unfold urls_of.
  rewrite split_without_separator by done. cbn [List.filter].
  by rewrite Hblank.
Qed.

Lemma tasks_are_clean_witness :
  let m := {| ID := str "1";
              Attachments := Some (str "  http://x/a.jpg   http://x/b.png ") |} in
  tasks_of {| ID := str "1"; Attachments := Some (str "http://x/b.png") |}
  = [str "http://x/b.png"].
Proof.
  cbv zeta.
  apply (tasks_are_clean
           {| ID := str "1";
              Attachments := Some (str "  http://x/a.jpg   http://x/b.png ") |}
           (str "http://x/b.png")).
  vm_compute. right. by left.
Defined.

(** *** Where the files go *)

Lemma last_in_Forall (P : N -> Prop) (s : jsstring) d :
  Forall P s -> s <> [] -> P (List.last s d).
Proof.
  induction 1 as [| c s Hc Hs IH]; [done |]. intros _.
  destruct s as [| c' s]; [exact Hc |]. apply IH. discriminate.
Qed.

Lemma last_app_cons (a : jsstring) c b d :
  List.last (a ++ c :: b) d = List.last (c :: b) d.
Proof.
  induction a as [| x a IH]; [done |].
  cbn [app]. rewrite <- IH. by destruct (a ++ c :: b) eqn:E; [destruct a |].
Qed.

(** A relative path whose components are known normalizes to the
    components that are kept, joined by slashes. *)
Lemma normalize_relative p segs kept :
  match p with [] => False | c :: _ => is_slash c = false end ->
  is_slash (List.last p 0) = false ->
  split SLASH p = segs ->
  normalize_segments true segs [] = kept ->
  join_segments kept <> [] ->
  normalize p = join_segments kept.
Proof.
  intros Hhead Hlast Hsegs Hkept Hne. unfold normalize.
  destruct p as [| c p]; [done |].
  rewrite Hhead, Hlast, Hsegs. cbn [negb]. rewrite Hkept.
  destruct (join_segments kept); [done |]. by rewrite app_nil_r.
Qed.

Lemma plain_name_segment name stack segs :
  Place.plain_name name ->
  normalize_segments true (name :: segs) stack
  = normalize_segments true segs (name :: stack).
Proof.
  intros (_ & Hne & Hd & Hdd). cbn [normalize_segments].
  unfold jsstring_eqb.
  rewrite (bool_decide_eq_false_2 _ Hd), (bool_decide_eq_false_2 _ Hdd).
  by destruct name.
Qed.

Lemma plain_name_last name : Place.plain_name name -> is_slash (List.last name 0) = false.
Proof.
  intros (Hs & Hne & _). unfold is_slash. apply N.eqb_neq.
  by apply (last_in_Forall (fun c => c <> SLASH)).
Qed.

Lemma join_downloadDir name :
  Place.plain_name name -> join downloadDir name = str "downloads/" ++ name.
Proof.
  intros Hp. pose proof Hp as (Hs & Hne & _).
  assert (E : join downloadDir name
              = normalize (str "./downloads" ++ SLASH :: name))
    by (by destruct name).
  rewrite E.
  rewrite (normalize_relative _ [[DOT]; str "downloads"; name]
             [str "downloads"; name]).
  - reflexivity.
  - reflexivity.
  - rewrite last_app_cons. destruct name as [| c name]; [by destruct Hne |].
    by apply (plain_name_last (c :: name)).
  - rewrite split_app_sep, (split_without_separator SLASH name) by done.
    reflexivity.
  - change (normalize_segments true [[DOT]; str "downloads"; name] [])
      with (normalize_segments true [name] [str "downloads"]).
    by rewrite plain_name_segment.
  - discriminate.
Qed.

(** A normal form that does not end in a slash is the resolved path. *)
Lemma resolve_no_trailing p :
  is_slash (List.last (normalize p) 0) = false -> resolve p = normalize p.
Proof.
  unfold resolve. generalize (normalize p) as n. intros n Hn.
  destruct (rev n) as [| c [| d r]] eqn:E; [done | done |].
  apply (f_equal (@rev N)) in E. rewrite rev_involutive in E.
  change (rev (c :: d :: r)) with (rev (d :: r) ++ [c]) in E.
  rewrite E, last_last in Hn. by rewrite Hn.
Qed.

Lemma normalize_downloads name :
  Place.plain_name name ->
  normalize (str "downloads/" ++ name) = str "downloads/" ++ name.
Proof.
  intros Hp. pose proof Hp as (Hs & Hne & _).
  change (str "downloads/" ++ name) with (str "downloads" ++ SLASH :: name).
  rewrite (normalize_relative _ [str "downloads"; name] [str "downloads"; name]).
  - reflexivity.
  - reflexivity.
  - rewrite last_app_cons. destruct name as [| c name]; [by destruct Hne |].
    by apply (plain_name_last (c :: name)).
  - rewrite split_app_sep, (split_without_separator SLASH name) by done.
    reflexivity.
  - change (normalize_segments true [str "downloads"; name] [])
      with (normalize_segments true [name] [str "downloads"]).
    by rewrite plain_name_segment.
  - discriminate.
Qed.

Lemma resolve_downloads name :
  Place.plain_name name ->
  resolve (str "downloads/" ++ name) = str "downloads/" ++ name.
Proof.
  intros Hp. rewrite resolve_no_trailing; rewrite normalize_downloads by done;
    [reflexivity |].
  destruct Hp as (Hs & Hne & Hd). 
  change (str "downloads/" ++ name) with (str "downloads" ++ SLASH :: name).
  rewrite last_app_cons. destruct name as [| c name]; [by destruct Hne |].
  by apply (plain_name_last (c :: name)).
Qed.

Lemma extname_no_slash p : Forall (fun c => c <> SLASH) (extname (basename p)).
Proof.
  destruct (extname_shape (basename p)) as [-> | (e & -> & _ & pre & B)];
    [constructor |].
  rewrite basename_idem in B.
  pose proof (basename_no_slash p) as H. rewrite B in H.
  apply Forall_app in H as [_ H]. exact H.
Qed.

Lemma unique_name_plain id i p :
  Forall (fun c => c <> SLASH) id ->
  Place.plain_name (unique_name id i (extname (basename p))).
Proof.
  intros Hid. unfold unique_name.
  assert (Hin : In UNDERSCORE
                  (id ++ UNDERSCORE :: dec (i + 1) ++ extname (basename p))).
  { apply in_or_app. right. by left. }
  split; [| split; [| split]].
  - apply Forall_app. split; [done |]. constructor; [discriminate |].
    apply Forall_app. split; [| apply extname_no_slash].
    eapply List.Forall_impl; [| apply dec_digits].
    simpl. intros c Hc ->. discriminate Hc.
  - by destruct id.
  - intros E. rewrite E in Hin. destruct Hin as [[=] | []].
  - intros E. rewrite E in Hin. destruct Hin as [[=] | [[=] | []]].
Qed.

Lemma digits_no_slash s :
  Forall (fun c => is_digit c = true) s -> Forall (fun c => c <> SLASH) s.
Proof.
  intros H. eapply List.Forall_impl; [| exact H].
  simpl. intros c Hc ->. discriminate Hc.
Qed.

Section PlaceFacts.

Variable URL_pathname : jsstring -> option jsstring.

Local Abbreviation filename_of := (Runner.filename_of URL_pathname).
Local Abbreviation destination := (Runner.destination URL_pathname).

Lemma destination_shape (id : jsstring) (i : nat) (url filepath : jsstring) :
  Forall (fun c => c <> SLASH) id ->
  destination id i url = Some filepath ->
  exists name,
    filename_of id i url = Some name
    /\ filepath = str "downloads/" ++ name
    /\ Place.plain_name name
    /\ resolve filepath = filepath.
Proof.
  intros Hid. unfold Runner.destination, Runner.filename_of.
  destruct (URL_pathname url) as [p |]; [| discriminate].
  intros H. apply (inj Some) in H. subst filepath.
  pose proof (unique_name_plain id i p Hid) as Hp.
  eexists. split; [reflexivity |].
  rewrite join_downloadDir by done. split; [reflexivity |].
  split; [exact Hp |]. by apply resolve_downloads.
Qed.

(** X6 (the destination of an attachment): when the identifier of the
    record holds no slash, the file of an attachment lies in the download
    directory itself: its path is [downloads/] followed by the name of
    C4, which holds no slash, and the path is its own normal form,
    whatever the URL is. *)
Theorem destination_in_download_directory (id : jsstring) (i : nat)
  (url filepath : jsstring) :
  Forall (fun c => c <> SLASH) id ->
  destination id i url = Some filepath ->
  exists name,
    filename_of id i url = Some name
    /\ filepath = str "downloads/" ++ name
    /\ Forall (fun c => c <> SLASH) name
    /\ resolve filepath = filepath.
Proof.
  intros Hid Hdest.
  destruct (destination_shape id i url filepath Hid Hdest)
    as (name & Hn & Hf & Hp & Hr).
  exists name. repeat split; try done. apply Hp.
Qed.

(** X7 (the destination of an attachment): when identifiers are runs
    of digits, attachments that differ in the record or in the ordinal
    are written to different files, whatever their URLs are: no download
    overwrites another, and an attachment is never skipped for the file
    of another. *)
Theorem different_attachments_different_files (id id' : jsstring) (i j : nat)
  (url url' filepath filepath' : jsstring) :
  Forall (fun c => is_digit c = true) id ->
  Forall (fun c => is_digit c = true) id' ->
  destination id i url = Some filepath ->
  destination id' j url' = Some filepath' ->
  resolve filepath = resolve filepath' ->
  id = id' /\ i = j.
Proof.
  intros Hid Hid'. unfold Runner.destination, Runner.filename_of.
  destruct (URL_pathname url) as [p |]; [| discriminate].
  destruct (URL_pathname url') as [p' |]; [| discriminate].
  intros H H'. apply (inj Some) in H, H'. subst filepath filepath'.
  pose proof (unique_name_plain id i p (digits_no_slash _ Hid)) as Hp.
  pose proof (unique_name_plain id' j p' (digits_no_slash _ Hid')) as Hp'.
  rewrite !join_downloadDir, !resolve_downloads by done.
  intros E. apply app_inv_head in E.
  assert (Eid : id = id').
  { unfold unique_name in E.
    by apply digit_run_unique in E. }
  subst id'. split; [reflexivity |].
  eapply unique_name_inj; [| | exact E]; apply extname_not_digit.
Qed.

End PlaceFacts.

Lemma destination_in_download_directory_witness :
  destination Sample.URL_pathname (str "42") 2
    (str "https://cdn.example/attachments/7/photo.final.jpg?ex=1")
  = Some (str "downloads/42_3.jpg").
Proof.
  destruct (destination_in_download_directory Sample.URL_pathname (str "42") 2
              (str "https://cdn.example/attachments/7/photo.final.jpg?ex=1")
              (str "downloads/42_3.jpg")) as (name & _ & _ & _ & _).
  - repeat constructor; discriminate.
  - vm_compute; reflexivity.
  - vm_compute; reflexivity.
Defined.

Lemma different_attachments_different_files_witness :
  destination Sample.URL_pathname (str "42") 0 (str "https://x/a.jpg")
  = Some (str "downloads/42_1.jpg")
  /\ destination Sample.URL_pathname (str "4") 1 (str "https://x/a.jpg")
     = Some (str "downloads/4_2.jpg")
  /\ resolve (str "downloads/42_1.jpg") <> resolve (str "downloads/4_2.jpg").
Proof.
  split; [vm_compute; reflexivity |]. split; [vm_compute; reflexivity |].
  intros E.
  destruct (different_attachments_different_files Sample.URL_pathname
              (str "42") (str "4") 0 1
              (str "https://x/a.jpg") (str "https://x/a.jpg")
              (str "downloads/42_1.jpg") (str "downloads/4_2.jpg"))
    as [Hid _].
  - repeat constructor.
  - repeat constructor.
  - vm_compute; reflexivity.
  - vm_compute; reflexivity.
  - exact E.
  - vm_compute in Hid. discriminate Hid.
Defined.
(** ** Traces *)

Lemma strip_prefix_app p s : strip_prefix p (p ++ s) = Some s.
Proof. induction p as [| a p IH]; simpl; [done |]. by rewrite N.eqb_refl. Qed.

Lemma strip_prefix_Some p : forall s r, strip_prefix p s = Some r -> s = p ++ r.
Proof.
  induction p as [| a p IH]; simpl; intros s r.
  - by intros [= ->].
  - destruct s as [| c s]; [discriminate |].
    destruct (N.eqb_spec a c) as [-> | _]; [| discriminate].
    intros H. f_equal. auto.
Qed.

Lemma errors_app evs1 evs2 : errors (evs1 ++ evs2) = (errors evs1 + errors evs2)%nat.
Proof. unfold errors. by rewrite List.filter_app, length_app. Qed.

Lemma errors_app_0 evs1 evs2 :
  errors (evs1 ++ evs2) = 0%nat -> errors evs1 = 0%nat /\ errors evs2 = 0%nat.
Proof. rewrite errors_app. lia. Qed.

Lemma requested_app evs1 evs2 :
  Trace.requested (evs1 ++ evs2) = Trace.requested evs1 ++ Trace.requested evs2.
Proof. unfold Trace.requested. apply omap_app. Qed.

Lemma waited_app evs1 evs2 :
  Trace.waited (evs1 ++ evs2) = (Trace.waited evs1 + Trace.waited evs2)%nat.
Proof. unfold Trace.waited. by rewrite List.map_app, list_sum_app. Qed.

Lemma downloaded_lines_app evs1 evs2 :
  Trace.downloaded_lines (evs1 ++ evs2)
  = (Trace.downloaded_lines evs1 + Trace.downloaded_lines evs2)%nat.
Proof. unfold Trace.downloaded_lines. by rewrite List.filter_app, length_app. Qed.

Lemma skipped_lines_app evs1 evs2 :
  Trace.skipped_lines (evs1 ++ evs2)
  = (Trace.skipped_lines evs1 + Trace.skipped_lines evs2)%nat.
Proof. unfold Trace.skipped_lines. by rewrite List.filter_app, length_app. Qed.

Lemma summary_lines_app evs1 evs2 :
  Trace.summary_lines (evs1 ++ evs2)
  = (Trace.summary_lines evs1 + Trace.summary_lines evs2)%nat.
Proof. unfold Trace.summary_lines. by rewrite List.filter_app, length_app. Qed.

Lemma stopped_lines_app evs1 evs2 :
  Trace.stopped_lines (evs1 ++ evs2)
  = (Trace.stopped_lines evs1 + Trace.stopped_lines evs2)%nat.
Proof. unfold Trace.stopped_lines. by rewrite List.filter_app, length_app. Qed.

Lemma opens_with_prefix p s : Trace.opens_with p (Log (p ++ s)) = true.
Proof.
  unfold Trace.opens_with. rewrite strip_prefix_app.
  apply bool_decide_eq_true. eauto.
Qed.

Lemma opens_with_other p line :
  strip_prefix p line = None -> Trace.opens_with p (Log line) = false.
Proof.
  intros E. unfold Trace.opens_with. rewrite E.
  apply bool_decide_eq_false. by intros [? ?].
Qed.

(** A line that opens with one text does not open with a text that
    differs from it at some position. *)
Lemma opens_with_line p q s :
  strip_prefix p (q ++ s) = None -> Log (q ++ s) <> Log (p ++ s).
Proof.
  intros E H. assert (E' : q ++ s = p ++ s) by congruence.
  rewrite E', strip_prefix_app in E. discriminate E.
Qed.

(** *** Paced traces *)




(** ** The loop *)

(** The components of an equation between triples. *)
Ltac triple H :=
  apply pair_equal_spec in H; destruct H as [H ?];
  apply pair_equal_spec in H; destruct H as [? ?]; subst.

(** The ways through the body of the inner loop. *)
Ltac attachment_leaves denied https_get SIGINT id i url st :=
  unfold Runner.attachment;
  destruct (Runner.destination _ id i url) as [filepath |] eqn:Hdest;
  [ destruct (existsSync filepath (files st)) eqn:Hexists;
    [ | pose proof (existsSync_false _ _ Hexists) as Hnone;
        cbv zeta;
        destruct (downloadFile_cases denied (https_get (requests st) url) url
                    filepath (files st))
          as [(oe & Hopen & -> & ->)
             | (Hopen & -> & [(msg & Hr & ->) | [(msg & Hr & ->)
                 | [(body & Hr & ->)
                 | [(code & body & Hr & Hcode & ->) | (received & Hr & ->)]]]])];
        [ destruct (https_get (requests st) url)
            as [msg | msg | code body | received] eqn:Hr
        | rewrite Hr .. ];
        destruct (pending st) as [pe |] eqn:Hpend;
        cbn [first_error]; cbv beta iota zeta;
        match goal with
        | |- context [SIGINT (requests st)] =>
            destruct (SIGINT (requests st)) as [| wr |] eqn:Hsig
        | |- _ => idtac
        end;
        unfold on_SIGINT; cbv beta iota zeta;
        rewrite ?(delete_id _ _ Hnone)
    ]
  | ].

(** The counts of a trace that is written out. *)
Ltac count_lines :=
  unfold Trace.downloaded_lines, Trace.skipped_lines, Trace.summary_lines,
    Trace.stopped_lines, Trace.waited, Trace.requested, errors;
  cbn -[str Trace.opens_with Nat.mul Nat.add stopped_by_user stopped_line
        complete_line error_line];
  repeat match goal with
         | |- context [Trace.opens_with ?p (Request ?u)] =>
             change (Trace.opens_with p (Request u)) with false
         | |- context [Trace.opens_with ?p (Sleep ?u)] =>
             change (Trace.opens_with p (Sleep u)) with false
         | |- context [Trace.opens_with ?p (LogError ?u)] =>
             change (Trace.opens_with p (LogError u)) with false
         end;
  rewrite ?opens_with_prefix;
  rewrite ?opens_with_other by reflexivity;
  cbn [length].

Section LoopFacts.

Variable URL_pathname : jsstring -> option jsstring.
Variable https_get : nat -> jsstring -> reply.
Variable SIGINT : nat -> signal.
Variable denied : jsstring -> bool.

Local Abbreviation destination := (Runner.destination URL_pathname).
Local Abbreviation attachment :=
  (Runner.attachment URL_pathname https_get SIGINT denied).
Local Abbreviation for_urls :=
  (Runner.for_urls URL_pathname https_get SIGINT denied).
Local Abbreviation for_message :=
  (Runner.for_message URL_pathname https_get SIGINT denied).
Local Abbreviation for_unnamed := (Runner.for_unnamed URL_pathname).
Local Abbreviation for_element :=
  (Runner.for_element URL_pathname https_get SIGINT denied).
Local Abbreviation for_messages :=
  (Runner.for_messages URL_pathname https_get SIGINT denied).
Local Abbreviation run_elements :=
  (Runner.run_elements URL_pathname https_get SIGINT denied).
Local Abbreviation run := (Runner.run URL_pathname https_get SIGINT denied).

(** *** From the body of the loop to the loop *)

Section Lift.

(** A property of a stretch of the loop: the tasks it was given, the
    state before, the events, the state after and how the process ended
    there, if it did. *)
Variable P :
  list Trace.task -> state -> list event -> state -> option ending -> Prop.

Hypothesis P_nil : forall st, P [] st [] st None.
Hypothesis P_more : forall ts ts' st evs st' h,
  P ts st evs st' (Some h) -> P (ts ++ ts') st evs st' (Some h).
Hypothesis P_app : forall ts1 ts2 st1 evs1 st2 evs2 st3 h,
  P ts1 st1 evs1 st2 None -> P ts2 st2 evs2 st3 h ->
  P (ts1 ++ ts2) st1 (evs1 ++ evs2) st3 h.
Hypothesis P_attachment : forall id i url st st' evs h,
  attachment id i url st = (st', evs, h) -> P [(id, i, url)] st evs st' h.
Hypothesis P_unnamed : forall a st, P [] st (for_unnamed a) st None.
Hypothesis P_stopped : forall st,
  isShuttingDown st = true ->
  P [] st [Log (stopped_line st)] st (Some (finish st Fulfilled)).

Lemma for_urls_lift id urls : forall i st st' evs h,
  for_urls id i urls st = (st', evs, h) ->
  P (Trace.tasks_from id i urls) st evs st' h.
Proof.
  induction urls as [| url urls IH]; intros i st st' evs h;
    cbn [Runner.for_urls Trace.tasks_from].
  - intros H. triple H. apply P_nil.
  - destruct (attachment id i url st) as [[st1 evs1] [h1 |]] eqn:E1.
    + intros H. triple H.
      apply (P_more [(id, i, url)]). by apply P_attachment.
    + destruct (for_urls id (S i) urls st1) as [[st2 evs2] h2] eqn:E2.
      intros H. triple H.
      apply (P_app [(id, i, url)] _ st _ st1);
        [by apply P_attachment | by apply IH].
Qed.

Lemma for_element_lift e st st' evs h :
  for_element e st = (st', evs, h) ->
  P (Trace.tasks_of_element e) st evs st' h.
Proof.
  destruct e as [m | a]; cbn [Runner.for_element Trace.tasks_of_element].
  - rewrite for_message_tasks. apply for_urls_lift.
  - intros H. triple H. apply P_unnamed.
Qed.

Lemma for_messages_lift data : forall st st' evs h,
  for_messages data st = (st', evs, h) ->
  P (Trace.tasks data) st evs st' h.
Proof.
  unfold Trace.tasks.
  induction data as [| e data IH]; intros st st' evs h;
    cbn [Runner.for_messages List.map concat].
  - intros H. triple H. apply P_nil.
  - destruct (isShuttingDown st) eqn:F.
    + intros H. triple H. apply (P_more []). by apply P_stopped.
    + destruct (for_element e st) as [[st1 evs1] [h1 |]] eqn:E1.
      * intros H. triple H. apply P_more. by apply for_element_lift.
      * destruct (for_messages data st1) as [[st2 evs2] h2] eqn:E2.
        intros H. triple H.
        apply (P_app _ _ st _ st1); [by apply for_element_lift | by apply IH].
Qed.

End Lift.

(** *** What a stretch of the loop changes in the file system *)

(** Nothing that is there is touched, and what is new is a regular file
    at the destination of a task. *)
Lemma attachment_changes id i url st st' evs h :
  attachment id i url st = (st', evs, h) ->
  kept (files st) (files st')
  /\ forall (k : jsstring) (n : node),
       files st' !! k = Some n -> files st !! k = None ->
       exists filepath body,
         destination id i url = Some filepath
         /\ k = resolve filepath /\ n = File body.
Proof.
  attachment_leaves denied https_get SIGINT id i url st;
    intros H; triple H; cbn [files after_download];
    (split; [first [ apply kept_refl | by apply kept_insert ] |]);
    intros k n Hk Hk0;
    first
      [ congruence
      | destruct (decide (k = resolve filepath)) as [-> | Hne];
        [ rewrite lookup_insert_eq in Hk; apply (inj Some) in Hk; subst n;
          eauto
        | rewrite lookup_insert_ne in Hk by congruence; congruence ] ].
Qed.

Local Abbreviation changes_only := (Place.changes_only URL_pathname).

Lemma changes_only_refl ts fs : changes_only ts fs fs.
Proof. split; [apply kept_refl | intros; congruence]. Qed.

Lemma changes_only_app ts1 ts2 fs1 fs2 fs3 :
  changes_only ts1 fs1 fs2 -> changes_only ts2 fs2 fs3 ->
  changes_only (ts1 ++ ts2) fs1 fs3.
Proof.
  intros [K1 N1] [K2 N2]. split; [by eapply kept_trans |].
  intros k n Hk Hk0. destruct (fs2 !! k) as [n2 |] eqn:E2.
  - assert (n2 = n) as -> by (apply K2 in E2; congruence).
    destruct (N1 k n E2 Hk0) as (id & i & url & fp & body & Hin & ?).
    exists id, i, url, fp, body. split; [apply in_or_app; by left | done].
  - destruct (N2 k n Hk E2) as (id & i & url & fp & body & Hin & ?).
    exists id, i, url, fp, body. split; [apply in_or_app; by right | done].
Qed.

Lemma for_messages_changes data st st' evs h :
  for_messages data st = (st', evs, h) ->
  changes_only (Trace.tasks data) (files st) (files st').
Proof.
  apply (for_messages_lift
           (fun ts st _ st' _ => changes_only ts (files st) (files st')));
    clear data st st' evs h.
  - intros. apply changes_only_refl.
  - intros ts ts' st evs st' h H.
    rewrite <- (app_nil_r (ts ++ ts')), <- app_assoc.
    eapply changes_only_app; [exact H | apply changes_only_refl].
  - intros. by eapply changes_only_app.
  - intros id i url st st' evs h H.
    destruct (attachment_changes _ _ _ _ _ _ _ H) as [K N].
    split; [exact K |]. intros k n Hk Hk0.
    destruct (N k n Hk Hk0) as (fp & body & ? & ? & ?).
    exists id, i, url, fp, body. split; [by left | done].
  - intros. apply changes_only_refl.
  - intros. apply changes_only_refl.
Qed.

Lemma for_messages_kept data st st' evs h :
  for_messages data st = (st', evs, h) -> kept (files st) (files st').
Proof. intros H. apply (for_messages_changes _ _ _ _ _ H). Qed.

(** *** The counters and the lines *)

Lemma attachment_counts id i url st st' evs h :
  attachment id i url st = (st', evs, h) ->
  downloadCount st' = (downloadCount st + Trace.downloaded_lines evs)%nat
  /\ skippedCount st' = (skippedCount st + Trace.skipped_lines evs)%nat
  /\ Trace.waited evs = (700 * Trace.downloaded_lines evs)%nat
  /\ (Trace.downloaded_lines evs <= length (Trace.requested evs))%nat
  /\ (requests st + length (Trace.requested evs) <= requests st')%nat
  /\ Trace.summary_lines evs = 0%nat
  /\ Trace.stopped_lines evs = 0%nat
  /\ sublist (Trace.requested evs) [url].
Proof.
  attachment_leaves denied https_get SIGINT id i url st;
    intros H; triple H;
    cbn [downloadCount skippedCount requests after_download];
    count_lines;
    repeat split; first [ lia | by repeat constructor ].
Qed.

Lemma requested_unnamed a : Trace.requested (for_unnamed a) = [].
Proof.
  unfold Runner.for_unnamed, Trace.requested.
  induction (urls_of a) as [| url urls IH]; [done | exact IH].
Qed.

Lemma lines_unnamed p a :
  List.filter (Trace.opens_with p) (for_unnamed a) = [].
Proof.
  unfold Runner.for_unnamed.
  induction (urls_of a) as [| url urls IH]; [done | exact IH].
Qed.

Lemma waited_unnamed a : Trace.waited (for_unnamed a) = 0%nat.
Proof.
  unfold Runner.for_unnamed, Trace.waited.
  induction (urls_of a) as [| url urls IH]; [done | exact IH].
Qed.

Lemma for_messages_counts data st st' evs h :
  for_messages data st = (st', evs, h) ->
  downloadCount st' = (downloadCount st + Trace.downloaded_lines evs)%nat
  /\ skippedCount st' = (skippedCount st + Trace.skipped_lines evs)%nat
  /\ Trace.waited evs = (700 * Trace.downloaded_lines evs)%nat
  /\ (Trace.downloaded_lines evs <= length (Trace.requested evs))%nat
  /\ (requests st + length (Trace.requested evs) <= requests st')%nat
  /\ Trace.summary_lines evs = 0%nat
  /\ sublist (Trace.requested evs) (List.map Trace.task_url (Trace.tasks data)).
Proof.
  apply (for_messages_lift
           (fun ts st evs st' _ =>
              downloadCount st'
              = (downloadCount st + Trace.downloaded_lines evs)%nat
              /\ skippedCount st'
                 = (skippedCount st + Trace.skipped_lines evs)%nat
              /\ Trace.waited evs = (700 * Trace.downloaded_lines evs)%nat
              /\ (Trace.downloaded_lines evs
                  <= length (Trace.requested evs))%nat
              /\ (requests st + length (Trace.requested evs)
                  <= requests st')%nat
              /\ Trace.summary_lines evs = 0%nat
              /\ sublist (Trace.requested evs) (List.map Trace.task_url ts)));
    clear data st st' evs h.
  - intros st. cbn. repeat split; first [ lia | constructor ].
  - intros ts ts' st evs st' h (A1 & A2 & A3 & A4 & A5 & A6 & A7).
    repeat split; try done.
    rewrite List.map_app. by apply sublist_inserts_r.
  - intros ts1 ts2 st1 evs1 st2 evs2 st3 h
      (A1 & A2 & A3 & A4 & A5 & A6 & A7) (B1 & B2 & B3 & B4 & B5 & B6 & B7).
    rewrite downloaded_lines_app, skipped_lines_app, waited_app,
      requested_app, summary_lines_app, length_app, List.map_app.
    repeat split; first [ lia | by apply sublist_app ].
  - intros id i url st st' evs h H.
    destruct (attachment_counts _ _ _ _ _ _ _ H)
      as (A1 & A2 & A3 & A4 & A5 & A6 & _ & A7).
    by repeat split.
  - intros a st.
    unfold Trace.downloaded_lines, Trace.skipped_lines, Trace.summary_lines.
    rewrite !lines_unnamed, requested_unnamed, waited_unnamed. cbn.
    repeat split; first [ lia | constructor ].
  - intros st _. count_lines. repeat split; first [ lia | constructor ].
Qed.

(** *** The flag *)

Lemma attachment_flag id i url st st' evs h :
  attachment id i url st = (st', evs, h) ->
  match h with
  | None => isShuttingDown st' = isShuttingDown st
  | Some (Exited status) => status = 0%nat
  | Some (Settled _ | Doomed _ _) => False
  | Some _ => True
  end.
Proof.
  attachment_leaves denied https_get SIGINT id i url st;
    intros H; triple H; by cbn [isShuttingDown after_download].
Qed.

(** The loop never finds the flag set: it starts unset, and the only
    place that sets it ends the process. *)
Lemma for_messages_flag data st st' evs h :
  for_messages data st = (st', evs, h) ->
  isShuttingDown st = false ->
  Trace.stopped_lines evs = 0%nat
  /\ match h with
     | None => isShuttingDown st' = false
     | Some (Exited status) => status = 0%nat
     | Some (Settled _ | Doomed _ _) => False
     | Some _ => True
     end.
Proof.
  apply (for_messages_lift
           (fun _ st evs st' h =>
              isShuttingDown st = false ->
              Trace.stopped_lines evs = 0%nat
              /\ match h with
                 | None => isShuttingDown st' = false
                 | Some (Exited status) => status = 0%nat
                 | Some (Settled _ | Doomed _ _) => False
                 | Some _ => True
                 end));
    clear data st st' evs h.
  - by intros st F.
  - done.
  - intros ts1 ts2 st1 evs1 st2 evs2 st3 h A B F.
    destruct (A F) as [A1 A2]. destruct (B A2) as [B1 B2].
    rewrite stopped_lines_app. split; [lia | exact B2].
  - intros id i url st st' evs h H F.
    destruct (attachment_counts _ _ _ _ _ _ _ H)
      as (_ & _ & _ & _ & _ & _ & A & _).
    split; [exact A |].
    pose proof (attachment_flag _ _ _ _ _ _ _ H) as G.
    destruct h as [[] |]; try done. congruence.
  - intros a st F. unfold Trace.stopped_lines. by rewrite lines_unnamed.
  - intros st T F. congruence.
Qed.

(** *** What the lines say of the files *)

Lemma attachment_logged id i url st st' evs h :
  attachment id i url st = (st', evs, h) ->
  forall p : jsstring,
    (In (Log (str "Downloaded: " ++ p)) evs ->
     exists body, files st' !! resolve p = Some (File body))
    /\ (In (Log (str "Skipped existing image: " ++ p)) evs ->
        existsSync p (files st') = true).
Proof.
  assert (Hne : forall a b : jsstring,
            str "Downloaded: " ++ a <> str "Skipped existing image: " ++ b).
  { intros a b E. vm_compute in E. discriminate E. }
  assert (Hst1 : forall a : jsstring, stopped_by_user <> str "Downloaded: " ++ a).
  { intros a E. vm_compute in E. discriminate E. }
  assert (Hst2 : forall a : jsstring,
            stopped_by_user <> str "Skipped existing image: " ++ a).
  { intros a E. vm_compute in E. discriminate E. }
  assert (Hlog : forall a b : jsstring, Log a = Log b -> a = b)
    by (intros a b E; congruence).
  attachment_leaves denied https_get SIGINT id i url st;
    intros H; triple H; intros p; cbn [files after_download];
    split; intros Hin;
    repeat match type of Hin with
           | In _ (_ ++ _) => apply in_app_or in Hin; destruct Hin as [Hin | Hin]
           | In _ (_ :: _) => destruct Hin as [Hin | Hin]
           | In _ [] => destruct Hin
           end;
    try discriminate Hin; apply Hlog in Hin;
    first [ by destruct (Hne _ _ Hin)
          | by destruct (Hne _ _ (eq_sym Hin))
          | by destruct (Hst1 _ Hin)
          | by destruct (Hst2 _ Hin)
          | apply app_inv_head in Hin; subst p ];
    first [ exact Hexists | exists body; by rewrite lookup_insert_eq ].
Qed.

Lemma In_unnamed line a : ~ In (Log line) (for_unnamed a).
Proof.
  unfold Runner.for_unnamed.
  induction (urls_of a) as [| url urls IH]; [by intros [] |].
  intros [H | H]; [discriminate H | by apply IH].
Qed.

Lemma for_messages_logged data st st' evs h :
  for_messages data st = (st', evs, h) ->
  forall p : jsstring,
    (In (Log (str "Downloaded: " ++ p)) evs ->
     exists body, files st' !! resolve p = Some (File body))
    /\ (In (Log (str "Skipped existing image: " ++ p)) evs ->
        existsSync p (files st') = true).
Proof.
  intros H.
  enough (G : kept (files st) (files st')
              /\ forall p : jsstring,
                   (In (Log (str "Downloaded: " ++ p)) evs ->
                    exists body, files st' !! resolve p = Some (File body))
                   /\ (In (Log (str "Skipped existing image: " ++ p)) evs ->
                       existsSync p (files st') = true))
    by apply G.
  revert H.
  apply (for_messages_lift
           (fun _ st evs st' _ =>
              kept (files st) (files st')
              /\ forall p : jsstring,
                   (In (Log (str "Downloaded: " ++ p)) evs ->
                    exists body, files st' !! resolve p = Some (File body))
                   /\ (In (Log (str "Skipped existing image: " ++ p)) evs ->
                       existsSync p (files st') = true)));
    clear data st st' evs h.
  - intros st. split; [apply kept_refl |]. by split; intros [].
  - done.
  - intros ts1 ts2 st1 evs1 st2 evs2 st3 h [K1 A] [K2 B].
    split; [by eapply kept_trans |]. intros p.
    destruct (A p) as [A1 A2]. destruct (B p) as [B1 B2].
    split; intros Hin; apply in_app_or in Hin as [Hin | Hin]; auto.
    + destruct (A1 Hin) as [body Hb]. exists body. by apply K2.
    + eapply existsSync_kept; [exact K2 | by apply A2].
  - intros id i url st st' evs h H.
    split; [apply (attachment_changes _ _ _ _ _ _ _ H) |].
    by apply (attachment_logged _ _ _ _ _ _ _ H).
  - intros a st. split; [apply kept_refl |]. intros p.
    split; intros Hin; by apply In_unnamed in Hin.
  - intros st _. split; [apply kept_refl |]. intros p.
    split; (intros [Hin | []]);
      [ assert (E : stopped_line st = str "Downloaded: " ++ p) by congruence
      | assert (E : stopped_line st = str "Skipped existing image: " ++ p)
          by congruence ];
      vm_compute in E; discriminate E.
Qed.

(** *** Pacing *)




(** *** Runs without an error line *)

Lemma attachment_existing id i url st filepath :
  destination id i url = Some filepath ->
  existsSync filepath (files st) = true ->
  attachment id i url st
  = ({| files := files st;
        downloadCount := downloadCount st;
        skippedCount := S (skippedCount st);
        requests := requests st;
        isShuttingDown := isShuttingDown st;
        pending := pending st |},
     [Log (str "Skipped existing image: " ++ filepath)], None).
Proof. unfold Runner.attachment. by intros -> ->. Qed.

(** A pass through the loop body that goes on without an error line
    leaves the destination in place. *)
Lemma attachment_error_free id i url st st' evs :
  attachment id i url st = (st', evs, None) -> errors evs = 0%nat ->
  exists filepath,
    destination id i url = Some filepath
    /\ existsSync filepath (files st') = true.
Proof.
  attachment_leaves denied https_get SIGINT id i url st;
    intros H; triple H; try done; intros He;
    try (vm_compute in He; discriminate He);
    (eexists; split; [reflexivity |]); cbn [files after_download];
    first [ exact Hexists | apply existsSync_insert_same ].
Qed.

Lemma for_messages_error_free data st st' evs h :
  for_messages data st = (st', evs, h) ->
  kept (files st) (files st')
  /\ (h = None -> errors evs = 0%nat ->
      forall id i url,
        In (id, i, url) (Trace.tasks data) ->
        exists filepath,
          destination id i url = Some filepath
          /\ existsSync filepath (files st') = true).
Proof.
  apply (for_messages_lift
           (fun ts st evs st' h =>
              kept (files st) (files st')
              /\ (h = None -> errors evs = 0%nat ->
                  forall id i url,
                    In (id, i, url) ts ->
                    exists filepath,
                      destination id i url = Some filepath
                      /\ existsSync filepath (files st') = true)));
    clear data st st' evs h.
  - intros st. split; [apply kept_refl |]. by intros _ _ id i url [].
  - intros ts ts' st evs st' h [K _]. by split.
  - intros ts1 ts2 st1 evs1 st2 evs2 st3 h [K1 A] [K2 B].
    split; [by eapply kept_trans |]. intros Hh He id i url Hin.
    apply errors_app_0 in He as [He1 He2].
    apply in_app_or in Hin as [Hin | Hin].
    + destruct (A eq_refl He1 id i url Hin) as (fp & D & X).
      exists fp. split; [done |]. by eapply existsSync_kept.
    + by apply B.
  - intros id i url st st' evs h H.
    split; [apply (attachment_changes _ _ _ _ _ _ _ H) |].
    intros -> He id' i' url' [E | []].
    apply pair_equal_spec in E as [E <-].
    apply pair_equal_spec in E as [<- <-].
    by eapply attachment_error_free.
  - intros a st. split; [apply kept_refl |]. by intros _ _ id i url [].
  - intros st _. split; [apply kept_refl |]. done.
Qed.

Local Abbreviation present := (Runner.present URL_pathname).

(** When every destination exists, the inner loop only skips. *)
Lemma for_urls_present id urls : forall i st,
  present (files st) id i urls ->
  exists evs,
    for_urls id i urls st
    = ({| files := files st;
          downloadCount := downloadCount st;
          skippedCount := skippedCount st + length urls;
          requests := requests st;
          isShuttingDown := isShuttingDown st;
          pending := pending st |}, evs, None)
    /\ Forall is_skip evs /\ length evs = length urls.
Proof.
  induction urls as [| url urls IH]; cbn [Runner.for_urls length];
    intros i st Hp.
  - exists []. rewrite Nat.add_0_r. by destruct st.
  - destruct (Hp 0%nat url eq_refl) as (fp & D & X).
    rewrite Nat.add_0_r in D.
    rewrite (attachment_existing _ _ _ _ _ D X).
    edestruct (IH (S i)) as (evs & -> & F & L).
    { intros j u Hj. cbn [files].
      replace (S i + j)%nat with (i + S j)%nat by lia. by apply Hp. }
    cbn [files downloadCount skippedCount requests isShuttingDown pending].
    eexists. split; [| split].
    + rewrite <- Nat.add_succ_comm. reflexivity.
    + constructor; [by exists fp | exact F].
    + cbn [length app]. by rewrite L.
Qed.

Lemma for_messages_present data : forall st,
  isShuttingDown st = false ->
  Forall (fun m => present (files st) (ID m) 0 (tasks_of m)) data ->
  exists evs,
    for_messages (List.map Plain data) st
    = ({| files := files st;
          downloadCount := downloadCount st;
          skippedCount := skippedCount st + total_tasks data;
          requests := requests st;
          isShuttingDown := false;
          pending := pending st |}, evs, None)
    /\ Forall is_skip evs /\ length evs = total_tasks data.
Proof.
  unfold total_tasks, list_sum.
  induction data as [| m data IH];
    cbn [List.map Runner.for_messages Runner.for_element foldr];
    intros st F Hp.
  - exists []. rewrite Nat.add_0_r. destruct st. cbn in F. by subst.
  - rewrite F. inversion Hp as [| ? ? Pm Pd]; subst.
    rewrite for_message_tasks.
    destruct (for_urls_present (ID m) (tasks_of m) 0 st Pm)
      as (evs1 & -> & F1 & L1).
    edestruct IH as (evs2 & -> & F2 & L2); [| exact Pd |]; [exact F |].
    cbn [files downloadCount skippedCount requests isShuttingDown pending].
    exists (evs1 ++ evs2). split; [| split].
    + by rewrite Nat.add_assoc.
    + by apply Forall_app.
    + rewrite length_app, L1, L2. reflexivity.
Qed.

(** *** Records without attachments, and exports in parts *)

Lemma for_urls_flag id urls i st st' evs h :
  for_urls id i urls st = (st', evs, h) ->
  h = None -> isShuttingDown st' = isShuttingDown st.
Proof.
  apply (for_urls_lift
           (fun _ st _ st' h =>
              h = None -> isShuttingDown st' = isShuttingDown st));
    clear i st st' evs h.
  - done.
  - done.
  - intros _ _ st1 _ st2 _ st3 h A B Hh. rewrite (B Hh). by apply A.
  - intros id' i url st st' evs h H ->.
    exact (attachment_flag _ _ _ _ _ _ _ H).
Qed.

Lemma for_messages_filter data : forall st,
  isShuttingDown st = false ->
  for_messages
    (List.map Plain (List.filter (fun m => negb (no_attachments m)) data)) st
  = for_messages (List.map Plain data) st.
Proof.
  induction data as [| m data IH]; intros st F; [done |].
  cbn [List.filter]. destruct (no_attachments m) eqn:E; cbn [negb];
    cbn [List.map Runner.for_messages Runner.for_element];
    rewrite F; unfold Runner.for_message; rewrite E.
  - rewrite (IH st F).
    by destruct (for_messages (List.map Plain data) st) as [[st2 evs2] h2].
  - destruct (Runner.for_urls _ _ _ _ _ _ _ st) as [[st1 evs1] [h1 |]] eqn:E1;
      [done |].
    rewrite IH; [done |]. rewrite <- F. by eapply for_urls_flag.
Qed.

Lemma for_messages_app data1 data2 : forall st,
  for_messages (data1 ++ data2) st
  = match for_messages data1 st with
    | (st1, evs1, Some h) => (st1, evs1, Some h)
    | (st1, evs1, None) =>
        let '(st2, evs2, h) := for_messages data2 st1 in
        (st2, evs1 ++ evs2, h)
    end.
Proof.
  induction data1 as [| e data1 IH]; cbn [app Runner.for_messages]; intros st.
  - by destruct (for_messages data2 st) as [[st2 evs2] h].
  - destruct (isShuttingDown st); [done |].
    destruct (for_element e st) as [[st1 evs1] [h1 |]]; [done |].
    rewrite IH.
    destruct (for_messages data1 st1) as [[st2 evs2] [h2 |]]; [done |].
    destruct (for_messages data2 st2) as [[st3 evs3] h3].
    by rewrite app_assoc.
Qed.

(** A state with its counters moved on. *)
Local Abbreviation advance d s r st :=
  ({| files := files st;
      downloadCount := d + downloadCount st;
      skippedCount := s + skippedCount st;
      requests := r + requests st;
      isShuttingDown := isShuttingDown st;
      pending := pending st |}).

Section SameReply.

(** The network answers a URL the same way whenever it is asked, and the
    operator does the same at every request. *)
Hypothesis same_reply : forall n m url, https_get n url = https_get m url.
Hypothesis same_signal : forall n m, SIGINT n = SIGINT m.

Lemma attachment_advance d s r id i url st :
  attachment id i url (advance d s r st)
  = let '(st1, evs, h) := attachment id i url st in (advance d s r st1, evs, h).
Proof.
  unfold Runner.attachment.
  cbn [files downloadCount skippedCount requests isShuttingDown pending].
  destruct (destination id i url) as [filepath |]; [| done].
  destruct (existsSync filepath (files st)).
  { cbn [files downloadCount skippedCount requests isShuttingDown pending].
    by rewrite Nat.add_succ_r. }
  rewrite (same_reply (r + requests st) (requests st)),
    (same_signal (r + requests st) (requests st)).
  destruct (createWriteStream denied filepath (files st)) as [fs1 e].
  destruct (downloadFile denied _ url filepath (files st)) as [[fs evs] res].
  destruct (https_get (requests st) url), (first_error (pending st) e),
    (SIGINT (requests st)), res as [[|] | |];
    unfold on_SIGINT, after_download;
    cbn [files downloadCount skippedCount requests isShuttingDown pending];
    by rewrite ?Nat.add_succ_r, ?Nat.add_0_r, ?Nat.add_0_l.
Qed.

Lemma for_urls_advance d s r id urls : forall i st,
  for_urls id i urls (advance d s r st)
  = let '(st1, evs, h) := for_urls id i urls st in (advance d s r st1, evs, h).
Proof.
  induction urls as [| url urls IH]; cbn [Runner.for_urls]; intros i st;
    [done |].
  rewrite attachment_advance.
  destruct (attachment id i url st) as [[st1 evs1] [h1 |]]; [done |].
  rewrite IH. by destruct (for_urls id (S i) urls st1) as [[st2 evs2] h2].
Qed.

Lemma for_messages_advance d s r data : forall st,
  isShuttingDown st = false ->
  for_messages data (advance d s r st)
  = let '(st1, evs, h) := for_messages data st in (advance d s r st1, evs, h).
Proof.
  induction data as [| e data IH]; intros st F; [done |].
  set (st0 := advance d s r st).
  assert (F0 : isShuttingDown st0 = false) by exact F.
  cbn [Runner.for_messages]. rewrite F, F0. subst st0.
  destruct e as [m | a]; cbn [Runner.for_element].
  - rewrite !for_message_tasks, for_urls_advance.
    destruct (for_urls (ID m) 0 (tasks_of m) st) as [[st1 evs1] [h1 |]] eqn:E1;
      [done |].
    rewrite IH by (rewrite <- F; by eapply for_urls_flag).
    by destruct (for_messages data st1) as [[st2 evs2] h2].
  - rewrite (IH st F).
    by destruct (for_messages data st) as [[st2 evs2] h2].
Qed.

End SameReply.

End LoopFacts.

(** *** The tasks of an export *)

Lemma In_tasks_from id urls : forall i id' j url,
  In (id', j, url) (Trace.tasks_from id i urls) <->
  id' = id /\ exists j0, j = (i + j0)%nat /\ urls !! j0 = Some url.
Proof.
  induction urls as [| u urls IH]; intros i id' j url;
    cbn [Trace.tasks_from In].
  - split; [done | by intros (_ & j0 & _ & H)].
  - rewrite IH. split.
    + intros [H | (-> & j0 & -> & H)].
      * apply pair_equal_spec in H as [H <-].
        apply pair_equal_spec in H as [<- <-].
        split; [done |]. exists 0%nat. split; [lia | done].
      * split; [done |]. exists (S j0). split; [lia | done].
    + intros (-> & [| j0] & -> & H).
      * left. cbn in H. apply (inj Some) in H as <-. by rewrite Nat.add_0_r.
      * right. split; [done |]. exists j0. split; [lia | done].
Qed.

Lemma In_tasks data id j url :
  In (id, j, url) (Trace.tasks (List.map Plain data)) <->
  exists m, In m data /\ id = ID m /\ tasks_of m !! j = Some url.
Proof.
  unfold Trace.tasks. rewrite List.in_concat. split.
  - intros (ts & Hts & Hin). apply List.in_map_iff in Hts as (e & <- & He).
    apply List.in_map_iff in He as (m & <- & Hm).
    cbn [Trace.tasks_of_element] in Hin.
    apply In_tasks_from in Hin as (-> & j0 & -> & H). exists m. eauto.
  - intros (m & Hm & -> & H).
    exists (Trace.tasks_from (ID m) 0 (tasks_of m)). split.
    + apply List.in_map_iff. exists (Plain m). split; [done |].
      by apply List.in_map.
    + apply In_tasks_from. split; [done |]. by exists j.
Qed.

Lemma task_urls_from id urls : forall i,
  List.map Trace.task_url (Trace.tasks_from id i urls) = urls.
Proof.
  induction urls as [| u urls IH]; intros i; cbn [Trace.tasks_from List.map];
    [done |].
  by rewrite IH.
Qed.

Lemma task_urls data :
  List.map Trace.task_url (Trace.tasks (List.map Plain data))
  = concat (List.map tasks_of data).
Proof.
  unfold Trace.tasks.
  induction data as [| m data IH]; cbn [List.map concat]; [done |].
  rewrite List.map_app, IH. cbn [Trace.tasks_of_element].
  by rewrite task_urls_from.
Qed.
(** ** Runs *)

Section RunFacts.

Variable URL_pathname : jsstring -> option jsstring.
Variable https_get : nat -> jsstring -> reply.
Variable SIGINT : nat -> signal.
Variable denied : jsstring -> bool.

Local Abbreviation destination := (Runner.destination URL_pathname).
Local Abbreviation for_messages :=
  (Runner.for_messages URL_pathname https_get SIGINT denied).
Local Abbreviation run_elements :=
  (Runner.run_elements URL_pathname https_get SIGINT denied).
Local Abbreviation run := (Runner.run URL_pathname https_get SIGINT denied).

(** The two ways through a run: the download directory cannot be made,
    or the loop is entered. *)
Lemma run_elements_inv data fault fs fs' evs e :
  run_elements data fault fs = (fs', evs, e) ->
  (exists message,
     createDirIfNotExists denied downloadDir fs = (fs', Some message)
     /\ evs = [] /\ e = Settled (Rejected message))
  \/ exists fs0 st evs0 h,
       createDirIfNotExists denied downloadDir fs = (fs0, None)
       /\ for_messages data (initial fs0) = (st, evs0, h)
       /\ fs' = files st
       /\ match h, fault with
          | Some e', _ => evs = evs0 /\ e = e'
          | None, Some message =>
              evs = evs0 /\ e = finish st (Rejected message)
          | None, None =>
              evs = evs0 ++ [Log (complete_line st)]
              /\ e = finish st Fulfilled
          end.
Proof.
  unfold Runner.run_elements.
  destruct (createDirIfNotExists denied downloadDir fs) as [fs0 [message |]].
  - intros H. triple H. left. by exists message.
  - destruct (for_messages data (initial fs0)) as [[st evs0] h] eqn:E.
    intros H. right. exists fs0, st, evs0, h.
    destruct h as [e' |], fault as [message |]; triple H; by repeat split.
Qed.

Lemma ancestors_downloadDir :
  ancestors (resolve downloadDir) ++ [resolve downloadDir] = [str "downloads"].
Proof. vm_compute; reflexivity. Qed.

(** What a run does to the file system. *)
Lemma run_elements_changes data fault fs fs' evs e :
  run_elements data fault fs = (fs', evs, e) ->
  kept fs fs'
  /\ forall (k : jsstring) (n : node),
       fs' !! k = Some n -> fs !! k = None ->
       (k = str "downloads" /\ n = Directory)
       \/ exists id i url filepath body,
            In (id, i, url) (Trace.tasks data)
            /\ destination id i url = Some filepath
            /\ k = resolve filepath /\ n = File body.
Proof.
  intros H.
  assert (Hdir : forall fs0 thrown (k : jsstring) (n : node),
            createDirIfNotExists denied downloadDir fs = (fs0, thrown) ->
            fs0 !! k = Some n -> fs !! k = None ->
            k = str "downloads" /\ n = Directory).
  { intros fs0 thrown k n E Hk Hk0.
    pose proof (createDir_new denied downloadDir fs k n) as N.
    rewrite E in N. destruct (N Hk) as [N' | (_ & -> & Hin)]; [congruence |].
    rewrite ancestors_downloadDir in Hin. by destruct Hin as [<- | []]. }
  destruct (run_elements_inv _ _ _ _ _ _ H)
    as [(message & E & _ & _) | (fs0 & st & evs0 & h & E & L & -> & _)].
  - split.
    + pose proof (createDir_kept denied downloadDir fs) as K. by rewrite E in K.
    + intros k n Hk Hk0. left. by eapply Hdir.
  - pose proof (createDir_kept denied downloadDir fs) as K. rewrite E in K.
    destruct (for_messages_changes _ _ _ _ _ _ _ _ _ L) as [K' N].
    cbn [fst initial files] in *. split; [by eapply kept_trans |].
    intros k n Hk Hk0. destruct (fs0 !! k) as [n0 |] eqn:E0.
    + left. assert (n0 = n) as -> by (apply K' in E0; congruence).
      by eapply Hdir.
    + right. by apply N.
Qed.

(** What a run of records does to the file system: it keeps what is
    there, and what is new is the download directory or a regular file
    at the destination of a task. *)
Lemma run_changes (data : list message) (fs fs' : filesystem)
  (evs : list event) (e : ending) :
  run data fs = (fs', evs, e) ->
  kept fs fs'
  /\ forall (k : jsstring) (n : node),
       fs' !! k = Some n -> fs !! k = None ->
       (k = str "downloads" /\ n = Directory)
       \/ exists m i url filepath body,
            In m data /\ tasks_of m !! i = Some url
            /\ destination (ID m) i url = Some filepath
            /\ k = resolve filepath /\ n = File body.
Proof.
  intros Hrun. unfold Runner.run in Hrun.
  destruct (run_elements_changes _ _ _ _ _ _ Hrun) as [K N].
  split; [exact K |]. intros k n Hk Hk0.
  destruct (N k n Hk Hk0) as [? | (id & i & url & fp & body & Hin & ?)];
    [by left | right].
  apply In_tasks in Hin as (m & Hm & -> & Hi). by exists m, i, url, fp, body.
Qed.

(** When nothing was at the download directory and making it did not
    throw, it is a directory after the run. *)
Lemma run_makes_directory (data : list message) (fs fs' : filesystem)
  (evs : list event) (e : ending) :
  run data fs = (fs', evs, e) ->
  existsSync downloadDir fs = false ->
  (forall message, e <> Settled (Rejected message)) ->
  fs' !! str "downloads" = Some Directory.
Proof.
  intros Hrun Hno He. unfold Runner.run in Hrun.
  destruct (run_elements_inv _ _ _ _ _ _ Hrun)
    as [(message & _ & _ & X) | (fs0 & st & evs0 & h & E & L & -> & _)];
    [by destruct (He message) |].
  apply (for_messages_kept _ _ _ _ _ _ _ _ _ L). cbn [initial files].
  unfold Fetch.createDirIfNotExists in E. rewrite Hno in E. cbn [negb] in E.
  apply mkdirs_done in E. rewrite ancestors_downloadDir in E.
  inversion E as [| ? ? D _]; subst. unfold is_directory in D.
  destruct (fs0 !! str "downloads") as [[] |]; try done;
    vm_compute in D; discriminate D.
Qed.

(** X9 ([downloadAllAttachments], the loop): a run keeps every entry of
    the file system as it is; what it adds is the download directory,
    made as a directory, and regular files at destinations of tasks of
    the export, at paths that named nothing; and when nothing was at the
    download directory and making it did not throw, it is a directory
    after the run. *)
Theorem run_changes_only_destinations (data : list message)
  (fs fs' : filesystem) (evs : list event) (e : ending) :
  run data fs = (fs', evs, e) ->
  (forall (k : jsstring) (n : node), fs !! k = Some n -> fs' !! k = Some n)
  /\ (forall (k : jsstring) (n : node),
        fs' !! k = Some n -> fs !! k = None ->
        (k = str "downloads" /\ n = Directory)
        \/ exists m i url filepath body,
             In m data /\ tasks_of m !! i = Some url
             /\ destination (ID m) i url = Some filepath
             /\ k = resolve filepath /\ n = File body)
  /\ (existsSync downloadDir fs = false ->
      (forall message, e <> Settled (Rejected message)) ->
      fs' !! str "downloads" = Some Directory).
Proof.
  intros Hrun. destruct (run_changes _ _ _ _ _ Hrun) as [K N].
  split; [exact K |]. split; [exact N |].
  by apply (run_makes_directory data fs fs' evs e).
Qed.

(** The entries other than the download directory and the destinations
    of the tasks are as they were. *)
Lemma run_frame (data : list message) (fs fs' : filesystem)
  (evs : list event) (e : ending) (k : jsstring) :
  run data fs = (fs', evs, e) ->
  k <> str "downloads" ->
  (forall m i url filepath,
     In m data -> tasks_of m !! i = Some url ->
     destination (ID m) i url = Some filepath -> k <> resolve filepath) ->
  fs' !! k = fs !! k.
Proof.
  intros Hrun Hdir Hk.
  destruct (run_changes _ _ _ _ _ Hrun) as (K & N).
  destruct (fs !! k) as [n |] eqn:E; [by apply K |].
  destruct (fs' !! k) as [n |] eqn:E'; [| done]. exfalso.
  destruct (N k n E' E)
    as [[? _] | (m & i & url & fp & body & Hm & Hi & Hd & -> & _)];
    [done |].
  by apply (Hk m i url fp).
Qed.

(** X10 ([downloadAllAttachments], the loop): when no identifier of the
    export holds a slash, a run changes nothing outside the download
    directory: every path other than [downloads] and the paths
    [downloads/name] names after the run what it named before. *)
Theorem run_writes_in_download_directory (data : list message)
  (fs fs' : filesystem) (evs : list event) (e : ending) (k : jsstring) :
  Forall (fun m => Forall (fun c => c <> SLASH) (ID m)) data ->
  run data fs = (fs', evs, e) ->
  k <> str "downloads" ->
  (forall name, k <> str "downloads/" ++ name) ->
  fs' !! k = fs !! k.
Proof.
  intros Hids Hrun Hdir Hk.
  eapply run_frame; [exact Hrun | exact Hdir |].
  intros m i url filepath Hm _ Hd.
  destruct (destination_shape URL_pathname (ID m) i url filepath)
    as (name & _ & Hf & _ & Hr); [| done |].
  - by apply (proj1 (List.Forall_forall _ _) Hids m Hm).
  - rewrite Hr, Hf. apply Hk.
Qed.

(** How the loop of a run of records ends. *)
Lemma run_inv (data : list message) (fs fs' : filesystem)
  (evs : list event) (e : ending) :
  run data fs = (fs', evs, e) ->
  (exists message,
     createDirIfNotExists denied downloadDir fs = (fs', Some message)
     /\ evs = [] /\ e = Settled (Rejected message))
  \/ exists fs0 st evs0,
       createDirIfNotExists denied downloadDir fs = (fs0, None)
       /\ fs' = files st
       /\ Trace.stopped_lines evs0 = 0%nat
       /\ ((for_messages (List.map Plain data) (initial fs0) = (st, evs0, None)
            /\ isShuttingDown st = false
            /\ evs = evs0 ++ [Log (complete_line st)]
            /\ e = finish st Fulfilled)
           \/ (for_messages (List.map Plain data) (initial fs0)
               = (st, evs0, Some e)
               /\ evs = evs0
               /\ match e with
                  | Exited status => status = 0%nat
                  | Crashed _ | Stalled => True
                  | _ => False
                  end)).
Proof.
  intros Hrun. unfold Runner.run in Hrun.
  destruct (run_elements_inv _ _ _ _ _ _ Hrun)
    as [? | (fs0 & st & evs0 & h & E & L & -> & M)]; [by left | right].
  exists fs0, st, evs0. split; [exact E |]. split; [done |].
  destruct (for_messages_flag _ _ _ _ _ _ _ _ _ L eq_refl) as [S0 G].
  split; [exact S0 |].
  destruct h as [e' |]; destruct M as [-> ->]; [right | by left].
  split; [done |]. split; [done |]. by destruct e'.
Qed.

(** X11 ([downloadAllAttachments], the loop and the summary): a run that
    reaches its end prints one summary line, its last line of the loop,
    which reports as downloads the number of [Downloaded:] lines and as
    skips the number of [Skipped existing image:] lines before it; a run
    that ends earlier prints no summary line; and in every run the
    delays of the timers awaited add up to 700 ms for each [Downloaded:]
    line, each of which had a request. *)
Theorem summary_counts_the_lines (data : list message)
  (fs fs' : filesystem) (evs : list event) (e : ending) :
  run data fs = (fs', evs, e) ->
  Trace.waited evs = (700 * Trace.downloaded_lines evs)%nat
  /\ (Trace.downloaded_lines evs <= length (Trace.requested evs))%nat
  /\ match e with
     | Settled Fulfilled | Doomed Fulfilled _ =>
         exists st evs0,
           evs = evs0 ++ [Log (complete_line st)]
           /\ downloadCount st = Trace.downloaded_lines evs0
           /\ skippedCount st = Trace.skipped_lines evs0
           /\ Trace.summary_lines evs = 1%nat
     | _ => Trace.summary_lines evs = 0%nat
     end.
Proof.
  intros Hrun.
  destruct (run_inv _ _ _ _ _ Hrun)
    as [(message & _ & -> & ->)
       | (fs0 & st & evs0 & _ & -> & _ & [(L & _ & -> & ->) | (L & -> & G)])].
  - by repeat split.
  - destruct (for_messages_counts _ _ _ _ _ _ _ _ _ L)
      as (A1 & A2 & A3 & A4 & _ & A6 & _).
    cbn [initial downloadCount skippedCount] in A1, A2.
    rewrite waited_app, downloaded_lines_app, requested_app, length_app.
    assert (Hc : Trace.waited [Log (complete_line st)] = 0%nat
                 /\ Trace.downloaded_lines [Log (complete_line st)] = 0%nat
                 /\ Trace.summary_lines [Log (complete_line st)] = 1%nat).
    { split; [done |]. split; [by count_lines |].
      unfold Trace.summary_lines. cbn [List.filter].
      change (complete_line st)
        with ((10 :: str "Download complete!")
                ++ str " Total files downloaded: "
                ++ dec (downloadCount st) ++ str ", skipped: "
                ++ dec (skippedCount st)).
      by rewrite opens_with_prefix. }
    destruct Hc as (C1 & C2 & C3).
    split; [lia |]. split; [lia |].
    assert (G : exists st' evs',
              evs0 ++ [Log (complete_line st)]
              = evs' ++ [Log (complete_line st')]
              /\ downloadCount st' = Trace.downloaded_lines evs'
              /\ skippedCount st' = Trace.skipped_lines evs'
              /\ Trace.summary_lines (evs0 ++ [Log (complete_line st)])
                 = 1%nat).
    { exists st, evs0. rewrite summary_lines_app.
      repeat split; [lia | lia | lia]. }
    unfold finish. by destruct (pending st).
  - destruct (for_messages_counts _ _ _ _ _ _ _ _ _ L)
      as (_ & _ & A3 & A4 & _ & A6 & _).
    split; [done |]. split; [done |]. by destruct e as [[] | [] | | |].
Qed.

(** X12 ([downloadAllAttachments], the loop): the URLs requested in a run,
    in the order of the requests, are tasks of the export in the order of
    the export, each task requested at most once; nothing else is ever
    requested. *)
Theorem requests_follow_the_tasks (data : list message) (fs : filesystem) :
  sublist (Trace.requested (snd (fst (run data fs))))
    (concat (List.map tasks_of data))
  /\ (length (Trace.requested (snd (fst (run data fs)))) <= total_tasks data)%nat.
Proof.
  assert (G : sublist (Trace.requested (snd (fst (run data fs))))
                (concat (List.map tasks_of data))).
  { destruct (run_inv _ _ _ _ _ (triple_eta (run data fs)))
      as [(message & _ & -> & _)
         | (fs0 & st & evs0 & _ & _ & _ & [(L & _ & -> & _) | (L & -> & _)])].
    - apply sublist_nil_l.
    - destruct (for_messages_counts _ _ _ _ _ _ _ _ _ L)
        as (_ & _ & _ & _ & _ & _ & A).
      rewrite task_urls in A. rewrite requested_app. cbn.
      by rewrite app_nil_r.
    - destruct (for_messages_counts _ _ _ _ _ _ _ _ _ L)
        as (_ & _ & _ & _ & _ & _ & A).
      by rewrite task_urls in A. }
  split; [exact G |].
  apply sublist_length in G. etrans; [exact G |].
  unfold total_tasks, list_sum. clear.
  induction data as [| m data IH]; cbn [concat List.map foldr length];
    [lia |].
  rewrite length_app. lia.
Qed.

(** X13 ([downloadAllAttachments], the loop): what the lines of a run say
    of files holds when the run ends: a path that a [Downloaded:] line
    names is a regular file, and a path that a [Skipped existing image:]
    line names exists, since nothing that exists is removed later in the
    run. *)
Theorem logged_files_are_there (data : list message) (fs : filesystem)
  (p : jsstring) :
  let '(fs', evs, _) := run data fs in
  (In (Log (str "Downloaded: " ++ p)) evs ->
   exists body, fs' !! resolve p = Some (File body))
  /\ (In (Log (str "Skipped existing image: " ++ p)) evs ->
      existsSync p fs' = true).
Proof.
  destruct (run data fs) as [[fs' evs] e] eqn:Hrun.
  destruct (run_inv _ _ _ _ _ Hrun)
    as [(message & _ & -> & _)
       | (fs0 & st & evs0 & _ & -> & _ & [(L & _ & -> & _) | (L & -> & _)])].
  - by split; intros [].
  - destruct (for_messages_logged _ _ _ _ _ _ _ _ _ L p) as [A1 A2].
    split; intros Hin; apply in_app_or in Hin as [Hin | [Hin | []]]; auto;
      exfalso.
    + assert (E : complete_line st = str "Downloaded: " ++ p) by congruence.
      vm_compute in E. discriminate E.
    + assert (E : complete_line st = str "Skipped existing image: " ++ p)
        by congruence.
      vm_compute in E. discriminate E.
  - by apply (for_messages_logged _ _ _ _ _ _ _ _ _ L p).
Qed.

(** X14 ([downloadAllAttachments], the guard of the loop): the records
    without attachments (no field, an empty or a blank one) play no
    part: the run of an export and the run of the export without these
    records leave the same files, print the same lines and end the same
    way. *)
Theorem records_without_attachments_play_no_part
  (data : list message) (fs : filesystem) :
  run (List.filter (fun m => negb (no_attachments m)) data) fs = run data fs.
Proof.
  unfold Runner.run, Runner.run_elements.
  destruct (createDirIfNotExists denied downloadDir fs) as [fs0 [message |]];
    [done |].
  by rewrite for_messages_filter.
Qed.


Section SameReply.

(** The network answers a URL the same way whenever it is asked, and the
    operator does the same at every request. *)
Hypothesis same_reply : forall n m url, https_get n url = https_get m url.
Hypothesis same_signal : forall n m, SIGINT n = SIGINT m.

(** X15 ([downloadAllAttachments]): an export may be processed in parts.
    When the network answers each URL the same way whenever it is
    asked, the operator acts the same way at every request, the run on
    the first part of an export reaches its end without an error line
    and the run on the rest, on the files the first left, reaches its
    end with nothing uncaught, the run on the whole export reaches its
    end too, prints, summaries apart, the lines of the two runs, leaves
    the files of the second, and reports as totals the sums of the
    totals of the two. (Without an error line every file the first part
    touched is complete when its line is printed, so that nothing
    depends on the time an operation on a file takes after a failed
    attempt.) *)
Theorem runs_compose (data1 data2 : list message)
  (fs fs1 fs2 : filesystem) (evs1 evs2 : list event) :
  run data1 fs = (fs1, evs1, Settled Fulfilled) ->
  errors evs1 = 0%nat ->
  run data2 fs1 = (fs2, evs2, Settled Fulfilled) ->
  exists (st1 st2 : state) (body1 body2 : list event),
    evs1 = body1 ++ [Log (complete_line st1)]
    /\ evs2 = body2 ++ [Log (complete_line st2)]
    /\ downloadCount st1 = Trace.downloaded_lines body1
    /\ skippedCount st1 = Trace.skipped_lines body1
    /\ downloadCount st2 = Trace.downloaded_lines body2
    /\ skippedCount st2 = Trace.skipped_lines body2
    /\ run (data1 ++ data2) fs
       = (fs2,
          body1 ++ body2
            ++ [Log (10 :: str "Download complete! Total files downloaded: "
                       ++ dec (downloadCount st1 + downloadCount st2)
                       ++ str ", skipped: "
                       ++ dec (skippedCount st1 + skippedCount st2))],
          Settled Fulfilled).
Proof.
  intros R1 _ R2.
  destruct (run_inv _ _ _ _ _ R1)
    as [(message & _ & _ & X)
       | (fs0 & st1 & body1 & E1 & -> & _
          & [(L1 & F1 & -> & Hf1) | (_ & _ & X)])];
    [discriminate X | | done].
  assert (Hdir : createDirIfNotExists denied downloadDir (files st1)
                 = (files st1, None)).
  { apply createDir_existing.
    eapply existsSync_kept;
      [exact (for_messages_kept _ _ _ _ _ _ _ _ _ L1) |].
    by eapply createDir_done. }
  destruct (run_inv _ _ _ _ _ R2)
    as [(message & _ & _ & X)
       | (fs0' & st2 & body2 & E2 & -> & _
          & [(L2 & F2 & -> & Hf2) | (_ & _ & X)])];
    [discriminate X | | done].
  rewrite Hdir in E2. apply pair_equal_spec in E2 as [<- _].
  destruct (for_messages_counts _ _ _ _ _ _ _ _ _ L1) as (A1 & A2 & _).
  destruct (for_messages_counts _ _ _ _ _ _ _ _ _ L2) as (B1 & B2 & _).
  cbn [initial downloadCount skippedCount] in A1, A2, B1, B2.
  exists st1, st2, body1, body2. repeat split; try done.
  assert (P1 : pending st1 = None)
    by (unfold finish in Hf1; by destruct (pending st1)).
  assert (P2 : pending st2 = None)
    by (unfold finish in Hf2; by destruct (pending st2)).
  assert (Hst : st1
                = {| files := files (initial (files st1));
                     downloadCount :=
                       downloadCount st1 + downloadCount (initial (files st1));
                     skippedCount :=
                       skippedCount st1 + skippedCount (initial (files st1));
                     requests := requests st1 + requests (initial (files st1));
                     isShuttingDown := isShuttingDown (initial (files st1));
                     pending := pending (initial (files st1)) |}).
  { destruct st1. cbn [initial files downloadCount skippedCount requests
                       isShuttingDown pending] in *.
    rewrite !Nat.add_0_r. by subst. }
  unfold Runner.run, Runner.run_elements. rewrite E1, List.map_app.
  rewrite for_messages_app, L1, Hst.
  rewrite (for_messages_advance _ _ _ _ same_reply same_signal) by done.
  rewrite L2. unfold finish, complete_line.
  cbn [initial files downloadCount skippedCount pending]. rewrite P2.
  by rewrite !Nat.add_0_r, <- app_assoc.
Qed.

End SameReply.

End RunFacts.
(** ** The program *)

Section MainFacts.

Variable URL_pathname : jsstring -> option jsstring.
Variable https_get : nat -> jsstring -> reply.
Variable SIGINT : nat -> signal.
Variable denied : jsstring -> bool.
Variable Number_toString : spec_float -> jsstring.

Local Abbreviation downloadAllAttachments :=
  (Runner.downloadAllAttachments URL_pathname https_get SIGINT denied
     Number_toString).
Local Abbreviation main :=
  (Runner.main URL_pathname https_get SIGINT denied Number_toString).

(** The ways through [downloadAllAttachments]: a failure at start-up, or
    a run over the elements of the export. *)
Lemma downloadAllAttachments_inv fs fs' evs e :
  downloadAllAttachments fs = (fs', evs, e) ->
  (exists message,
     fs' = fst (createDirIfNotExists denied dataDir fs)
     /\ evs = [] /\ e = Settled (Rejected message))
  \/ exists data fault,
       run_elements URL_pathname https_get SIGINT denied data fault
         (fst (createDirIfNotExists denied dataDir fs))
       = (fs', evs, e).
Proof.
  unfold Runner.downloadAllAttachments.
  destruct (createDirIfNotExists denied dataDir fs) as [fs1 [message |]];
    cbn [fst].
  { intros H. triple H. left. by exists message. }
  destruct (negb (existsSync messagesPath fs1)).
  { intros H. triple H. left. by exists not_found. }
  destruct (readFile messagesPath fs1) as [data | message].
  - destruct (elements_of Number_toString data) as [es fault].
    intros H. right. by exists es, fault.
  - intros H. triple H. left. by exists message.
Qed.

(** What the last line of the script adds to the events, and the exit
    status. *)
Lemma main_events fs :
  main fs
  = let '(fs', evs, e) := downloadAllAttachments fs in
    (fs',
     evs ++ match e with
            | Settled (Rejected message) => [LogErrorObject message]
            | Doomed (Rejected message) uncaught =>
                [LogErrorObject message; Fatal uncaught]
            | Doomed Fulfilled uncaught | Crashed uncaught => [Fatal uncaught]
            | _ => []
            end,
     exit_status (match e with
                  | Settled (Rejected _) => Settled Fulfilled
                  | _ => e
                  end)).
Proof.
  unfold Runner.main.
  destruct (Runner.downloadAllAttachments _ _ _ _ _ fs) as [[fs' evs] e].
  destruct e as [[| message] | [| message] uncaught | status | uncaught |];
    cbn [catch_console_error]; rewrite <- ?app_assoc, ?app_nil_r; reflexivity.
Qed.

(** C7, amended: when the data directory cannot be made, when the input
    file is missing, and when it is there and cannot be read or parsed,
    nothing is downloaded, the error is printed with [console.error],
    and the exit status is 0; and when the promise of
    [downloadAllAttachments] is fulfilled with nothing uncaught, nothing
    more is printed and the exit status is 0. *)
Theorem startup_failure_reported_exit_status_0 (fs : filesystem) :
  let fs1 := fst (createDirIfNotExists denied dataDir fs) in
  let thrown := snd (createDirIfNotExists denied dataDir fs) in
  (forall message,
     thrown = Some message ->
     main fs = (fs1, [LogErrorObject message], 0%nat)) /\
  (thrown = None ->
   existsSync messagesPath fs1 = false ->
   main fs = (fs1, [LogErrorObject not_found], 0%nat)) /\
  (forall message,
     thrown = None ->
     existsSync messagesPath fs1 = true ->
     readFile messagesPath fs1 = Throw message ->
     main fs = (fs1, [LogErrorObject message], 0%nat)) /\
  (forall fs' evs,
     downloadAllAttachments fs = (fs', evs, Settled Fulfilled) ->
     main fs = (fs', evs, 0%nat)).
Proof.
  cbv zeta. rewrite main_events. unfold Runner.downloadAllAttachments.
  destruct (createDirIfNotExists denied dataDir fs) as [fs1 thrown].
  cbn [fst snd]. split; [| split; [| split]].
  - by intros message ->.
  - by intros -> ->.
  - by intros message -> -> ->.
  - intros fs' evs ->. by rewrite app_nil_r.
Qed.

Lemma downloadAllAttachments_kept fs fs' evs e :
  downloadAllAttachments fs = (fs', evs, e) -> kept fs fs'.
Proof.
  intros H. pose proof (createDir_kept denied dataDir fs) as K.
  destruct (downloadAllAttachments_inv _ _ _ _ H)
    as [(message & -> & _) | (data & fault & R)]; [exact K |].
  eapply kept_trans; [exact K |].
  apply (run_elements_changes _ _ _ _ _ _ _ _ _ _ R).
Qed.

(** X8 (the program): whatever the export holds and whatever the
    network, the operator and the operating system do, every file and
    directory that was there when the program started is there when it
    ends, with the content it had: nothing is overwritten, truncated or
    removed. *)
Theorem existing_files_are_kept (fs fs' : filesystem) (evs : list event)
  (status : nat) (k : jsstring) (n : node) :
  main fs = (fs', evs, status) ->
  fs !! k = Some n -> fs' !! k = Some n.
Proof.
  rewrite main_events.
  destruct (downloadAllAttachments fs) as [[fs0 evs0] e] eqn:E.
  intros H. triple H. by apply (downloadAllAttachments_kept _ _ _ _ E).
Qed.

(** The line of the shutdown check is never printed. *)
Lemma downloadAllAttachments_never_stopped fs :
  Trace.stopped_lines (snd (fst (downloadAllAttachments fs))) = 0%nat.
Proof.
  destruct (downloadAllAttachments_inv _ _ _ _
              (triple_eta (downloadAllAttachments fs)))
    as [(message & _ & -> & _) | (data & fault & R)]; [done |].
  destruct (run_elements_inv _ _ _ _ _ _ _ _ _ _ R)
    as [(message & _ & -> & _) | (fs0 & st & evs0 & h & _ & L & _ & M)];
    [done |].
  destruct (for_messages_flag _ _ _ _ _ _ _ _ _ L eq_refl) as [S0 _].
  destruct h as [e' |], fault as [message |]; destruct M as [-> _];
    try exact S0.
  rewrite stopped_lines_app, S0. by count_lines.
Qed.

End MainFacts.

(** C7, as stated, fails: with no input file the error is printed and the
    exit status is 0. *)
Lemma missing_input_exit_status_0 :
  existsSync messagesPath ∅ = false /\
  main Sample.URL_pathname Sample.always_ok Sample.quiet Sample.nothing_denied
    Sample.Number_toString ∅
  = ({[ str "data" := Directory ]}, [LogErrorObject not_found], 0%nat).
Proof. split; vm_compute; reflexivity. Qed.

Lemma startup_failure_reported_exit_status_0_witness :
  main Sample.URL_pathname Sample.always_ok Sample.quiet Sample.nothing_denied
    Sample.Number_toString ∅
  = ({[ str "data" := Directory ]}, [LogErrorObject not_found], 0%nat)
  /\ main Sample.URL_pathname Sample.always_ok Sample.quiet
       Sample.nothing_denied Sample.Number_toString
       {[ str "data" := Directory; resolve messagesPath := Directory ]}
     = ({[ str "data" := Directory; resolve messagesPath := Directory ]},
        [LogErrorObject (str "EISDIR: illegal operation on a directory, read")],
        0%nat)
  /\ main Sample.URL_pathname Sample.always_ok Sample.quiet
       Sample.nothing_denied Sample.Number_toString
       {[ str "data" := File (str "x") ]}
     = ({[ str "data" := File (str "x") ]}, [LogErrorObject not_found], 0%nat).
Proof.
  split; [| split].
  - etrans;
      [ apply (proj1 (proj2 (startup_failure_reported_exit_status_0
                 Sample.URL_pathname Sample.always_ok Sample.quiet
                 Sample.nothing_denied Sample.Number_toString ∅)));
        vm_compute; reflexivity
      | vm_compute; reflexivity ].
  - etrans;
      [ apply (proj1 (proj2 (proj2 (startup_failure_reported_exit_status_0
                 Sample.URL_pathname Sample.always_ok Sample.quiet
                 Sample.nothing_denied Sample.Number_toString
                 {[ str "data" := Directory;
                    resolve messagesPath := Directory ]}))));
        vm_compute; reflexivity
      | vm_compute; reflexivity ].
  - etrans;
      [ apply (proj1 (proj2 (startup_failure_reported_exit_status_0
                 Sample.URL_pathname Sample.always_ok Sample.quiet
                 Sample.nothing_denied Sample.Number_toString
                 {[ str "data" := File (str "x") ]})));
        vm_compute; reflexivity
      | vm_compute; reflexivity ].
Defined.
(** ** Runs that end early *)

(** C8, at the failing inputs. The export holds two records with one
    attachment each. When the response to the first request has status
    200 and is cut short, the promise of [downloadFile] never settles:
    no error line is printed, the second record is never looked at, no
    summary is printed, and the process ends with status 0, the part of
    the file that arrived left in place. When the identifier of the
    first record holds a slash, the write stream cannot open its file
    below the download directory and nothing listens to its error: the
    process ends with status 1 before a request is sent, and the second
    record is never looked at. *)
Theorem one_attachment_ends_the_run :
  main Sample.URL_pathname Sample.always_truncated Sample.quiet
    Sample.nothing_denied Sample.Number_toString
    (Sample.with_export Sample.two_records)
  = (<[ str "downloads/1_1.jpg" := File [120] ]>
       (<[ str "downloads" := Directory ]>
          (Sample.with_export Sample.two_records)),
     [Request (str "https://x/a.jpg")], 0%nat)
  /\ main Sample.URL_pathname Sample.always_ok Sample.quiet
       Sample.nothing_denied Sample.Number_toString
       (Sample.with_export Sample.slash_records)
     = (<[ str "downloads" := Directory ]>
          (Sample.with_export Sample.slash_records),
        [Fatal (str "ENOENT: no such file or directory")], 1%nat).
Proof. split; vm_compute; reflexivity. Qed.

(** When [https.get] refuses the URL of an attachment whose file cannot
    be opened either, the error line is printed and the loop goes on to
    its end; the error of the write stream is uncaught after that. *)
Lemma uncaught_after_the_summary :
  main Sample.URL_pathname Sample.https_only Sample.quiet
    Sample.nothing_denied Sample.Number_toString
    (Sample.with_export Sample.slash_http_record)
  = (<[ str "downloads" := Directory ]>
       (Sample.with_export Sample.slash_http_record),
     [ LogError (error_line (str "http://x/a.jpg") Sample.not_supported);
       Log (10 :: str "Download complete! Total files downloaded: 0, skipped: 0");
       Fatal (str "ENOENT: no such file or directory") ],
     1%nat).
Proof. vm_compute; reflexivity. Qed.

(** C9, at the failing input, and in general. The export holds two
    records with one attachment each and the operator sends [SIGINT]
    during the first request: the handler prints its line and ends the
    process; the line of the shutdown check with the counters is not
    printed, and the file of the request in flight is left in place.
    In no run at all is the line of the shutdown check printed: the
    check never finds the flag set, as the only place that sets it ends
    the process. *)
Theorem interrupt_prints_no_counters :
  main Sample.URL_pathname Sample.always_ok Sample.interrupts_first
    Sample.nothing_denied Sample.Number_toString
    (Sample.with_export Sample.two_records)
  = (<[ str "downloads/1_1.jpg" := File [] ]>
       (<[ str "downloads" := Directory ]>
          (Sample.with_export Sample.two_records)),
     [ Request (str "https://x/a.jpg");
       Log (10 :: 10 :: str "Download stopped by user.") ],
     0%nat)
  /\ forall (URL_pathname : jsstring -> option jsstring)
       (https_get : nat -> jsstring -> reply) (SIGINT : nat -> signal)
       (denied : jsstring -> bool) (Number_toString : spec_float -> jsstring)
       (fs : filesystem),
       Trace.stopped_lines
         (snd (fst (downloadAllAttachments URL_pathname https_get SIGINT
                      denied Number_toString fs)))
       = 0%nat.
Proof.
  split; [vm_compute; reflexivity |].
  intros. apply downloadAllAttachments_never_stopped.
Qed.

(** ** Running twice *)

(** C5, amended: an attachment whose destination exists is counted as
    skipped and no request is sent for it; and when a first run ran to
    its end and printed no error line, a second run on the same records
    and the files the first run left, whatever the network, the operator
    and the operating system do then, sends no request, leaves the files
    as they are, prints one skip line for each attachment and reports 0
    downloads and all attachments skipped. *)
Theorem second_run_skips_everything
  (URL_pathname : jsstring -> option jsstring)
  (net1 net2 : nat -> jsstring -> reply) (sig1 sig2 : nat -> signal)
  (denied1 denied2 : jsstring -> bool)
  (data : list message) (fs fs1 : filesystem) (evs1 : list event) :
  run URL_pathname net1 sig1 denied1 data fs = (fs1, evs1, Settled Fulfilled) ->
  errors evs1 = 0%nat ->
  (forall id i url st filepath,
     destination URL_pathname id i url = Some filepath ->
     existsSync filepath (files st) = true ->
     attachment URL_pathname net2 sig2 denied2 id i url st
     = ({| files := files st;
           downloadCount := downloadCount st;
           skippedCount := S (skippedCount st);
           requests := requests st;
           isShuttingDown := isShuttingDown st;
           pending := pending st |},
        [Log (str "Skipped existing image: " ++ filepath)], None)) /\
  exists skips,
    run URL_pathname net2 sig2 denied2 data fs1
    = (fs1,
       skips ++ [Log (10 :: str "Download complete! Total files downloaded: "
                         ++ dec 0 ++ str ", skipped: "
                         ++ dec (total_tasks data))],
       Settled Fulfilled)
    /\ Forall is_skip skips
    /\ List.filter is_request skips = []
    /\ length skips = total_tasks data.
Proof.
  intros Hrun He. split; [apply attachment_existing |].
  destruct (run_inv _ _ _ _ _ _ _ _ _ Hrun)
    as [(message & _ & _ & X)
       | (fs0 & st & evs0 & E & -> & _ & [(L & _ & -> & Hf) | (_ & _ & X)])];
    [discriminate X | | done].
  apply errors_app_0 in He as [He _].
  destruct (for_messages_error_free _ _ _ _ _ _ _ _ _ L) as [K P].
  specialize (P eq_refl He).
  assert (Hp : Forall (fun m => present URL_pathname (files st) (ID m) 0
                                  (tasks_of m)) data).
  { apply List.Forall_forall. intros m Hm j url Hj. apply P.
    apply In_tasks. by exists m. }
  assert (Hdir : createDirIfNotExists denied2 downloadDir (files st)
                 = (files st, None)).
  { apply createDir_existing. eapply existsSync_kept; [exact K |].
    by eapply createDir_done. }
  destruct (for_messages_present URL_pathname net2 sig2 denied2 data
              (initial (files st)) eq_refl Hp) as (skips & E2 & F & Len).
  exists skips. unfold run, run_elements. rewrite Hdir, E2.
  split; [reflexivity |]. split; [exact F |]. split; [| exact Len].
  clear -F. induction F as [| e evs [p ->] _ IH]; simpl; auto.
Qed.

Lemma second_run_skips_everything_witness :
  let data := [ {| ID := str "1";
                   Attachments := Some (str "https://x/a.jpg https://x/b.png") |} ] in
  let r1 := run Sample.URL_pathname Sample.always_ok Sample.quiet
              Sample.nothing_denied data ∅ in
  errors (snd (fst r1)) = 0%nat /\
  exists skips,
    run Sample.URL_pathname Sample.always_reset Sample.quiet
      Sample.nothing_denied data (fst (fst r1))
    = (fst (fst r1),
       skips ++ [Log (10 :: str "Download complete! Total files downloaded: "
                         ++ dec 0 ++ str ", skipped: "
                         ++ dec (total_tasks data))],
       Settled Fulfilled)
    /\ length skips = 2%nat.
Proof.
  cbv zeta. split; [vm_compute; reflexivity |].
  set (d := [ {| ID := str "1";
                 Attachments := Some (str "https://x/a.jpg https://x/b.png") |} ]).
  set (r1 := run Sample.URL_pathname Sample.always_ok Sample.quiet
               Sample.nothing_denied d ∅).
  destruct (second_run_skips_everything Sample.URL_pathname Sample.always_ok
              Sample.always_reset Sample.quiet Sample.quiet
              Sample.nothing_denied Sample.nothing_denied
              d ∅ (fst (fst r1)) (snd (fst r1)))
    as (_ & skips & E & _ & _ & L).
  - vm_compute; reflexivity.
  - vm_compute; reflexivity.
  - exists skips. split; [exact E | exact L].
Defined.

(** C5, as stated, fails: a URL that does not parse is never counted as
    skipped, and an attachment whose first transfer was reset is
    downloaded by the second run. *)
Lemma second_run_downloads_after_reset :
  let data := [ {| ID := str "1";
                   Attachments := Some (str "nonsense https://x/b.png") |} ] in
  exists fs1 evs1 fs2,
    run Sample.URL_pathname Sample.always_reset Sample.quiet
      Sample.nothing_denied data ∅
    = (fs1, evs1, Settled Fulfilled)
    /\ run Sample.URL_pathname Sample.always_ok Sample.quiet
         Sample.nothing_denied data fs1
       = (fs2,
          [ LogError (str "Error downloading nonsense: Invalid URL");
            Request (str "https://x/b.png");
            Log (str "Downloaded: downloads/1_2.png");
            Sleep 700;
            Log (10 :: str "Download complete! Total files downloaded: 1, skipped: 0") ],
          Settled Fulfilled)
    /\ total_tasks data = 2%nat.
Proof. cbv zeta. do 3 eexists. repeat split; vm_compute; reflexivity. Qed.

(** ** Pacing *)



(** ** Sample runs *)

Lemma existing_files_are_kept_witness :
  let fs := Sample.with_export Sample.example_export in
  fst (fst (main Sample.URL_pathname Sample.always_reset Sample.quiet
              Sample.nothing_denied Sample.Number_toString fs))
    !! resolve messagesPath
  = Some (File Sample.example_export).
Proof.
  cbv zeta.
  apply (existing_files_are_kept Sample.URL_pathname Sample.always_reset
           Sample.quiet Sample.nothing_denied Sample.Number_toString
           _ _ _ _ _ _ (triple_eta _)).
  vm_compute; reflexivity.
Defined.

Lemma run_changes_only_destinations_witness :
  let data := [ {| ID := str "1"; Attachments := Some (str "https://x/a.jpg") |} ] in
  let fs := Sample.with_export Sample.example_export in
  let r := run Sample.URL_pathname Sample.always_ok Sample.quiet
             Sample.nothing_denied data fs in
  fst (fst r) !! resolve messagesPath = Some (File Sample.example_export)
  /\ fst (fst r) !! str "downloads" = Some Directory.
Proof.
  cbv zeta.
  set (r := run Sample.URL_pathname Sample.always_ok Sample.quiet
              Sample.nothing_denied _ _).
  destruct (run_changes_only_destinations Sample.URL_pathname Sample.always_ok
              Sample.quiet Sample.nothing_denied _ _ _ _ _ (triple_eta r))
    as (K & _ & D).
  split.
  - apply K. vm_compute; reflexivity.
  - apply D; [vm_compute; reflexivity |]. intros message.
    vm_compute. discriminate.
Defined.

Lemma run_writes_in_download_directory_witness :
  let data := [ {| ID := str "1"; Attachments := Some (str "https://x/a.jpg") |} ] in
  let fs := Sample.with_export Sample.example_export in
  fst (fst (run Sample.URL_pathname Sample.always_ok Sample.quiet
              Sample.nothing_denied data fs))
    !! str "data/messages.json"
  = Some (File Sample.example_export).
Proof.
  cbv zeta.
  set (r := run Sample.URL_pathname Sample.always_ok Sample.quiet
              Sample.nothing_denied _ _).
  rewrite (run_writes_in_download_directory Sample.URL_pathname Sample.always_ok
             Sample.quiet Sample.nothing_denied
             [ {| ID := str "1"; Attachments := Some (str "https://x/a.jpg") |} ]
             (Sample.with_export Sample.example_export)
             (fst (fst r)) (snd (fst r)) (snd r)
             (str "data/messages.json")).
  - vm_compute; reflexivity.
  - repeat constructor; discriminate.
  - apply triple_eta.
  - vm_compute; discriminate.
  - intros name. vm_compute. discriminate.
Defined.

Lemma summary_counts_the_lines_witness :
  let data := [ {| ID := str "1"; Attachments := Some (str "https://x/a.jpg") |} ] in
  let r := run Sample.URL_pathname Sample.always_ok Sample.quiet
             Sample.nothing_denied data ∅ in
  Trace.waited (snd (fst r)) = 700%nat
  /\ Trace.summary_lines (snd (fst r)) = 1%nat.
Proof.
  cbv zeta.
  set (d := [ {| ID := str "1"; Attachments := Some (str "https://x/a.jpg") |} ]).
  set (r := run Sample.URL_pathname Sample.always_ok Sample.quiet
              Sample.nothing_denied d ∅).
  destruct (summary_counts_the_lines Sample.URL_pathname Sample.always_ok
              Sample.quiet Sample.nothing_denied d ∅
              (fst (fst r)) (snd (fst r)) (Settled Fulfilled))
    as (W & _ & st & evs0 & _ & _ & _ & S1).
  - vm_compute; reflexivity.
  - split; [| exact S1]. rewrite W. vm_compute; reflexivity.
Defined.

Lemma logged_files_are_there_witness :
  let data := [ {| ID := str "1"; Attachments := Some (str "https://x/a.jpg") |} ] in
  exists body,
    fst (fst (run Sample.URL_pathname Sample.always_ok Sample.quiet
                Sample.nothing_denied data ∅))
      !! resolve (str "downloads/1_1.jpg")
    = Some (File body).
Proof.
  cbv zeta.
  set (r := run Sample.URL_pathname Sample.always_ok Sample.quiet
              Sample.nothing_denied _ ∅).
  pose proof (logged_files_are_there Sample.URL_pathname Sample.always_ok
                Sample.quiet Sample.nothing_denied
                [ {| ID := str "1"; Attachments := Some (str "https://x/a.jpg") |} ]
                ∅ (str "downloads/1_1.jpg")) as H.
  fold r in H. rewrite (triple_eta r) in H. cbv beta iota zeta in H.
  apply (proj1 H). vm_compute. auto.
Defined.

Lemma runs_compose_witness :
  let data1 := [ {| ID := str "1"; Attachments := Some (str "https://x/a.jpg") |} ] in
  let data2 := [ {| ID := str "2"; Attachments := Some (str "https://x/b.png") |} ] in
  let run := run Sample.URL_pathname Sample.always_ok Sample.quiet
               Sample.nothing_denied in
  fst (fst (run (data1 ++ data2) ∅))
  = fst (fst (run data2 (fst (fst (run data1 ∅))))).
Proof.
  cbv zeta.
  set (d1 := [ {| ID := str "1"; Attachments := Some (str "https://x/a.jpg") |} ]).
  set (d2 := [ {| ID := str "2"; Attachments := Some (str "https://x/b.png") |} ]).
  set (r1 := run Sample.URL_pathname Sample.always_ok Sample.quiet
               Sample.nothing_denied d1 ∅).
  set (r2 := run Sample.URL_pathname Sample.always_ok Sample.quiet
               Sample.nothing_denied d2 (fst (fst r1))).
  destruct (runs_compose Sample.URL_pathname Sample.always_ok Sample.quiet
              Sample.nothing_denied (fun _ _ _ => eq_refl) (fun _ _ => eq_refl)
              d1 d2 ∅ (fst (fst r1)) (fst (fst r2))
              (snd (fst r1)) (snd (fst r2)))
    as (st1 & st2 & body1 & body2 & _ & _ & _ & _ & _ & _ & R).
  - vm_compute; reflexivity.
  - vm_compute; reflexivity.
  - vm_compute; reflexivity.
  - by rewrite R.
Defined.

(** ** The pre-pass of [readFile] *)

Lemma ID_KEY_units : ID_KEY = [DQUOTE; 73; 68; DQUOTE; COLON].
Proof. reflexivity. Qed.

Lemma match_ID_shorter s ds rest :
  match_ID s = Some (ds, rest) -> (length rest < length s)%nat.
Proof.
  unfold match_ID.
  destruct (strip_prefix ID_KEY s) as [r |] eqn:E; [| discriminate].
  apply strip_prefix_Some in E. subst s.
  destruct (take_while is_digit (drop_while is_space r)); [discriminate |].
  intros [= _ <-]. rewrite length_app.
  pose proof (drop_while_length is_digit (drop_while is_space r)).
  pose proof (drop_while_length is_space r).
  rewrite ID_KEY_units. simpl. lia.
Qed.

(** More fuel than the length of the text changes nothing. *)
Lemma replace_IDs_fuel n : forall fuel1 fuel2 s,
  (length s <= n)%nat -> (length s <= fuel1)%nat -> (length s <= fuel2)%nat ->
  replace_IDs fuel1 s = replace_IDs fuel2 s.
Proof.
  induction n as [| n IH]; intros fuel1 fuel2 s Hn H1 H2.
  - destruct s; [| simpl in Hn; lia]. by destruct fuel1, fuel2.
  - destruct s as [| c s]; [by destruct fuel1, fuel2 |].
    destruct fuel1 as [| fuel1]; [simpl in H1; lia |].
    destruct fuel2 as [| fuel2]; [simpl in H2; lia |].
    cbn [replace_IDs].
    destruct (match_ID (c :: s)) as [[ds rest] |] eqn:E.
    + apply match_ID_shorter in E. cbn [length] in *.
      f_equal. apply IH; lia.
    + cbn [length] in *. f_equal. apply IH; lia.
Qed.

Lemma fixIds_nil : fixIds [] = [].
Proof. reflexivity. Qed.

Lemma fixIds_copy c s :
  match_ID (c :: s) = None -> fixIds (c :: s) = c :: fixIds s.
Proof.
  intros E. unfold fixIds. cbn [length replace_IDs]. by rewrite E.
Qed.

Lemma fixIds_match s ds rest :
  match_ID s = Some (ds, rest) -> fixIds s = quoted_ID ds ++ fixIds rest.
Proof.
  intros E. pose proof (match_ID_shorter _ _ _ E) as L.
  unfold fixIds. destruct s as [| c s]; [simpl in L; lia |].
  cbn [length replace_IDs]. rewrite E. f_equal.
  simpl in L. apply (replace_IDs_fuel (length s)); lia.
Qed.

Lemma fixIds_inert t rest : Doc.inert t rest -> fixIds (t ++ rest) = t ++ fixIds rest.
Proof.
  induction t as [| c t IH]; simpl; [done |].
  intros [E H]. rewrite fixIds_copy by exact E. by rewrite IH.
Qed.

Lemma inert_app a b rest :
  Doc.inert a (b ++ rest) -> Doc.inert b rest -> Doc.inert (a ++ b) rest.
Proof.
  induction a as [| c a IH]; simpl; [done |].
  intros [E H] Hb. rewrite <- app_assoc. auto.
Qed.

Lemma match_ID_not_quote c s : c <> DQUOTE -> match_ID (c :: s) = None.
Proof.
  intros H. unfold match_ID. rewrite ID_KEY_units. cbn [strip_prefix].
  destruct (N.eqb_spec DQUOTE c); [congruence | done].
Qed.

Lemma inert_no_quote t rest : Forall (fun c => c <> DQUOTE) t -> Doc.inert t rest.
Proof.
  induction 1 as [| c t Hc _ IH]; simpl; [done |].
  split; [by apply match_ID_not_quote | done].
Qed.

Lemma ws_no_quote g : Doc.all_ws g -> Forall (fun c => c <> DQUOTE) g.
Proof.
  intros H. eapply List.Forall_impl; [| exact H].
  simpl. intros c Hc ->. discriminate Hc.
Qed.

Lemma space_no_quote g :
  Forall (fun c => is_space c = true) g -> Forall (fun c => c <> DQUOTE) g.
Proof.
  intros H. eapply List.Forall_impl; [| exact H].
  simpl. intros c Hc ->. discriminate Hc.
Qed.

Lemma plain_no_quote s :
  Forall (fun c => Doc.plain c = true) s -> Forall (fun c => c <> DQUOTE) s.
Proof.
  intros H. eapply List.Forall_impl; [| exact H].
  simpl. intros c Hc ->. discriminate Hc.
Qed.

Lemma digits_no_quote s :
  Forall (fun c => is_digit c = true) s -> Forall (fun c => c <> DQUOTE) s.
Proof.
  intros H. eapply List.Forall_impl; [| exact H].
  simpl. intros c Hc ->. discriminate Hc.
Qed.

Lemma ws_is_space g : Doc.all_ws g -> Forall (fun c => is_space c = true) g.
Proof.
  intros H. eapply List.Forall_impl; [| exact H]. simpl. intros c Hc.
  unfold is_json_ws in Hc.
  repeat (apply orb_true_iff in Hc as [Hc | Hc]);
    apply N.eqb_eq in Hc; subst c; reflexivity.
Qed.

(** The key of the pattern, met at the quote that opens a string literal
    of plain code units: the literal is ["ID"] and a colon follows its
    closing quote. *)
Lemma strip_ID_KEY_literal w tl r :
  Forall (fun c => Doc.plain c = true) w ->
  strip_prefix ID_KEY (DQUOTE :: w ++ DQUOTE :: tl) = Some r ->
  w = str "ID" /\ tl = COLON :: r.
Proof.
  intros Hw. rewrite ID_KEY_units. cbn [strip_prefix]. rewrite N.eqb_refl.
  destruct w as [| a w]; cbn [app strip_prefix]; [discriminate |].
  destruct (N.eqb_spec 73 a) as [<- |]; [| discriminate].
  destruct w as [| b w]; cbn [app strip_prefix]; [discriminate |].
  destruct (N.eqb_spec 68 b) as [<- |]; [| discriminate].
  destruct w as [| c w]; cbn [app strip_prefix].
  - rewrite N.eqb_refl. destruct tl as [| x tl]; [discriminate |].
    destruct (N.eqb_spec COLON x) as [<- |]; [| discriminate].
    by intros [= ->].
  - destruct (N.eqb_spec DQUOTE c) as [<- |]; [| discriminate].
    exfalso. inversion Hw as [| ? ? _ Hw']. inversion Hw' as [| ? ? _ Hw''].
    inversion Hw'' as [| ? ? Hq _]. discriminate Hq.
Qed.

(** No match starts at the quote that opens a plain string literal which
    is not followed by a colon. *)
Lemma match_ID_literal w tl :
  Forall (fun c => Doc.plain c = true) w ->
  match tl with [] => True | c :: _ => c <> COLON end ->
  match_ID (DQUOTE :: w ++ DQUOTE :: tl) = None.
Proof.
  intros Hw Ht. unfold match_ID.
  destruct (strip_prefix ID_KEY _) as [r |] eqn:E; [| done].
  apply strip_ID_KEY_literal in E as [_ ->]; [| done]. by destruct Ht.
Qed.

(** No match starts at a quote that is followed by something else than
    the letter of the key. *)
Lemma match_ID_closing tl :
  match tl with [] => True | c :: _ => c <> 73 end ->
  match_ID (DQUOTE :: tl) = None.
Proof.
  intros Ht. unfold match_ID. rewrite ID_KEY_units. cbn [strip_prefix].
  rewrite N.eqb_refl. destruct tl as [| c tl]; [done |].
  destruct (N.eqb_spec 73 c); [congruence | done].
Qed.

(** The match at a key ["ID"] with bare digits. *)
Lemma match_ID_bare g ds tl :
  Forall (fun c => is_space c = true) g ->
  ds <> [] -> Forall (fun c => is_digit c = true) ds ->
  match tl with [] => True | c :: _ => is_digit c = false end ->
  match_ID (ID_KEY ++ g ++ ds ++ tl) = Some (ds, tl).
Proof.
  intros Hg Hne Hd Ht. unfold match_ID. rewrite strip_prefix_app.
  rewrite drop_while_app_all by done.
  rewrite (drop_while_head is_space (ds ++ tl)).
  2:{ destruct Hd as [| d ds Hd _]; [done |]. simpl.
      destruct (is_space d) eqn:E; [| done].
      unfold is_digit, is_space in *.
      repeat match goal with
             | H : _ && _ = true |- _ => apply andb_true_iff in H as [? ?]
             | H : (_ <=? _) = true |- _ => apply N.leb_le in H
             end.
      repeat (apply orb_true_iff in E as [E | E]);
        repeat match goal with
               | H : _ && _ = true |- _ => apply andb_true_iff in H as [? ?]
               | H : (_ <=? _) = true |- _ => apply N.leb_le in H
               | H : (_ =? _) = true |- _ => apply N.eqb_eq in H
               end; lia. }
  rewrite take_while_app_all, drop_while_app_all by done.
  rewrite (drop_while_head is_digit tl) by (destruct tl; auto).
  assert (Ht' : take_while is_digit tl = []).
  { destruct tl as [| c tl]; [done |]. simpl. by rewrite Ht. }
  rewrite Ht', app_nil_r. destruct ds; [done | reflexivity].
Qed.

(** No match at a key ["ID"] whose value does not start with a digit
    after the whitespace. *)
Lemma match_ID_no_digit g tl :
  Forall (fun c => is_space c = true) g ->
  match tl with [] => True | c :: _ => is_digit c = false /\ is_space c = false end ->
  match_ID (ID_KEY ++ g ++ tl) = None.
Proof.
  intros Hg Ht. unfold match_ID. rewrite strip_prefix_app.
  rewrite drop_while_app_all by done.
  destruct tl as [| c tl]; [done |]. destruct Ht as [Hd Hs].
  cbn [drop_while]. rewrite Hs. cbn [take_while]. by rewrite Hd.
Qed.

(** *** The pre-pass on an export *)

Lemma str_ID : str "ID" = [73; 68].
Proof. reflexivity. Qed.

Ltac reassoc := repeat (rewrite <- app_assoc || rewrite <- app_comm_cons).

Lemma delimited_head rest :
  Doc.delimited rest ->
  match rest with
  | [] => True
  | c :: _ => c <> 73 /\ c <> COLON /\ c <> DQUOTE /\ is_digit c = false
  end.
Proof.
  destruct rest as [| c rest]; [done |]. unfold Doc.delimited, is_json_ws.
  intros H.
  repeat (apply orb_true_iff in H as [H | H]);
    apply N.eqb_eq in H; subst c; repeat split; discriminate.
Qed.

Lemma delimited_ws g rest :
  Doc.all_ws g -> Doc.delimited rest -> Doc.delimited (g ++ rest).
Proof.
  intros Hg H. destruct Hg as [| c g' Hc _]; [done |].
  cbn [app Doc.delimited]. by rewrite Hc.
Qed.

Lemma delimited_no_quote rest :
  Doc.delimited rest -> match_ID rest = None.
Proof.
  intros H. apply delimited_head in H. destruct rest as [| c rest]; [done |].
  apply match_ID_not_quote. tauto.
Qed.

Lemma inert_ws g rest : Doc.all_ws g -> Doc.inert g rest.
Proof. intros H. by apply inert_no_quote, ws_no_quote. Qed.

(** A string literal of plain code units that no colon follows. *)
Lemma inert_literal w tl rest :
  Forall (fun c => Doc.plain c = true) w ->
  Doc.delimited (tl ++ rest) -> Doc.inert tl rest ->
  Doc.inert (DQUOTE :: w ++ DQUOTE :: tl) rest.
Proof.
  intros Hw Hd Ht. pose proof (delimited_head _ Hd) as Hh.
  cbn [Doc.inert]. split.
  - reassoc. apply match_ID_literal; [done |].
    destruct (tl ++ rest); [done | tauto].
  - apply inert_app; [by apply inert_no_quote, plain_no_quote |].
    cbn [Doc.inert]. split; [| done].
    apply match_ID_closing. destruct (tl ++ rest); [done | tauto].
Qed.

(** The quote that opens a key, when the member is not a key ["ID"]
    with its colon at once and digits after it. *)
Lemma match_ID_key k cl g v :
  Forall (fun c => Doc.plain c = true) k -> Doc.all_ws cl ->
  Forall (fun c => is_space c = true) g ->
  (k = str "ID" -> cl = [] ->
   match v with [] => True | c :: _ => is_digit c = false /\ is_space c = false end) ->
  match_ID (DQUOTE :: k ++ DQUOTE :: cl ++ COLON :: g ++ v) = None.
Proof.
  intros Hk Hcl Hg Hv.
  destruct (strip_prefix ID_KEY (DQUOTE :: k ++ DQUOTE :: cl ++ COLON :: g ++ v))
    as [r |] eqn:E.
  - apply strip_ID_KEY_literal in E as [-> E]; [| done].
    destruct Hcl as [| c cl Hc _].
    + specialize (Hv eq_refl eq_refl).
      change (DQUOTE :: str "ID" ++ DQUOTE :: [] ++ COLON :: g ++ v)
        with (ID_KEY ++ g ++ v).
      by apply match_ID_no_digit.
    + injection E as -> _. discriminate Hc.
  - unfold match_ID. by rewrite E.
Qed.

Lemma render_member_app m rest :
  Doc.render_member m ++ rest
  = Doc.before m ++ DQUOTE :: Doc.key m ++ DQUOTE :: Doc.colon m ++ COLON
      :: Doc.gap m ++ Doc.render_written (Doc.val m) ++ Doc.after m ++ rest.
Proof. unfold Doc.render_member. by reassoc. Qed.

(** The pre-pass on one member and what follows it. *)
Lemma fixIds_member m rest :
  Doc.wf_member m -> Doc.delimited rest ->
  fixIds (Doc.render_member m ++ rest)
  = Doc.render_member (Doc.quote_member (Some [SPACE]) m) ++ fixIds rest.
Proof.
  intros (Hb & Hk & Hc & Ha & Hv) Hd.
  pose proof (delimited_ws _ _ Ha Hd) as Hd'.
  pose proof (delimited_head _ Hd') as Hh.
  unfold Doc.quote_member.
  destruct (Doc.val m) as [s | ds | text v] eqn:Ev.
  - (* a string literal *)
    destruct Hv as [Hg Hs]. apply fixIds_inert.
    unfold Doc.render_member. rewrite Ev. cbn [Doc.render_written] in *.
    apply inert_app; [by apply inert_ws |].
    cbn [Doc.inert]. split.
    { reassoc. apply match_ID_key; auto using ws_is_space. }
    apply inert_app; [by apply inert_no_quote, plain_no_quote |].
    cbn [Doc.inert]. split.
    { apply match_ID_closing. reassoc. clear -Hc.
      destruct Hc as [| c cl Hc' _]; cbn [app]; [discriminate |].
      intros ->. discriminate Hc'. }
    apply inert_app; [by apply inert_ws |].
    cbn [Doc.inert]. split; [by apply match_ID_not_quote |].
    apply inert_app; [by apply inert_ws |].
    reassoc. cbn [app].
    apply inert_literal; [done | done | by apply inert_ws].
  - (* bare digits *)
    destruct Hv as (Hkey & Hcolon & Hg & Hne & Hds).
    rewrite render_member_app, Ev, Hkey, Hcolon.
    cbn [app Doc.render_written].
    change (DQUOTE :: str "ID" ++ DQUOTE :: COLON :: Doc.gap m ++ ds
              ++ Doc.after m ++ rest)
      with (ID_KEY ++ Doc.gap m ++ ds ++ Doc.after m ++ rest).
    rewrite fixIds_inert by (by apply inert_ws).
    rewrite (fixIds_match _ ds (Doc.after m ++ rest)).
    2:{ apply match_ID_bare; auto. destruct (Doc.after m ++ rest); [done | tauto]. }
    rewrite fixIds_inert by (by apply inert_ws).
    unfold Doc.render_member, quoted_ID.
    cbn [Doc.render_written Doc.before Doc.key Doc.colon Doc.gap Doc.val
         Doc.after default].
    rewrite ID_KEY_units, str_ID. by reassoc.
  - (* another text *)
    destruct Hv as (Hg & Hkey & Hq & _). apply fixIds_inert.
    unfold Doc.render_member. rewrite Ev. cbn [Doc.render_written] in *.
    apply inert_app; [by apply inert_ws |].
    cbn [Doc.inert]. split.
    { reassoc. apply match_ID_key; auto using ws_is_space. congruence. }
    apply inert_app; [by apply inert_no_quote, plain_no_quote |].
    cbn [Doc.inert]. split.
    { apply match_ID_closing. reassoc. clear -Hc.
      destruct Hc as [| c cl Hc' _]; cbn [app]; [discriminate |].
      intros ->. discriminate Hc'. }
    apply inert_app; [by apply inert_ws |].
    cbn [Doc.inert]. split; [by apply match_ID_not_quote |].
    apply inert_app; [by apply inert_ws |].
    apply inert_app; [by apply inert_no_quote | by apply inert_ws].
Qed.

Lemma fixIds_ws g rest : Doc.all_ws g -> fixIds (g ++ rest) = g ++ fixIds rest.
Proof. intros H. by apply fixIds_inert, inert_ws. Qed.

Lemma fixIds_punct c rest : c <> DQUOTE -> fixIds (c :: rest) = c :: fixIds rest.
Proof. intros H. by apply fixIds_copy, match_ID_not_quote. Qed.

Lemma fixIds_members ms : forall rest,
  Forall Doc.wf_member ms -> Doc.delimited rest ->
  fixIds (Doc.render_members ms ++ rest)
  = Doc.render_members (List.map (Doc.quote_member (Some [SPACE])) ms)
      ++ fixIds rest.
Proof.
  induction ms as [| m ms IH]; intros rest Hwf Hd; [done |].
  inversion Hwf as [| ? ? Hm Hms]; subst.
  destruct ms as [| m' ms].
  - cbn [Doc.render_members List.map]. by apply fixIds_member.
  - change (Doc.render_members (m :: m' :: ms))
      with (Doc.render_member m ++ COMMA :: Doc.render_members (m' :: ms)).
    change (Doc.render_members
              (List.map (Doc.quote_member (Some [SPACE])) (m :: m' :: ms)))
      with (Doc.render_member (Doc.quote_member (Some [SPACE]) m) ++ COMMA
              :: Doc.render_members
                   (List.map (Doc.quote_member (Some [SPACE])) (m' :: ms))).
    reassoc. rewrite fixIds_member by done.
    rewrite fixIds_punct by discriminate. by rewrite IH.
Qed.

Lemma fixIds_entry e rest :
  Doc.wf_entry e -> Doc.delimited rest ->
  fixIds (Doc.render_entry e ++ rest)
  = Doc.render_entry (Doc.quote_entry (Some [SPACE]) e) ++ fixIds rest.
Proof.
  intros (Hl & Hi & Ht & Hms) Hd. unfold Doc.render_entry, Doc.quote_entry.
  cbn [Doc.lead Doc.members Doc.inner Doc.trail]. reassoc.
  rewrite fixIds_ws by done. rewrite fixIds_punct by discriminate.
  destruct (Doc.members e) as [| m ms] eqn:E.
  - cbn [List.map]. rewrite fixIds_ws by done.
    rewrite fixIds_punct by discriminate. by rewrite fixIds_ws.
  - rewrite fixIds_members by done.
    rewrite fixIds_punct by discriminate. rewrite fixIds_ws by done.
    reflexivity.
Qed.

Lemma fixIds_entries es : forall rest,
  Forall Doc.wf_entry es -> Doc.delimited rest ->
  fixIds (Doc.render_entries es ++ rest)
  = Doc.render_entries (List.map (Doc.quote_entry (Some [SPACE])) es)
      ++ fixIds rest.
Proof.
  induction es as [| e es IH]; intros rest Hwf Hd; [done |].
  inversion Hwf as [| ? ? He Hes]; subst.
  destruct es as [| e' es].
  - cbn [Doc.render_entries List.map]. by apply fixIds_entry.
  - change (Doc.render_entries (e :: e' :: es))
      with (Doc.render_entry e ++ COMMA :: Doc.render_entries (e' :: es)).
    change (Doc.render_entries
              (List.map (Doc.quote_entry (Some [SPACE])) (e :: e' :: es)))
      with (Doc.render_entry (Doc.quote_entry (Some [SPACE]) e) ++ COMMA
              :: Doc.render_entries
                   (List.map (Doc.quote_entry (Some [SPACE])) (e' :: es))).
    reassoc. rewrite fixIds_entry by done.
    rewrite fixIds_punct by discriminate. by rewrite IH.
Qed.

(** The pre-pass turns an export into the same export with each bare
    identifier in quotes after one space, and changes nothing else. *)
Lemma fixIds_render d :
  Doc.wf d -> fixIds (Doc.render d) = Doc.render (Doc.quote (Some [SPACE]) d).
Proof.
  intros (Hh & Hb & Ht & Hes). unfold Doc.render, Doc.quote.
  cbn [Doc.head Doc.entries Doc.blank Doc.tail].
  rewrite fixIds_ws by done. rewrite fixIds_punct by discriminate.
  assert (Htail : fixIds (RBRACKET :: Doc.tail d) = RBRACKET :: Doc.tail d).
  { rewrite fixIds_punct by discriminate.
    rewrite <- (app_nil_r (Doc.tail d)) at 1. by rewrite fixIds_ws, app_nil_r. }
  destruct (Doc.entries d) as [| e es] eqn:E.
  - cbn [List.map]. rewrite fixIds_ws by done. by rewrite Htail.
  - rewrite fixIds_entries by done. by rewrite Htail.
Qed.

(** ** [JSON.parse] on an export *)

Lemma skip_ws_ws g s : Doc.all_ws g -> skip_ws (g ++ s) = skip_ws s.
Proof. intros H. unfold skip_ws. by apply drop_while_app_all. Qed.

Lemma skip_ws_stop c s : is_json_ws c = false -> skip_ws (c :: s) = c :: s.
Proof. intros H. unfold skip_ws. cbn [drop_while]. by rewrite H. Qed.

Lemma skip_ws_all g : Doc.all_ws g -> skip_ws g = [].
Proof. intros H. unfold skip_ws. by apply drop_while_all. Qed.

Lemma plain_facts c :
  Doc.plain c = true ->
  (c =? DQUOTE) = false /\ (c =? BACKSLASH) = false /\ (c <? 32) = false.
Proof.
  unfold Doc.plain. intros H.
  apply andb_true_iff in H as [H H3]. apply andb_true_iff in H as [H1 H2].
  apply negb_true_iff in H2, H3. apply N.leb_le in H1.
  repeat split; [done | done |]. apply N.ltb_ge. exact H1.
Qed.

Lemma parse_chars_plain s rest :
  Forall (fun c => Doc.plain c = true) s ->
  parse_chars (s ++ DQUOTE :: rest) = Some (s, rest).
Proof.
  induction 1 as [| c s Hc _ IH]; cbn [app parse_chars].
  - by rewrite N.eqb_refl.
  - destruct (plain_facts c Hc) as (-> & -> & ->). by rewrite IH.
Qed.

Lemma parse_value_gap f g s :
  Doc.all_ws g -> parse_value f (g ++ s) = parse_value f s.
Proof.
  intros H. destruct f as [| f]; [done |].
  cbn [parse_value]. by rewrite skip_ws_ws.
Qed.

Lemma parse_value_literal f s rest :
  Forall (fun c => Doc.plain c = true) s ->
  parse_value (S f) (DQUOTE :: s ++ DQUOTE :: rest) = Some (JStr s, rest).
Proof.
  intros H. cbn [parse_value]. rewrite skip_ws_stop by reflexivity.
  rewrite N.eqb_refl. by rewrite parse_chars_plain.
Qed.

(** One round of [parse_members]: the key and its colon are read, then
    the value and what closes the member. *)
Lemma parse_members_step f b k cl tl :
  Doc.all_ws b -> Forall (fun c => Doc.plain c = true) k -> Doc.all_ws cl ->
  parse_members (S f) (b ++ DQUOTE :: k ++ DQUOTE :: cl ++ COLON :: tl)
  = match parse_value f tl with
    | None => None
    | Some (v, r3) =>
        match skip_ws r3 with
        | c' :: r4 =>
            if c' =? COMMA then
              match parse_members f r4 with
              | Some (ms, r5) => Some ((k, v) :: ms, r5)
              | None => None
              end
            else if c' =? RBRACE then Some ([(k, v)], r4)
            else None
        | [] => None
        end
    end.
Proof.
  intros Hb Hk Hc. cbn [parse_members].
  rewrite skip_ws_ws by done. rewrite skip_ws_stop by reflexivity.
  rewrite N.eqb_refl, parse_chars_plain by done.
  rewrite skip_ws_ws by done. rewrite skip_ws_stop by reflexivity.
  by rewrite N.eqb_refl.
Qed.

Lemma delimited_skip_ws g c rest :
  Doc.all_ws g -> is_json_ws c = false -> skip_ws (g ++ c :: rest) = c :: rest.
Proof. intros Hg Hc. rewrite skip_ws_ws by done. by apply skip_ws_stop. Qed.

Lemma length_render_members_cons m m' ms :
  length (Doc.render_members (m :: m' :: ms))
  = (length (Doc.render_member m) + S (length (Doc.render_members (m' :: ms))))%nat.
Proof.
  change (Doc.render_members (m :: m' :: ms))
    with (Doc.render_member m ++ COMMA :: Doc.render_members (m' :: ms)).
  by rewrite length_app.
Qed.

Lemma length_render_member m :
  (length (Doc.render_written (Doc.val m)) + 3 <= length (Doc.render_member m))%nat.
Proof.
  unfold Doc.render_member.
  repeat (rewrite length_app || cbn [length]). lia.
Qed.

(** The value of a member that is not bare digits. *)
Lemma parse_member_value f m rest :
  Doc.wf_member m ->
  match Doc.val m with Doc.Bare _ => False | _ => True end ->
  Doc.delimited rest ->
  (length (Doc.render_member m) <= f)%nat ->
  parse_value f (Doc.gap m ++ Doc.render_written (Doc.val m) ++ Doc.after m ++ rest)
  = Some (Doc.value_of (Doc.val m), Doc.after m ++ rest).
Proof.
  intros (_ & _ & _ & Ha & Hv) Hnb Hd Hf.
  pose proof (length_render_member m) as L.
  destruct (Doc.val m) as [s | ds | text v]; [| done |].
  - destruct Hv as [Hg Hs]. rewrite parse_value_gap by done.
    destruct f as [| f]; [lia |].
    cbn [Doc.render_written Doc.value_of]. reassoc.
    by apply parse_value_literal.
  - destruct Hv as (Hg & _ & _ & Hp). rewrite parse_value_gap by done.
    cbn [Doc.render_written Doc.value_of] in *.
    apply Hp; [lia | by apply delimited_ws].
Qed.

Lemma parse_members_render ms : forall f rest,
  ms <> [] -> Forall Doc.wf_member ms ->
  Forall (fun m => match Doc.val m with Doc.Bare _ => False | _ => True end) ms ->
  (length (Doc.render_members ms) < f)%nat ->
  parse_members f (Doc.render_members ms ++ RBRACE :: rest)
  = Some (List.map (fun m => (Doc.key m, Doc.value_of (Doc.val m))) ms, rest).
Proof.
  induction ms as [| m ms IH]; intros f rest Hne Hwf Hnb Hf; [done |].
  inversion Hwf as [| ? ? Hm Hms]; subst.
  inversion Hnb as [| ? ? Hbm Hbms]; subst.
  destruct f as [| f]; [lia |].
  pose proof Hm as (Hb & Hk & Hc & Ha & _).
  destruct ms as [| m' ms].
  - cbn [Doc.render_members] in *. rewrite render_member_app.
    rewrite parse_members_step by done.
    rewrite parse_member_value; [| done | done | reflexivity | lia].
    rewrite delimited_skip_ws by done. reflexivity.
  - rewrite length_render_members_cons in Hf.
    change (Doc.render_members (m :: m' :: ms))
      with (Doc.render_member m ++ COMMA :: Doc.render_members (m' :: ms)).
    reassoc. rewrite render_member_app.
    rewrite parse_members_step by done.
    rewrite parse_member_value; [| done | done | reflexivity | lia].
    rewrite delimited_skip_ws by done. cbn [N.eqb Pos.eqb COMMA].
    rewrite IH; [reflexivity | discriminate | done | done | lia].
Qed.

Lemma parse_value_object_step f b r :
  Doc.all_ws b ->
  parse_value (S f) (b ++ LBRACE :: r)
  = match skip_ws r with
    | c' :: r' =>
        if c' =? RBRACE then Some (JObj [], r')
        else match parse_members f r with
             | Some (ms, r'') => Some (JObj ms, r'')
             | None => None
             end
    | [] => None
    end.
Proof.
  intros Hb. cbn [parse_value].
  rewrite skip_ws_ws by done. rewrite skip_ws_stop by reflexivity.
  change (LBRACE =? DQUOTE) with false. change (LBRACE =? LBRACKET) with false.
  change (LBRACE =? LBRACE) with true. reflexivity.
Qed.

Lemma parse_value_array_step f b r :
  Doc.all_ws b ->
  parse_value (S f) (b ++ LBRACKET :: r)
  = match skip_ws r with
    | c' :: r' =>
        if c' =? RBRACKET then Some (JArr [], r')
        else match parse_elements f r with
             | Some (vs, r'') => Some (JArr vs, r'')
             | None => None
             end
    | [] => None
    end.
Proof.
  intros Hb. cbn [parse_value].
  rewrite skip_ws_ws by done. rewrite skip_ws_stop by reflexivity.
  change (LBRACKET =? DQUOTE) with false.
  change (LBRACKET =? LBRACKET) with true. reflexivity.
Qed.

Lemma render_members_head m ms x :
  exists y, Doc.render_members (m :: ms) ++ x = Doc.before m ++ DQUOTE :: y.
Proof.
  destruct ms as [| m' ms].
  - cbn [Doc.render_members]. rewrite render_member_app. eauto.
  - change (Doc.render_members (m :: m' :: ms))
      with (Doc.render_member m ++ COMMA :: Doc.render_members (m' :: ms)).
    reassoc. rewrite render_member_app. eauto.
Qed.

Lemma render_entry_app e rest :
  Doc.render_entry e ++ rest
  = Doc.lead e ++ LBRACE
      :: match Doc.members e with
         | [] => Doc.inner e
         | ms => Doc.render_members ms
         end ++ RBRACE :: Doc.trail e ++ rest.
Proof. unfold Doc.render_entry. by reassoc. Qed.

Lemma length_render_entry e :
  (length (match Doc.members e with
           | [] => Doc.inner e
           | ms => Doc.render_members ms
           end) + 2 <= length (Doc.render_entry e))%nat.
Proof.
  unfold Doc.render_entry. repeat (rewrite length_app || cbn [length]). lia.
Qed.

(** A record parses to its object; the whitespace after it is left. *)
Lemma parse_entry f e rest :
  Doc.wf_entry e ->
  Forall (fun m => match Doc.val m with Doc.Bare _ => False | _ => True end)
    (Doc.members e) ->
  (length (Doc.render_entry e) < f)%nat ->
  parse_value f (Doc.render_entry e ++ rest)
  = Some (Doc.object_of e, Doc.trail e ++ rest).
Proof.
  intros (Hl & Hi & Ht & Hms) Hnb Hf. pose proof (length_render_entry e) as L.
  destruct f as [| f]; [lia |].
  rewrite render_entry_app, parse_value_object_step by done.
  unfold Doc.object_of.
  destruct (Doc.members e) as [| m ms] eqn:E.
  - rewrite delimited_skip_ws by done. by rewrite N.eqb_refl.
  - destruct (render_members_head m ms (RBRACE :: Doc.trail e ++ rest)) as [y Hy].
    inversion Hms as [| ? ? (Hb & _) _]; subst.
    rewrite Hy at 1. rewrite delimited_skip_ws by done.
    change (DQUOTE =? RBRACE) with false. cbv iota.
    rewrite parse_members_render; [reflexivity | discriminate | done | done | lia].
Qed.

Lemma length_render_entries_cons e e' es :
  length (Doc.render_entries (e :: e' :: es))
  = (length (Doc.render_entry e) + S (length (Doc.render_entries (e' :: es))))%nat.
Proof.
  change (Doc.render_entries (e :: e' :: es))
    with (Doc.render_entry e ++ COMMA :: Doc.render_entries (e' :: es)).
  by rewrite length_app.
Qed.

Lemma parse_elements_render es : forall f rest,
  es <> [] -> Forall Doc.wf_entry es ->
  Forall (fun e =>
    Forall (fun m => match Doc.val m with Doc.Bare _ => False | _ => True end)
      (Doc.members e)) es ->
  (S (length (Doc.render_entries es)) < f)%nat ->
  parse_elements f (Doc.render_entries es ++ RBRACKET :: rest)
  = Some (List.map Doc.object_of es, rest).
Proof.
  induction es as [| e es IH]; intros f rest Hne Hwf Hnb Hf; [done |].
  inversion Hwf as [| ? ? He Hes]; subst.
  inversion Hnb as [| ? ? Hbe Hbes]; subst.
  destruct f as [| f]; [lia |].
  pose proof He as (_ & _ & Ht & _).
  cbn [parse_elements].
  destruct es as [| e' es].
  - cbn [Doc.render_entries] in *.
    rewrite parse_entry; [| done | done | lia].
    rewrite delimited_skip_ws by done.
    change (RBRACKET =? COMMA) with false. by rewrite N.eqb_refl.
  - rewrite length_render_entries_cons in Hf.
    change (Doc.render_entries (e :: e' :: es))
      with (Doc.render_entry e ++ COMMA :: Doc.render_entries (e' :: es)).
    reassoc. rewrite parse_entry; [| done | done | lia].
    rewrite delimited_skip_ws by done. rewrite N.eqb_refl.
    rewrite IH; [reflexivity | discriminate | done | done | lia].
Qed.

Lemma render_entries_head e es x :
  exists y, Doc.render_entries (e :: es) ++ x = Doc.lead e ++ LBRACE :: y.
Proof.
  destruct es as [| e' es].
  - cbn [Doc.render_entries]. rewrite render_entry_app. eauto.
  - change (Doc.render_entries (e :: e' :: es))
      with (Doc.render_entry e ++ COMMA :: Doc.render_entries (e' :: es)).
    reassoc. rewrite render_entry_app. eauto.
Qed.

(** An export without bare digits parses to its array of objects. *)
Lemma JSON_parse_render d :
  Doc.wf d -> Doc.no_bare d -> JSON_parse (Doc.render d) = Some (Doc.array_of d).
Proof.
  intros (Hh & Hb & Ht & Hes) Hnb. unfold JSON_parse.
  assert (L : (length (match Doc.entries d with
                       | [] => Doc.blank d
                       | es => Doc.render_entries es
                       end) + 2 <= length (Doc.render d))%nat).
  { unfold Doc.render. repeat (rewrite length_app || cbn [length]). lia. }
  replace (2 * length (Doc.render d) + 2)%nat
    with (S (2 * length (Doc.render d) + 1))%nat by lia.
  unfold Doc.render at 2. rewrite parse_value_array_step by done.
  unfold Doc.array_of, Doc.no_bare in *.
  destruct (Doc.entries d) as [| e es] eqn:E.
  - rewrite delimited_skip_ws by done. rewrite N.eqb_refl.
    by rewrite skip_ws_all.
  - destruct (render_entries_head e es (RBRACKET :: Doc.tail d)) as [y Hy].
    inversion Hes as [| ? ? (Hl & _) _]; subst.
    rewrite Hy at 1. rewrite delimited_skip_ws by done.
    change (LBRACE =? RBRACKET) with false. cbv iota.
    rewrite parse_elements_render; [| discriminate | done | done | lia].
    by rewrite skip_ws_all.
Qed.

(** *** Quoting the identifiers of an export *)

Lemma digit_plain c : is_digit c = true -> Doc.plain c = true.
Proof.
  unfold is_digit, Doc.plain. intros H.
  apply andb_true_iff in H as [H1 H2]. apply N.leb_le in H1, H2.
  repeat (apply andb_true_iff; split).
  - apply N.leb_le. lia.
  - apply negb_true_iff, N.eqb_neq. unfold DQUOTE. lia.
  - apply negb_true_iff, N.eqb_neq. unfold BACKSLASH. lia.
Qed.

Lemma wf_quote_member g m :
  Doc.wf_member m ->
  match g with
  | Some w => Doc.all_ws w
  | None => match Doc.val m with Doc.Bare _ => Doc.all_ws (Doc.gap m) | _ => True end
  end ->
  Doc.wf_member (Doc.quote_member g m)
  /\ match Doc.val (Doc.quote_member g m) with Doc.Bare _ => False | _ => True end
  /\ Doc.key (Doc.quote_member g m) = Doc.key m
  /\ Doc.value_of (Doc.val (Doc.quote_member g m)) = Doc.value_of (Doc.val m).
Proof.
  intros Hwf Hg. pose proof Hwf as (Hb & Hk & Hc & Ha & Hv).
  unfold Doc.quote_member.
  destruct (Doc.val m) as [s | ds | text v] eqn:E.
  - rewrite E. auto.
  - destruct Hv as (_ & _ & _ & _ & Hds).
    split; [| by auto].
    unfold Doc.wf_member. cbn [Doc.before Doc.key Doc.colon Doc.gap Doc.val Doc.after].
    repeat split; try done.
    + by destruct g.
    + eapply List.Forall_impl; [| exact Hds]. apply digit_plain.
  - rewrite E. auto.
Qed.

Lemma wf_quote g d :
  Doc.wf d ->
  match g with Some w => Doc.all_ws w | None => Doc.json_gaps d end ->
  Doc.wf (Doc.quote g d) /\ Doc.no_bare (Doc.quote g d)
  /\ Doc.array_of (Doc.quote g d) = Doc.array_of d.
Proof.
  intros (Hh & Hb & Ht & Hes) Hg.
  unfold Doc.wf, Doc.no_bare, Doc.array_of, Doc.quote, Doc.json_gaps in *.
  cbn [Doc.head Doc.entries Doc.blank Doc.tail].
  enough (G : Forall Doc.wf_entry (List.map (Doc.quote_entry g) (Doc.entries d))
              /\ Forall (fun e =>
                   Forall (fun m => match Doc.val m with
                                    | Doc.Bare _ => False | _ => True end)
                     (Doc.members e))
                   (List.map (Doc.quote_entry g) (Doc.entries d))
              /\ List.map Doc.object_of (List.map (Doc.quote_entry g) (Doc.entries d))
                 = List.map Doc.object_of (Doc.entries d)).
  { destruct G as (G1 & G2 & G3). by rewrite G3. }
  assert (Hg' : Forall (fun e => Forall (fun m =>
              match g with
              | Some w => Doc.all_ws w
              | None => match Doc.val m with
                        | Doc.Bare _ => Doc.all_ws (Doc.gap m) | _ => True end
              end) (Doc.members e)) (Doc.entries d)).
  { destruct g as [w |]; [| exact Hg].
    apply List.Forall_forall. intros e _. apply List.Forall_forall. by intros m _. }
  clear Hg. induction Hes as [| e es He Hes IH]; [by repeat constructor |].
  inversion Hg' as [| ? ? Hge Hges]; subst.
  destruct (IH Hges) as (I1 & I2 & I3). cbn [List.map].
  assert (Ge : Forall Doc.wf_member (List.map (Doc.quote_member g) (Doc.members e))
               /\ Forall (fun m => match Doc.val m with
                                   | Doc.Bare _ => False | _ => True end)
                    (List.map (Doc.quote_member g) (Doc.members e))
               /\ List.map (fun m => (Doc.key m, Doc.value_of (Doc.val m)))
                    (List.map (Doc.quote_member g) (Doc.members e))
                  = List.map (fun m => (Doc.key m, Doc.value_of (Doc.val m)))
                      (Doc.members e)).
  { destruct He as (_ & _ & _ & Hms). clear -Hms Hge.
    induction Hms as [| m ms Hm Hms IH]; [by repeat constructor |].
    inversion Hge as [| ? ? Hgm Hgms]; subst.
    destruct (IH Hgms) as (J1 & J2 & J3).
    destruct (wf_quote_member g m Hm Hgm) as (K1 & K2 & K3 & K4).
    cbn [List.map]. split; [by constructor | split; [by constructor |]].
    by rewrite K3, K4, J3. }
  destruct Ge as (G1 & G2 & G3). destruct He as (Hl & Hi & Htr & _).
  split; [| split].
  - constructor; [| exact I1]. unfold Doc.wf_entry, Doc.quote_entry.
    cbn [Doc.lead Doc.members Doc.inner Doc.trail]. auto.
  - constructor; [exact G2 | exact I2].
  - rewrite I3. f_equal. unfold Doc.object_of, Doc.quote_entry.
    cbn [Doc.members]. by rewrite G3.
Qed.

(** ** Identifiers through [readFile] *)

Lemma readFile_file (filename : jsstring) (fs : filesystem) (rawData : jsstring) :
  fs !! resolve filename = Some (File rawData) ->
  readFile filename fs
  = match JSON_parse (fixIds rawData) with
    | Some data => Return data
    | None => Throw (str "SyntaxError")
    end.
Proof. unfold readFile. by intros ->. Qed.

Lemma JSON_parse_fixIds_render d :
  Doc.wf d -> JSON_parse (fixIds (Doc.render d)) = Some (Doc.array_of d).
Proof.
  intros Hwf. rewrite fixIds_render by done.
  destruct (wf_quote (Some [SPACE]) d Hwf) as (W & B & A);
    [by repeat constructor |].
  by rewrite JSON_parse_render, A.
Qed.

(** X19 ([readFile]): for an export that is an array of records whose
    keys and string values are written without escapes, whose other
    values are written without a double quote and stand under other
    keys than ["ID"], with whitespace of JSON between the tokens, and in
    which a bare identifier is a run of digits that follows the colon of
    the key ["ID"] (itself right after the key) after any whitespace,
    [readFile] rewrites the text so that each such run stands in quotes,
    before [JSON.parse] sees it, and returns the records with, for each
    such member, the same digits as a string. *)
Theorem readFile_keeps_bare_identifiers (d : Doc.document) (filename : jsstring)
  (fs : filesystem) :
  Doc.wf d ->
  fs !! resolve filename = Some (File (Doc.render d)) ->
  fixIds (Doc.render d) = Doc.render (Doc.quote (Some [SPACE]) d)
  /\ readFile filename fs = Return (Doc.array_of d)
  /\ forall e m ds,
       In e (Doc.entries d) -> In m (Doc.members e) ->
       Doc.val m = Doc.Bare ds ->
       In (Doc.object_of e) (match Doc.array_of d with JArr vs => vs | _ => [] end)
       /\ In (str "ID", JStr ds)
            (match Doc.object_of e with JObj ms => ms | _ => [] end).
Proof.
  intros Hwf Hfs. split; [by apply fixIds_render |]. split.
  - rewrite (readFile_file _ _ _ Hfs). by rewrite JSON_parse_fixIds_render.
  - intros e m ds He Hm Hv. split.
    + unfold Doc.array_of. by apply in_map.
    + unfold Doc.object_of.
      destruct Hwf as (_ & _ & _ & Hes).
      rewrite List.Forall_forall in Hes. destruct (Hes e He) as (_ & _ & _ & Hms).
      rewrite List.Forall_forall in Hms. destruct (Hms m Hm) as (_ & _ & _ & _ & Hw).
      rewrite Hv in Hw. destruct Hw as (Hk & _).
      apply in_map_iff. exists m. split; [| exact Hm].
      by rewrite Hv, Hk.
Qed.

Lemma example_document_wf : Doc.wf Sample.example_document.
Proof.
  unfold Doc.wf, Doc.wf_entry, Doc.wf_member, Doc.all_ws. cbn.
  repeat (split || constructor || discriminate).
Qed.

(** The words [true], [false] and [null] stand for their values. *)
Lemma literals_stand_for :
  Doc.stands_for (str "true") (JBool true)
  /\ Doc.stands_for (str "false") (JBool false)
  /\ Doc.stands_for (str "null") JNull.
Proof.
  split; [| split];
    (split;
     [ vm_compute; repeat constructor; discriminate
     | intros [| fuel] rest Hf _; [cbn in Hf; lia | reflexivity] ]).
Qed.

(** So does a number, here [12]. *)
Lemma twelve_stands_for : Doc.stands_for (str "12") Sample.twelve.
Proof.
  split; [vm_compute; repeat constructor; discriminate |].
  intros [| fuel] rest Hf Hd; [cbn in Hf; lia |].
  destruct rest as [| c rest]; [reflexivity |].
  unfold Doc.delimited, is_json_ws in Hd.
  repeat (apply orb_true_iff in Hd as [Hd | Hd]);
    apply N.eqb_eq in Hd; subst c; reflexivity.
Qed.

Lemma indented_document_wf : Doc.wf Sample.indented_document.
Proof.
  pose proof literals_stand_for as (_ & Hfalse & _).
  pose proof twelve_stands_for as Htwelve.
  unfold Doc.wf, Doc.wf_entry, Doc.wf_member, Doc.all_ws.
  cbn -[Doc.stands_for].
  repeat (exact Hfalse || exact Htwelve || split || constructor || discriminate).
Qed.

Lemma readFile_keeps_bare_identifiers_witness :
  readFile messagesPath (Sample.with_export Sample.example_export)
  = Return (JArr [JObj [(str "ID", JStr (str "100000000000000001"));
                        (str "Attachments",
                         JStr (str "http://x/a.jpg http://x/b.png"))]])
  /\ readFile messagesPath
       (Sample.with_export (Doc.render Sample.indented_document))
     = Return (JArr [JObj [(str "ID", JStr (str "007"));
                           (str "AuthorID", Sample.twelve);
                           (str "Pinned", JBool false)]]).
Proof.
  split.
  - apply (proj1 (proj2 (readFile_keeps_bare_identifiers Sample.example_document
                           messagesPath (Sample.with_export Sample.example_export)
                           example_document_wf eq_refl))).
  - apply (proj1 (proj2 (readFile_keeps_bare_identifiers Sample.indented_document
                           messagesPath
                           (Sample.with_export (Doc.render Sample.indented_document))
                           indented_document_wf eq_refl))).
Defined.

(** C2, at the failing input: the export [[{"ID" : 100000000000000001}]]
    has a space between the key and its colon. The pattern of the
    pre-pass does not match there, the bare 18-digit identifier is not
    rewritten, and [JSON.parse] makes it the number
    [6250000000000000 * 2^4], which is 100000000000000000 and not
    100000000000000001: [readFile] returns a record whose identifier is
    a number, and a rounded one. *)
Theorem spaced_colon_identifier_is_rounded :
  fixIds Sample.spaced_bare = Sample.spaced_bare
  /\ readFile messagesPath (Sample.with_export Sample.spaced_bare)
     = Return (JArr [JObj [(str "ID", JNum (S754_finite false 6250000000000000 4))]])
  /\ (6250000000000000 * 2 ^ 4 = 100000000000000000)%Z
  /\ readFile messagesPath (Sample.with_export Sample.spaced_bare)
     <> Return (JArr [JObj [(str "ID", JStr (str "100000000000000001"))]]).
Proof.
  split; [vm_compute; reflexivity |].
  assert (E : readFile messagesPath (Sample.with_export Sample.spaced_bare)
              = Return (JArr [JObj [(str "ID",
                                     JNum (S754_finite false 6250000000000000 4))]]))
    by (vm_compute; reflexivity).
  split; [exact E |]. split; [reflexivity |]. rewrite E. discriminate.
Qed.

(** A text in which the pattern matches nowhere is left as it is. *)
Lemma fixIds_unmatched text : Doc.inert text [] -> fixIds text = text.
Proof.
  intros H. rewrite <- (app_nil_r text) at 1.
  by rewrite fixIds_inert, fixIds_nil, app_nil_r.
Qed.

(** On text that is not JSON the pre-pass is not idempotent. *)
Lemma fixIds_twice_differs :
  let text := ID_KEY ++ str "5ID" ++ DQUOTE :: str ":7" in
  fixIds (fixIds text) <> fixIds text.
Proof. vm_compute. discriminate. Qed.

(** X20 ([readFile]): the pre-pass leaves a text unchanged in which its
    pattern matches nowhere; and for an export as in X19 in which
    whitespace of JSON separates each bare identifier from its colon, the
    export with the identifiers in quotes is left unchanged by the
    pre-pass, and [readFile] returns the same records for it as for the
    export with bare identifiers. *)
Theorem quoted_and_bare_exports_read_alike (d : Doc.document)
  (filename : jsstring) (fs1 fs2 : filesystem) :
  Doc.wf d -> Doc.json_gaps d ->
  fs1 !! resolve filename = Some (File (Doc.render (Doc.quote None d))) ->
  fs2 !! resolve filename = Some (File (Doc.render d)) ->
  (forall text, Doc.inert text [] -> fixIds text = text)
  /\ fixIds (Doc.render (Doc.quote None d)) = Doc.render (Doc.quote None d)
  /\ readFile filename fs1 = Return (Doc.array_of d)
  /\ readFile filename fs2 = Return (Doc.array_of d).
Proof.
  intros Hwf Hg H1 H2.
  destruct (wf_quote None d Hwf Hg) as (W & B & A).
  assert (F : fixIds (Doc.render (Doc.quote None d)) = Doc.render (Doc.quote None d)).
  { rewrite fixIds_render by done. f_equal.
    unfold Doc.quote. cbn [Doc.head Doc.entries Doc.blank Doc.tail]. f_equal.
    rewrite List.map_map. apply List.map_ext. intros e.
    unfold Doc.quote_entry. cbn [Doc.lead Doc.members Doc.inner Doc.trail]. f_equal.
    rewrite List.map_map. apply List.map_ext. intros m.
    unfold Doc.quote_member. by destruct (Doc.val m) eqn:E; cbn; rewrite ?E. }
  split; [exact fixIds_unmatched |]. split; [exact F |]. split.
  - rewrite (readFile_file _ _ _ H1), F. by rewrite JSON_parse_render, A.
  - rewrite (readFile_file _ _ _ H2). by rewrite JSON_parse_fixIds_render.
Qed.

Lemma example_document_json_gaps : Doc.json_gaps Sample.example_document.
Proof.
  unfold Doc.json_gaps, Doc.all_ws. cbn. repeat (split || constructor).
Qed.

Lemma quoted_and_bare_exports_read_alike_witness :
  readFile messagesPath
    (Sample.with_export (Doc.render (Doc.quote None Sample.example_document)))
  = readFile messagesPath (Sample.with_export Sample.example_export).
Proof.
  destruct (quoted_and_bare_exports_read_alike Sample.example_document
              messagesPath
              (Sample.with_export (Doc.render (Doc.quote None Sample.example_document)))
              (Sample.with_export Sample.example_export)
              example_document_wf example_document_json_gaps eq_refl eq_refl)
    as (_ & _ & E1 & E2).
  exact (eq_trans E1 (eq_sym E2)).
Defined.

(** C10, at the failing input: with a space between the key and its
    colon the pattern of the pre-pass matches in neither export; the
    export [[{"ID" : "100000000000000001"}]], with the identifier in
    quotes, and the export [[{"ID" : 100000000000000001}]], with the
    same digits bare, are read as different records, the second with a
    number that is rounded. *)
Theorem spaced_colon_exports_read_differently :
  fixIds Sample.spaced_quoted = Sample.spaced_quoted
  /\ readFile messagesPath (Sample.with_export Sample.spaced_quoted)
     = Return (JArr [JObj [(str "ID", JStr (str "100000000000000001"))]])
  /\ readFile messagesPath (Sample.with_export Sample.spaced_bare)
     = Return (JArr [JObj [(str "ID", JNum (S754_finite false 6250000000000000 4))]])
  /\ readFile messagesPath (Sample.with_export Sample.spaced_quoted)
     <> readFile messagesPath (Sample.with_export Sample.spaced_bare).
Proof.
  assert (E1 : readFile messagesPath (Sample.with_export Sample.spaced_quoted)
               = Return (JArr [JObj [(str "ID", JStr (str "100000000000000001"))]]))
    by (vm_compute; reflexivity).
  assert (E2 : readFile messagesPath (Sample.with_export Sample.spaced_bare)
               = Return (JArr [JObj [(str "ID",
                                      JNum (S754_finite false 6250000000000000 4))]]))
    by (vm_compute; reflexivity).
  split; [vm_compute; reflexivity |]. split; [exact E1 |]. split; [exact E2 |].
  rewrite E1, E2. discriminate.
Qed.

(** ** More on [readFile] *)

(** The pre-pass keeps the first code unit of a text. *)
Lemma fixIds_first c rest : exists t, fixIds (c :: rest) = c :: t.
Proof.
  destruct (match_ID (c :: rest)) as [[ds r] |] eqn:E.
  - destruct (N.eq_dec c DQUOTE) as [-> | Hne].
    + rewrite (fixIds_match _ _ _ E). eexists. reflexivity.
    + by rewrite match_ID_not_quote in E.
  - rewrite fixIds_copy by done. eauto.
Qed.

(** No value ends where a code unit follows it that is neither
    whitespace of JSON, a comma nor a closing brace: the parser gives up
    on the first member of the first record. *)
Lemma parse_value_stuck_member f h l b k gp s c t :
  Doc.all_ws h -> Doc.all_ws l -> Doc.all_ws b -> Doc.all_ws gp ->
  Forall (fun c => Doc.plain c = true) k ->
  Forall (fun c => Doc.plain c = true) s ->
  is_json_ws c = false -> c <> COMMA -> c <> RBRACE ->
  parse_value (S (S (S (S (S f)))))
    (h ++ LBRACKET :: l ++ LBRACE :: b ++ DQUOTE :: k ++ DQUOTE :: []
       ++ COLON :: gp ++ DQUOTE :: s ++ DQUOTE :: c :: t)
  = None.
Proof.
  intros Hh Hl Hb Hg Hk Hs Hws Hcomma Hbrace.
  rewrite parse_value_array_step by done.
  rewrite delimited_skip_ws by done.
  change (LBRACE =? RBRACKET) with false. cbv iota.
  cbn [parse_elements].
  rewrite parse_value_object_step by done.
  rewrite delimited_skip_ws by done.
  change (DQUOTE =? RBRACE) with false. cbv iota.
  rewrite parse_members_step by (done || constructor).
  rewrite parse_value_gap by done.
  rewrite parse_value_literal by done.
  rewrite skip_ws_stop by done.
  destruct (N.eqb_spec c COMMA); [contradiction |].
  destruct (N.eqb_spec c RBRACE); [contradiction |].
  reflexivity.
Qed.

(** X17 ([readFile]): an identifier written as a number that goes on
    after its first run of digits, with a fraction or an exponent say,
    makes [readFile] throw, also where the export is valid JSON: the
    pre-pass puts the first run of digits in quotes and leaves the rest
    of the number behind the closing quote. Stated for the first member
    of the first record, whatever follows in the file. *)
Theorem readFile_throws_on_number_after_digits (filename : jsstring)
  (fs : filesystem) (h l b g ds : jsstring) (c : N) (rest : jsstring) :
  Doc.all_ws h -> Doc.all_ws l -> Doc.all_ws b ->
  Forall (fun c => is_space c = true) g ->
  ds <> [] -> Forall (fun c => is_digit c = true) ds ->
  is_digit c = false -> is_json_ws c = false -> c <> COMMA -> c <> RBRACE ->
  fs !! resolve filename
  = Some (File (h ++ LBRACKET :: l ++ LBRACE :: b ++ ID_KEY ++ g ++ ds
                  ++ c :: rest)) ->
  readFile filename fs = Throw (str "SyntaxError").
Proof.
  intros Hh Hl Hb Hg Hne Hds Hd Hws Hcomma Hbrace Hfile.
  rewrite (readFile_file _ _ _ Hfile).
  rewrite fixIds_ws by done. rewrite fixIds_punct by discriminate.
  rewrite fixIds_ws by done. rewrite fixIds_punct by discriminate.
  rewrite fixIds_ws by done.
  rewrite (fixIds_match _ ds (c :: rest)) by (by apply match_ID_bare).
  destruct (fixIds_first c rest) as [t ->].
  set (fixed := h ++ _).
  assert (L : (2 <= length fixed)%nat).
  { unfold fixed. repeat (rewrite length_app || cbn [length]). lia. }
  unfold JSON_parse.
  replace (2 * length fixed + 2)%nat
    with (S (S (S (S (S (2 * length fixed - 3))))))%nat by lia.
  unfold fixed.
  assert (Q : quoted_ID ds ++ c :: t
              = DQUOTE :: str "ID" ++ DQUOTE :: [] ++ COLON :: [SPACE]
                  ++ DQUOTE :: ds ++ DQUOTE :: c :: t).
  { unfold quoted_ID. rewrite ID_KEY_units, str_ID. cbn [app].
    by rewrite <- app_assoc. }
  rewrite Q.
  rewrite parse_value_stuck_member; try done.
  - by repeat constructor.
  - by repeat constructor.
  - eapply List.Forall_impl; [| exact Hds]. apply digit_plain.
Qed.

Lemma readFile_throws_on_number_after_digits_witness :
  let text := str "[{" ++ ID_KEY ++ str " 12.5}]" in
  readFile messagesPath (Sample.with_export text) = Throw (str "SyntaxError")
  /\ JSON_parse text
     = Some (JArr [JObj [(str "ID", JNum (S754_finite false 7036874417766400 (-49)))]]).
Proof.
  cbv zeta. split; [| vm_compute; reflexivity].
  apply (readFile_throws_on_number_after_digits messagesPath _
           [] [] [] [SPACE] (str "12") DOT (str "5}]"));
    first [ by repeat constructor | discriminate | vm_compute; reflexivity ].
Defined.

Lemma quote_member_twice g m :
  Doc.quote_member g (Doc.quote_member g m) = Doc.quote_member g m.
Proof. unfold Doc.quote_member. by destruct (Doc.val m) eqn:E; cbn; rewrite ?E. Qed.

Lemma quote_twice g d : Doc.quote g (Doc.quote g d) = Doc.quote g d.
Proof.
  unfold Doc.quote. cbn [Doc.head Doc.entries Doc.blank Doc.tail]. f_equal.
  rewrite List.map_map. apply List.map_ext. intros e.
  unfold Doc.quote_entry. cbn [Doc.lead Doc.members Doc.inner Doc.trail]. f_equal.
  rewrite List.map_map. apply List.map_ext. intros m.
  apply quote_member_twice.
Qed.

(** X18 ([readFile], the pre-pass): on an export as in X19 the pre-pass
    is idempotent: what it produced it leaves as it is, whatever
    whitespace stood between a colon and its digits. *)
Theorem fixIds_twice_on_exports (d : Doc.document) :
  Doc.wf d -> fixIds (fixIds (Doc.render d)) = fixIds (Doc.render d).
Proof.
  intros Hwf. rewrite fixIds_render by done.
  destruct (wf_quote (Some [SPACE]) d Hwf) as (W & _ & _);
    [by repeat constructor |].
  rewrite fixIds_render by done. by rewrite quote_twice.
Qed.

Lemma fixIds_twice_on_exports_witness :
  fixIds (fixIds Sample.example_export) = fixIds Sample.example_export.
Proof. exact (fixIds_twice_on_exports Sample.example_document example_document_wf). Defined.
